(** * mgit: remote parsing, rule matching, target inference, resolution

    A shallow embedding of the decision core of mgit (packages [giturl],
    [matcher], [runner], [resolve] and the parts of [config] they use) and
    the properties of it that the design document states.

    Go strings are byte sequences and are modelled by [string] (a list of
    [ascii], i.e. of bytes).  Go's [int] is the 64-bit two's complement
    integer of the usual targets and is modelled by [Z] with the wrap-around
    written out ([wrap_int]). *)

From Stdlib Require Import ZArith NArith List String Ascii Bool Arith Lia.
Import ListNotations.

Local Open Scope string_scope.
Local Open Scope list_scope.
Local Open Scope Z_scope.

(** ** Results and errors *)

(** Every [errors.New] / [fmt.Errorf] site of the modelled packages is one
    constructor; the arguments are the values the message is formatted
    from. *)
Inductive error : Type :=
| ErrEmptyURL                              (* giturl.Parse: "empty URL" *)
| ErrParseURL                              (* giturl.parseURL: "parse URL: %w" *)
| ErrNoHost (raw : string)                 (* "URL %q does not contain host" *)
| ErrUnsupportedFormat (raw : string)      (* "unsupported remote URL format: %q" *)
| ErrRepoPath (inner : error)              (* "parse repository path: %w" *)
| ErrPathEmpty                             (* "repository path is empty" *)
| ErrNeedOwnerAndRepo (rawPath : string)   (* "repository path %q must include owner and repo" *)
| ErrInvalidRepo (rawPath : string)        (* "invalid repo in path %q" *)
| ErrInvalidOwner (rawPath : string)       (* "invalid owner/namespace in path %q" *)
| ErrNilRemote                             (* matcher.Match: "nil parsed remote" *)
| ErrEmptyHost                             (* "parsed remote host is empty" *)
| ErrNoRuleMatched (host owner : string)   (* "no SSH key rule matched (host=%s, owner=%s)" *)
| ErrConfigRequired                        (* resolve.FromURL: "config is required for SSH remote" *)
| ErrWithHint (inner : error) (hint : string)  (* "%w. %s" *)
| ErrExpandKey (ruleID : string) (inner : error) (* "expand key path for rule %q: %w" *)
| ErrEmptyKeyPath                          (* config.ExpandPath: "empty path" *)
| ErrHomeDir                               (* "determine home dir: %w" *)
| ErrAbsPath                               (* "resolve absolute path: %w" *)
| ErrCloneRequiresURL.                     (* runner.InferGitTarget: "clone requires repository URL" *)

Inductive result (A : Type) : Type :=
| Ok (a : A)
| Err (e : error).
Arguments Ok {A} a.
Arguments Err {A} e.

Definition is_ok {A} (r : result A) : bool :=
  match r with Ok _ => true | Err _ => false end.

(** ** Go's [int] *)

Definition int_min : Z := - 2 ^ 63.
Definition int_max : Z := 2 ^ 63 - 1.

(** Reduction of a mathematical integer to the value an [int] holds. *)
Definition wrap_int (z : Z) : Z := (z + 2 ^ 63) mod 2 ^ 64 - 2 ^ 63.

Definition fits_int (z : Z) : Prop := int_min <= z <= int_max.

(** ** Package [strings] (byte-level functions) *)

Module strings.

Definition byte (c : ascii) : N := N_of_ascii c.

Fixpoint drop (n : nat) (s : string) : string :=
  match n, s with
  | O, _ => s
  | S n', String _ s' => drop n' s'
  | S _, EmptyString => EmptyString
  end.

Fixpoint take (n : nat) (s : string) : string :=
  match n, s with
  | O, _ => EmptyString
  | S n', String c s' => String c (take n' s')
  | S _, EmptyString => EmptyString
  end.

Definition HasPrefix (s prefix : string) : bool := String.prefix prefix s.

Definition HasSuffix (s suffix : string) : bool :=
  (String.length suffix <=? String.length s)%nat &&
  String.eqb (drop (String.length s - String.length suffix) s) suffix.

Definition TrimPrefix (s prefix : string) : string :=
  if HasPrefix s prefix then drop (String.length prefix) s else s.

Definition TrimSuffix (s suffix : string) : string :=
  if HasSuffix s suffix
  then take (String.length s - String.length suffix) s
  else s.

Fixpoint Contains (s substr : string) : bool :=
  HasPrefix s substr ||
  match s with
  | EmptyString => false
  | String _ s' => Contains s' substr
  end.

Fixpoint IndexByte (s : string) (c : ascii) : bool :=
  match s with
  | EmptyString => false
  | String d s' => Ascii.eqb d c || IndexByte s' c
  end.

(** [ContainsAny s chars] for a [chars] made of ASCII bytes. *)
Fixpoint ContainsAny (s chars : string) : bool :=
  match s with
  | EmptyString => false
  | String c s' => IndexByte chars c || ContainsAny s' chars
  end.

(** [Split s sep] for a one-byte separator: the pieces of [s] between
    the occurrences of [sep]; always at least one piece. *)
Fixpoint Split (s : string) (sep : ascii) : list string :=
  match s with
  | EmptyString => [EmptyString]
  | String c s' =>
      if Ascii.eqb c sep then EmptyString :: Split s' sep
      else match Split s' sep with
           | [] => [String c EmptyString]
           | seg :: segs => String c seg :: segs
           end
  end.

Fixpoint Join (elems : list string) (sep : string) : string :=
  match elems with
  | [] => EmptyString
  | [e] => e
  | e :: rest => e ++ sep ++ Join rest sep
  end%string.

(** [ReplaceAll s old new] for a one-byte [old]. *)
Fixpoint ReplaceAll (s : string) (old : ascii) (new : string) : string :=
  match s with
  | EmptyString => EmptyString
  | String c s' =>
      if Ascii.eqb c old then (new ++ ReplaceAll s' old new)%string
      else String c (ReplaceAll s' old new)
  end.

End strings.

(** ** Package [unicode/utf8]: decoding, as [range] over a string does it *)

Module utf8.

Local Open Scope N_scope.

Definition RuneError : N := 65533.  (* U+FFFD *)

Definition cont (b : N) : bool := ((128 <=? b) && (b <=? 191))%N.

Definition between (lo hi b : N) : bool := ((lo <=? b) && (b <=? hi))%N.

(** Size and accepted range of the second byte, by first byte (the
    tables [first] and [acceptRanges]); [None] for an invalid first
    byte. *)
Definition lead (b0 : N) : option (nat * N * N) :=
  if between 194 223 b0 then Some (2%nat, 128, 191)
  else if (b0 =? 224)%N then Some (3%nat, 160, 191)
  else if between 225 236 b0 then Some (3%nat, 128, 191)
  else if (b0 =? 237)%N then Some (3%nat, 128, 159)
  else if between 238 239 b0 then Some (3%nat, 128, 191)
  else if (b0 =? 240)%N then Some (4%nat, 144, 191)
  else if between 241 243 b0 then Some (4%nat, 128, 191)
  else if (b0 =? 244)%N then Some (4%nat, 128, 143)
  else None.

(** [DecodeRuneInString s]: the first rune of [s] and its width in
    bytes; [(RuneError, 0)] on the empty string and [(RuneError, 1)] on
    an invalid or truncated encoding. *)
Definition DecodeRuneInString (s : string) : N * nat :=
  match s with
  | EmptyString => (RuneError, 0%nat)
  | String c0 t0 =>
      let b0 := strings.byte c0 in
      if (b0 <? 128)%N then (b0, 1%nat)
      else
        match lead b0 with
        | None => (RuneError, 1%nat)
        | Some (sz, lo, hi) =>
            match t0 with
            | EmptyString => (RuneError, 1%nat)
            | String c1 t1 =>
                let b1 := strings.byte c1 in
                if negb (between lo hi b1) then (RuneError, 1%nat)
                else if (sz <=? 2)%nat
                then ((N.land b0 31) * 64 + N.land b1 63, 2%nat)%N
                else
                  match t1 with
                  | EmptyString => (RuneError, 1%nat)
                  | String c2 t2 =>
                      let b2 := strings.byte c2 in
                      if negb (cont b2) then (RuneError, 1%nat)
                      else if (sz <=? 3)%nat
                      then ((N.land b0 15) * 4096 + (N.land b1 63) * 64
                            + N.land b2 63, 3%nat)%N
                      else
                        match t2 with
                        | EmptyString => (RuneError, 1%nat)
                        | String c3 _ =>
                            let b3 := strings.byte c3 in
                            if negb (cont b3) then (RuneError, 1%nat)
                            else ((N.land b0 7) * 262144
                                  + (N.land b1 63) * 4096
                                  + (N.land b2 63) * 64
                                  + N.land b3 63, 4%nat)%N
                        end
                  end
            end
        end
  end.

(** The runes [for _, r := range s] visits, in order.  Every step
    consumes at least one byte, so [String.length s] steps suffice. *)
Fixpoint runes_fuel (fuel : nat) (s : string) : list N :=
  match fuel with
  | O => []
  | S fuel' =>
      match s with
      | EmptyString => []
      | _ =>
          let '(r, n) := DecodeRuneInString s in
          r :: runes_fuel fuel' (strings.drop n s)
      end
  end.

Definition runes (s : string) : list N := runes_fuel (String.length s) s.

End utf8.

(** ** Package [path]: lexical cleaning *)

Module path.

(** The element stack of [Clean]: [out] holds the kept elements, last
    first.  An element can be removed by a following [..] unless it is
    itself a [..] kept for a relative path (the [dotdot] mark of the
    buffer). *)
Fixpoint clean_elems (rooted : bool) (elems out : list string) : list string :=
  match elems with
  | [] => rev out
  | e :: rest =>
      if String.eqb e "" || String.eqb e "." then clean_elems rooted rest out
      else if String.eqb e ".." then
        match out with
        | top :: out' =>
            if String.eqb top ".." then
              if rooted then clean_elems rooted rest out
              else clean_elems rooted rest (".." :: out)
            else clean_elems rooted rest out'
        | [] =>
            if rooted then clean_elems rooted rest out
            else clean_elems rooted rest [".."]
        end
      else clean_elems rooted rest (e :: out)
  end.

Definition Clean (p : string) : string :=
  if String.eqb p "" then "."
  else
    let rooted := strings.HasPrefix p "/" in
    let body := strings.Join (clean_elems rooted (strings.Split p "/"%char) []) "/" in
    if rooted then ("/" ++ body)%string
    else if String.eqb body "" then "." else body.

End path.

(** ** Package [path/filepath]: shell-pattern matching (Unix separator) *)

Module filepath.

Local Open Scope char_scope.

Inductive pattern_error : Type := ErrBadPattern.

Inductive chunk_result : Type :=
| ChunkErr
| ChunkFail
| ChunkOk (rest : string).

Fixpoint strip_stars (pattern : string) : bool * string :=
  match pattern with
  | String c p' =>
      if Ascii.eqb c "*" then (true, snd (strip_stars p')) else (false, pattern)
  | EmptyString => (false, pattern)
  end.

(** Length of the chunk that starts [pattern]: up to the first [*]
    outside a bracket expression. *)
Fixpoint scan (pattern : string) (inrange : bool) : nat :=
  match pattern with
  | EmptyString => 0%nat
  | String c p' =>
      if Ascii.eqb c "\" then
        match p' with
        | EmptyString => 1%nat
        | String _ p'' => S (S (scan p'' inrange))
        end
      else if Ascii.eqb c "[" then S (scan p' true)
      else if Ascii.eqb c "]" then S (scan p' false)
      else if Ascii.eqb c "*" then
        if inrange then S (scan p' inrange) else 0%nat
      else S (scan p' inrange)
  end.

Definition scanChunk (pattern : string) : bool * string * string :=
  let '(star, p) := strip_stars pattern in
  let i := scan p false in
  (star, strings.take i p, strings.drop i p).

Definition getEsc (chunk : string) : option (N * string) :=
  match chunk with
  | EmptyString => None
  | String c rest =>
      if Ascii.eqb c "-" || Ascii.eqb c "]" then None
      else
        let chunk1 := if Ascii.eqb c "\" then rest else chunk in
        match chunk1 with
        | EmptyString => None
        | _ =>
            let '(r, n) := utf8.DecodeRuneInString chunk1 in
            if (r =? utf8.RuneError)%N && (n =? 1)%nat then None
            else
              match strings.drop n chunk1 with
              | EmptyString => None
              | nchunk => Some (r, nchunk)
              end
        end
  end.

(** The loop over the ranges of one bracket expression; [None] is
    [ErrBadPattern]. *)
Fixpoint class_loop (fuel : nat) (chunk : string) (r : N)
         (matched : bool) (nrange : nat) : option (bool * string) :=
  match fuel with
  | O => None
  | S fuel' =>
      let ranges :=
        match getEsc chunk with
        | None => None
        | Some (lo, chunk1) =>
            let dash :=
              match chunk1 with
              | String c1 _ => Ascii.eqb c1 "-"
              | EmptyString => false
              end in
            if dash then
              match getEsc (strings.drop 1 chunk1) with
              | None => None
              | Some (hi, chunk3) =>
                  class_loop fuel' chunk3 r
                    (matched || ((lo <=? r)%N && (r <=? hi)%N)) (S nrange)
              end
            else
              class_loop fuel' chunk1 r
                (matched || ((lo <=? r)%N && (r <=? lo)%N)) (S nrange)
        end in
      match chunk with
      | String c chunk' =>
          if Ascii.eqb c "]" && (0 <? nrange)%nat then Some (matched, chunk')
          else ranges
      | EmptyString => ranges
      end
  end.

Fixpoint matchChunk_loop (fuel : nat) (chunk s : string) (failed : bool)
  : chunk_result :=
  match fuel with
  | O => ChunkErr
  | S fuel' =>
      match chunk with
      | EmptyString => if failed then ChunkFail else ChunkOk s
      | String c chunk' =>
          let failed := failed || String.eqb s "" in
          let literal (c : ascii) (chunk' : string) :=
            if failed then matchChunk_loop fuel' chunk' s true
            else match s with
                 | String d s' =>
                     matchChunk_loop fuel' chunk' s' (negb (Ascii.eqb c d))
                 | EmptyString => matchChunk_loop fuel' chunk' s true
                 end in
          if Ascii.eqb c "[" then
            let '(r, s1) :=
              if failed then (0%N, s)
              else let '(r, n) := utf8.DecodeRuneInString s in
                   (r, strings.drop n s) in
            let '(negated, chunk1) :=
              match chunk' with
              | String c1 chunk2 =>
                  if Ascii.eqb c1 "^" then (true, chunk2) else (false, chunk')
              | EmptyString => (false, chunk')
              end in
            match class_loop (S (String.length chunk1)) chunk1 r false 0 with
            | None => ChunkErr
            | Some (m, chunk2) =>
                matchChunk_loop fuel' chunk2 s1 (failed || Bool.eqb m negated)
            end
          else if Ascii.eqb c "?" then
            if failed then matchChunk_loop fuel' chunk' s true
            else
              let '(_, n) := utf8.DecodeRuneInString s in
              matchChunk_loop fuel' chunk' (strings.drop n s)
                (strings.HasPrefix s "/")
          else if Ascii.eqb c "\" then
            match chunk' with
            | EmptyString => ChunkErr
            | String c2 chunk'' => literal c2 chunk''
            end
          else literal c chunk'
      end
  end.

Definition matchChunk (chunk s : string) : chunk_result :=
  matchChunk_loop (S (String.length chunk)) chunk s false.

(** The outer loop of [Match]; one round per chunk, so
    [S (String.length pattern)] rounds suffice. *)
Fixpoint Match_loop (fuel : nat) (pattern name : string)
  : bool * option pattern_error :=
  match fuel with
  | O => (false, None)
  | S fuel' =>
      match pattern with
      | EmptyString => (String.eqb name "", None)
      | _ =>
          let '(star, chunk, rest) := scanChunk pattern in
          if star && String.eqb chunk "" then
            (negb (strings.Contains name "/"), None)
          else
            let skip :=
              (fix skip (name : string) : bool * option pattern_error :=
                 match name with
                 | EmptyString => (false, None)
                 | String d name' =>
                     if Ascii.eqb d "/" then (false, None)
                     else
                       match matchChunk chunk name' with
                       | ChunkOk t =>
                           if String.eqb rest "" && negb (String.eqb t "")
                           then skip name'
                           else Match_loop fuel' rest t
                       | ChunkErr => (false, Some ErrBadPattern)
                       | ChunkFail => skip name'
                       end
                 end) in
            let retry := if star then skip name else (false, None) in
            match matchChunk chunk name with
            | ChunkOk t =>
                if String.eqb t "" || negb (String.eqb rest "")
                then Match_loop fuel' rest t
                else retry
            | ChunkErr => (false, Some ErrBadPattern)
            | ChunkFail => retry
            end
      end
  end.

Definition Match (pattern name : string) : bool * option pattern_error :=
  Match_loop (S (String.length pattern)) pattern name.

End filepath.


(** ** The rest of the Go runtime

    The library functions below depend on Unicode tables, on the URL
    grammar of [net/url] or on the process environment.  They are taken as
    an interface: every theorem is proved for an arbitrary implementation.
    [url_Parse] returns the parts of the [*url.URL] that [parseURL] reads:
    [Hostname] and [Port] stand for the methods [u.Hostname()] and
    [u.Port()], and [User] is [None] when [u.User] is [nil]. *)

Module url.

Record URL : Type := {
  Scheme : string;
  User : option string;
  Hostname : string;
  Port : string;
  Path : string
}.

End url.

Class GoRuntime : Type := {
  strings_TrimSpace : string -> string;
  strings_ToLower : string -> string;
  strings_EqualFold : string -> string -> bool;
  filepath_Match : string -> string -> bool * option filepath.pattern_error;
  url_Parse : string -> option url.URL;
  os_UserHomeDir : option string;
  os_ExpandEnv : string -> string;
  filepath_IsAbs : string -> bool;
  filepath_Abs : string -> option string;
  filepath_Join : string -> string -> string;
  filepath_Clean : string -> string
}.

(** ** Package [giturl] *)

Module giturl.

Inductive Transport : Type := TransportSSH | TransportHTTPS | TransportOther.

Definition Transport_eqb (a b : Transport) : bool :=
  match a, b with
  | TransportSSH, TransportSSH
  | TransportHTTPS, TransportHTTPS
  | TransportOther, TransportOther => true
  | _, _ => false
  end.

(** The string value of the [Transport] constant. *)
Definition Transport_string (t : Transport) : string :=
  match t with
  | TransportSSH => "ssh"
  | TransportHTTPS => "https"
  | TransportOther => "other"
  end.

Record ParsedRemote : Type := {
  Original : string;
  Transport_ : Transport;
  Scheme : string;
  User : string;
  Host : string;
  Port : string;
  Owner : string;
  Repo : string;
  RawPath : string;
  IsRemoteURL : bool
}.

Definition IsSSH (p : ParsedRemote) : bool :=
  Transport_eqb (Transport_ p) TransportSSH.

Definition IsHTTPS (p : ParsedRemote) : bool :=
  Transport_eqb (Transport_ p) TransportHTTPS.

(** *** The regular expression [scpLikeRe]

    [^(?:(?P<user>[^@]+)@)?(?P<host>[^:]+):(?P<path>.+)$], matched the
    way Go's [regexp] does (leftmost, preferring the optional group and
    the longer repetition).  A negated class cannot run over its
    excluded byte, so [user] can only be the text before the first [@],
    and [host] the text up to the next [:]; [.] matches everything but a
    line feed and [$] only the end of the text. *)

(** [span_not c s]: the longest prefix of [s] without [c], and the rest
    (which is empty or starts with [c]). *)
Fixpoint span_not (c : ascii) (s : string) : string * string :=
  match s with
  | EmptyString => (EmptyString, EmptyString)
  | String d s' =>
      if Ascii.eqb d c then (EmptyString, s)
      else let '(a, b) := span_not c s' in (String d a, b)
  end.

Definition LF : ascii := ascii_of_nat 10.

(** [(?P<host>[^:]+):(?P<path>.+)$] at the start of [s]. *)
Definition match_host_path (s : string) : option (string * string) :=
  match span_not ":"%char s with
  | (String h0 h, String _ (String p0 p)) =>
      if strings.IndexByte (String p0 p) LF then None
      else Some (String h0 h, String p0 p)
  | _ => None
  end.

(** [scpLikeRe.FindStringSubmatch]: the groups [user], [host], [path]
    of the match, [None] when the expression does not match. *)
Definition scpLikeRe_FindStringSubmatch (s : string)
  : option (string * string * string) :=
  let with_user :=
    match span_not "@"%char s with
    | (String u0 u, String _ rest) =>
        match match_host_path rest with
        | Some (h, p) => Some (String u0 u, h, p)
        | None => None
        end
    | _ => None
    end in
  match with_user with
  | Some m => Some m
  | None =>
      match match_host_path s with
      | Some (h, p) => Some (EmptyString, h, p)
      | None => None
      end
  end.

Definition scpLikeRe_MatchString (s : string) : bool :=
  match scpLikeRe_FindStringSubmatch s with
  | Some _ => true
  | None => false
  end.

Section WithRuntime.
Context {rt : GoRuntime}.

Definition nonempty (s : string) : bool := negb (String.eqb s "").

Definition splitRepoPath (rawPath : string)
  : result (string * string * string) :=
  let p := strings_TrimSpace rawPath in
  let p := strings.TrimPrefix p "/" in
  let p := strings.TrimPrefix p "./" in
  let p := strings.TrimSuffix p "/" in
  if String.eqb p "" then Err ErrPathEmpty
  else
    let segs := strings.Split p "/"%char in
    let filtered := filter nonempty segs in
    if (List.length filtered <? 2)%nat then Err (ErrNeedOwnerAndRepo rawPath)
    else
      let repo := last filtered "" in
      let repo := strings.TrimSuffix repo ".git" in
      if String.eqb repo "" then Err (ErrInvalidRepo rawPath)
      else
        let owner := path.Clean (strings.Join (removelast filtered) "/") in
        let owner := if String.eqb owner "." then "" else owner in
        if String.eqb owner "" then Err (ErrInvalidOwner rawPath)
        else Ok (owner, repo, strings.Join filtered "/").

Definition parseURL (raw : string) : result ParsedRemote :=
  match url_Parse raw with
  | None => Err ErrParseURL
  | Some u =>
      let host := url.Hostname u in
      if String.eqb host "" then Err (ErrNoHost raw)
      else
        match splitRepoPath (url.Path u) with
        | Err e => Err (ErrRepoPath e)
        | Ok (owner, repo, cleanPath) =>
            let scheme := strings_ToLower (url.Scheme u) in
            Ok {| Original := raw;
                  Scheme := scheme;
                  Host := host;
                  Port := url.Port u;
                  User := match url.User u with
                          | Some name => name
                          | None => ""
                          end;
                  Owner := owner;
                  Repo := repo;
                  RawPath := cleanPath;
                  IsRemoteURL := true;
                  Transport_ :=
                    if String.eqb scheme "ssh" then TransportSSH
                    else if String.eqb scheme "https" then TransportHTTPS
                    else TransportOther |}
        end
  end.

Definition parseSCPLike (raw : string) : result ParsedRemote :=
  match scpLikeRe_FindStringSubmatch raw with
  | None => Err (ErrUnsupportedFormat raw)
  | Some (user, host, rawPath) =>
      match splitRepoPath rawPath with
      | Err e => Err (ErrRepoPath e)
      | Ok (owner, repo, cleanPath) =>
          Ok {| Original := raw;
                Transport_ := TransportSSH;
                Scheme := "ssh";
                User := user;
                Host := host;
                Port := "";
                Owner := owner;
                Repo := repo;
                RawPath := cleanPath;
                IsRemoteURL := true |}
      end
  end.

Definition Parse (input : string) : result ParsedRemote :=
  let s := strings_TrimSpace input in
  if String.eqb s "" then Err ErrEmptyURL
  else if strings.Contains s "://" then parseURL s
  else parseSCPLike s.

End WithRuntime.

Definition IsLikelyRemoteURL (s : string) : bool :=
  if strings.Contains s "://" then true
  else scpLikeRe_MatchString s.

End giturl.

(** ** Package [config] (the rule type and key-path expansion) *)

Module config.

Record Rule : Type := {
  ID : string;
  Host : string;
  Owner : string;
  Key : string;
  Priority : Z
}.

Record Config : Type := {
  Version : Z;
  Rules : list Rule
}.

Section WithRuntime.
Context {rt : GoRuntime}.

Definition ExpandPath (p : string) : result string :=
  let s := strings_TrimSpace p in
  if String.eqb s "" then Err ErrEmptyKeyPath
  else
    let tilde : result string :=
      if strings.HasPrefix s "~" then
        match os_UserHomeDir with
        | None => Err ErrHomeDir
        | Some home =>
            if String.eqb s "~" then Ok home
            else if strings.HasPrefix s "~/"
            then Ok (filepath_Join home (strings.drop 2 s))
            else Ok s
        end
      else Ok s in
    match tilde with
    | Err e => Err e
    | Ok s =>
        let s := os_ExpandEnv s in
        if negb (filepath_IsAbs s) then
          match filepath_Abs s with
          | None => Err ErrAbsPath
          | Some abs => Ok (filepath_Clean abs)
          end
        else Ok (filepath_Clean s)
    end.

End WithRuntime.

End config.

(** ** Package [matcher] *)

Module matcher.

Record MatchResult : Type := {
  Rule : config.Rule;
  Score : Z;
  Index : nat
}.

Definition hasWildcard (pattern : string) : bool :=
  strings.ContainsAny pattern "*?[".

Definition is_meta (r : N) : bool :=
  (r =? 42)%N || (r =? 63)%N || (r =? 91)%N || (r =? 93)%N.  (* * ? [ ] *)

(** [n] never exceeds the length of the pattern, so the increment is
    written without wrap-around. *)
Definition literalChars (pattern : string) : Z :=
  fold_left (fun n r => if is_meta r then n else n + 1)
            (utf8.runes pattern) 0.

Section WithRuntime.
Context {rt : GoRuntime}.

Definition normalizePattern (s : string) : string :=
  let s := strings_TrimSpace s in
  if String.eqb s "" then "*" else s.

Definition specificityScore (pattern value : string) : Z :=
  if String.eqb pattern "*" then 0
  else if negb (hasWildcard pattern) && strings_EqualFold pattern value then 400
  else if negb (hasWildcard pattern) then 300
  else 100.

(** [err != nil || !ok] of a [filepath.Match] call, negated. *)
Definition glob_ok (pattern value : string) : bool :=
  match filepath_Match pattern value with
  | (ok, None) => ok
  | (_, Some _) => false
  end.

Definition matchRule (r : config.Rule) (remote : giturl.ParsedRemote)
  : bool * Z :=
  let hostPattern := normalizePattern (strings_ToLower (config.Host r)) in
  let ownerPattern := normalizePattern (strings_ToLower (config.Owner r)) in
  let hostValue := strings_ToLower (giturl.Host remote) in
  let ownerValue := strings_ToLower (giturl.Owner remote) in
  if negb (glob_ok hostPattern hostValue) then (false, 0)
  else if negb (glob_ok ownerPattern ownerValue) then (false, 0)
  else
    let score := wrap_int (config.Priority r * 1000) in
    let score := wrap_int (score + specificityScore hostPattern hostValue) in
    let score := wrap_int (score + specificityScore ownerPattern ownerValue) in
    let score :=
      wrap_int (score + wrap_int (literalChars hostPattern
                                  + literalChars ownerPattern)) in
    (true, score).

(** One round of the [for i, r := range rules] loop. *)
Definition Match_step (remote : giturl.ParsedRemote)
           (best : option MatchResult) (i : nat) (r : config.Rule)
  : option MatchResult :=
  let '(ok, score) := matchRule r remote in
  if negb ok then best
  else
    let candidate := {| Rule := r; Score := score; Index := i |} in
    match best with
    | None => Some candidate
    | Some b => if Score b <? Score candidate then Some candidate else best
    end.

Fixpoint Match_loop (remote : giturl.ParsedRemote) (i : nat)
         (rules : list config.Rule) (best : option MatchResult)
  : option MatchResult :=
  match rules with
  | [] => best
  | r :: rest => Match_loop remote (S i) rest (Match_step remote best i r)
  end.

(** [remote] is a pointer in the source: [None] is [nil]. *)
Definition Match (rules : list config.Rule)
           (remote : option giturl.ParsedRemote) : result MatchResult :=
  match remote with
  | None => Err ErrNilRemote
  | Some remote =>
      if String.eqb (giturl.Host remote) "" then Err ErrEmptyHost
      else
        match Match_loop remote 0 rules None with
        | None =>
            Err (ErrNoRuleMatched (giturl.Host remote) (giturl.Owner remote))
        | Some best => Ok best
        end
  end.

End WithRuntime.

End matcher.

(** ** Package [runner] *)

Module runner.

Definition dquote : ascii := ascii_of_nat 34.

(** The replacement text of [shellQuote]: quote, double quote, quote,
    double quote, quote. *)
Definition quote_escape : string :=
  String "'" (String dquote (String "'" (String dquote (String "'" "")))).

Definition shellQuote (s : string) : string :=
  if String.eqb s "" then "''"
  else ("'" ++ strings.ReplaceAll s "'"%char quote_escape ++ "'")%string.

Definition BuildGITSSHCommand (keyPath : string) : string :=
  ("ssh -F /dev/null -i " ++ shellQuote keyPath ++ " -o IdentitiesOnly=yes")%string.

Inductive TargetKind : Type := TargetNone | TargetRemote | TargetURL.

Record GitTarget : Type := {
  Kind : TargetKind;
  Command : string;
  RemoteName : string;
  URL : string;
  Notes : string;
  SkipSSHSelection : bool
}.

Definition takesValue (flag : string) : bool :=
  if strings.Contains flag "=" then false
  else
    String.eqb flag "-c" || String.eqb flag "--config" ||
    String.eqb flag "-C" || String.eqb flag "--upload-pack" ||
    String.eqb flag "--receive-pack" || String.eqb flag "-o".

(** The [for i := 0; i < len(args); i++] loop of [positionalArgs], with
    the index [i] and the slice [out] as state.  Every round advances
    [i], so [length args] rounds suffice. *)
Fixpoint positionalArgs_loop (fuel : nat) (args : list string) (i : nat)
         (out : list string) : list string :=
  match fuel with
  | O => out
  | S fuel' =>
      if (i <? List.length args)%nat then
        let a := nth i args "" in
        if String.eqb a "--" then out ++ skipn (i + 1) args
        else if String.eqb a "" then positionalArgs_loop fuel' args (i + 1) out
        else if strings.HasPrefix a "-" then
          if takesValue a && (i + 1 <? List.length args)%nat
          then positionalArgs_loop fuel' args (i + 1 + 1) out
          else positionalArgs_loop fuel' args (i + 1) out
        else positionalArgs_loop fuel' args (i + 1) (out ++ [a])
      else out
  end.

Definition positionalArgs (args : list string) : list string :=
  positionalArgs_loop (List.length args) args 0 [].

Definition target (k : TargetKind) (cmd : string) : GitTarget :=
  {| Kind := k; Command := cmd; RemoteName := ""; URL := ""; Notes := "";
     SkipSSHSelection := false |}.

Definition with_notes (t : GitTarget) (n : string) : GitTarget :=
  {| Kind := Kind t; Command := Command t; RemoteName := RemoteName t;
     URL := URL t; Notes := n; SkipSSHSelection := SkipSSHSelection t |}.

Definition with_url (t : GitTarget) (u : string) : GitTarget :=
  {| Kind := Kind t; Command := Command t; RemoteName := RemoteName t;
     URL := u; Notes := Notes t; SkipSSHSelection := SkipSSHSelection t |}.

Definition with_remote (t : GitTarget) (n : string) : GitTarget :=
  {| Kind := Kind t; Command := Command t; RemoteName := n;
     URL := URL t; Notes := Notes t; SkipSSHSelection := SkipSSHSelection t |}.

(** [push], [fetch], [pull] and [ls-remote] differ in the note only. *)
Definition remote_or_url (cmd note : string) (rest : list string)
  : GitTarget * option error :=
  match positionalArgs rest with
  | [] => (with_notes (target TargetNone cmd) note, None)
  | p0 :: _ =>
      if giturl.IsLikelyRemoteURL p0
      then (with_url (target TargetURL cmd) p0, None)
      else (with_remote (target TargetRemote cmd) p0, None)
  end.

Definition InferGitTarget (args : list string) : GitTarget * option error :=
  match args with
  | [] => (target TargetNone "", None)
  | cmd :: rest =>
      let fallthrough := (target TargetNone cmd, None) in
      if String.eqb cmd "push" || String.eqb cmd "fetch" || String.eqb cmd "pull"
      then remote_or_url cmd "remote not specified explicitly" rest
      else if String.eqb cmd "clone" then
        match positionalArgs rest with
        | [] => (target TargetNone cmd, Some ErrCloneRequiresURL)
        | p0 :: _ => (with_url (target TargetURL cmd) p0, None)
        end
      else if String.eqb cmd "ls-remote"
      then remote_or_url cmd "no repository argument" rest
      else if String.eqb cmd "remote" then
        match rest with
        | sub :: rest' =>
            if String.eqb sub "set-url" then
              match positionalArgs rest' with
              | _ :: p1 :: _ =>
                  if giturl.IsLikelyRemoteURL p1 then
                    ({| Kind := TargetURL;
                        Command := "remote set-url";
                        RemoteName := "";
                        URL := p1;
                        Notes := "local config update; SSH key selection not required";
                        SkipSSHSelection := true |}, None)
                  else fallthrough
              | _ => fallthrough
              end
            else fallthrough
        | [] => fallthrough
        end
      else fallthrough
  end.

End runner.

(** ** Package [resolve] *)

Module resolve.

Record Result : Type := {
  URL : string;
  Parsed : option giturl.ParsedRemote;
  SSHSelectionApplies : bool;
  MatchedRule : option config.Rule;
  KeyPath : string;
  GITSSHCommand : string;
  MatchScore : Z;
  Notes : list string
}.

Definition AddRuleHint (parsed : option giturl.ParsedRemote) : string :=
  match parsed with
  | None =>
      "Add a rule with: mgit rule add --host <host> --owner <owner> --key ~/.ssh/<key>"
  | Some p =>
      ("Add a rule with: mgit rule add --host " ++ giturl.Host p
         ++ " --owner " ++ giturl.Owner p ++ " --key ~/.ssh/<key>")%string
  end.

(** [%q] of a [Transport] constant: the constants need no escaping. *)
Definition quoted (s : string) : string :=
  (String runner.dquote s ++ String runner.dquote "")%string.

Definition note_https : string :=
  "HTTPS remote detected: SSH key selection is not applied".

Definition note_other (t : giturl.Transport) : string :=
  ("transport " ++ quoted (giturl.Transport_string t)
     ++ " is not SSH: SSH key selection is not applied")%string.

Section WithRuntime.
Context {rt : GoRuntime}.

(** [cfg] is a pointer in the source: [None] is [nil]. *)
Definition FromURL (cfg : option config.Config) (rawURL : string)
  : result Result :=
  match giturl.Parse rawURL with
  | Err e => Err e
  | Ok parsed =>
      let res notes :=
        {| URL := rawURL; Parsed := Some parsed;
           SSHSelectionApplies := false; MatchedRule := None;
           KeyPath := ""; GITSSHCommand := ""; MatchScore := 0;
           Notes := notes |} in
      if negb (giturl.IsSSH parsed) then
        if giturl.IsHTTPS parsed then Ok (res [note_https])
        else Ok (res [note_other (giturl.Transport_ parsed)])
      else
        match cfg with
        | None => Err ErrConfigRequired
        | Some cfg =>
            match matcher.Match (config.Rules cfg) (Some parsed) with
            | Err e => Err (ErrWithHint e (AddRuleHint (Some parsed)))
            | Ok m =>
                match config.ExpandPath (config.Key (matcher.Rule m)) with
                | Err e =>
                    Err (ErrExpandKey (config.ID (matcher.Rule m)) e)
                | Ok keyPath =>
                    Ok {| URL := rawURL; Parsed := Some parsed;
                          SSHSelectionApplies := true;
                          MatchedRule := Some (matcher.Rule m);
                          KeyPath := keyPath;
                          GITSSHCommand := runner.BuildGITSSHCommand keyPath;
                          MatchScore := matcher.Score m;
                          Notes := [] |}
                end
            end
        end
  end.

End WithRuntime.

End resolve.

(** ** A reference runtime

    A concrete [GoRuntime] used to run the model on examples.  It agrees
    with the Go library on ASCII text: case mapping and white space are
    those of the ASCII range, [filepath.Match] is the model above,
    [url_Parse] covers the plain shape [scheme://[user@]host[:port]/path]
    (anything else is a parse error), the home directory is [/home/user],
    the working directory is [/work] and no environment variable is
    referenced. *)

Module ref.

Definition is_space (c : ascii) : bool :=
  let b := strings.byte c in
  ((9 <=? b) && (b <=? 13) || (b =? 32))%N.

Fixpoint trim_left (s : string) : string :=
  match s with
  | String c s' => if is_space c then trim_left s' else s
  | EmptyString => EmptyString
  end.

Fixpoint trim_right (s : string) : string :=
  match s with
  | EmptyString => EmptyString
  | String c s' =>
      let t := trim_right s' in
      if String.eqb t "" && is_space c then EmptyString else String c t
  end.

Definition TrimSpace (s : string) : string := trim_right (trim_left s).

Definition lower (c : ascii) : ascii :=
  let b := strings.byte c in
  if ((65 <=? b) && (b <=? 90))%N then ascii_of_N (b + 32) else c.

Fixpoint ToLower (s : string) : string :=
  match s with
  | EmptyString => EmptyString
  | String c s' => String (lower c) (ToLower s')
  end.

Definition EqualFold (s t : string) : bool :=
  String.eqb (ToLower s) (ToLower t).

Definition plain (c : ascii) : bool :=
  let b := strings.byte c in
  ((48 <=? b) && (b <=? 57) || (65 <=? b) && (b <=? 90)
   || (97 <=? b) && (b <=? 122)
   || (b =? 45) || (b =? 46) || (b =? 95) || (b =? 126))%N.

Fixpoint all_plain (s : string) : bool :=
  match s with
  | EmptyString => true
  | String c s' => plain c && all_plain s'
  end.

Fixpoint all_plain_or_slash (s : string) : bool :=
  match s with
  | EmptyString => true
  | String c s' => (plain c || Ascii.eqb c "/") && all_plain_or_slash s'
  end.

Fixpoint all_digits (s : string) : bool :=
  match s with
  | EmptyString => true
  | String c s' =>
      ((48 <=? strings.byte c) && (strings.byte c <=? 57))%N && all_digits s'
  end.

Definition Parse (raw : string) : option url.URL :=
  match giturl.span_not ":"%char raw with
  | (String s0 scheme, String _ (String "/" (String "/" rest))) =>
      let '(authority, upath) := giturl.span_not "/"%char rest in
      let '(user, hostport) :=
        match giturl.span_not "@"%char authority with
        | (u, String _ hp) => (Some u, hp)
        | (hp, EmptyString) => (None, hp)
        end in
      let '(host, port) :=
        match giturl.span_not ":"%char hostport with
        | (h, String _ p) => (h, p)
        | (h, EmptyString) => (h, EmptyString)
        end in
      if all_plain (String s0 scheme)
         && match user with Some u => all_plain u | None => true end
         && all_plain host && all_digits port && all_plain_or_slash upath
      then Some {| url.Scheme := ToLower (String s0 scheme);
                   url.User := user;
                   url.Hostname := host;
                   url.Port := port;
                   url.Path := upath |}
      else None
  | _ => None
  end.

Definition IsAbs (s : string) : bool := strings.HasPrefix s "/".

Definition Join (a b : string) : string := path.Clean (a ++ "/" ++ b)%string.

Definition Abs (s : string) : option string :=
  Some (if IsAbs s then path.Clean s else Join "/work" s).

Definition runtime : GoRuntime := {|
  strings_TrimSpace := TrimSpace;
  strings_ToLower := ToLower;
  strings_EqualFold := EqualFold;
  filepath_Match := filepath.Match;
  url_Parse := Parse;
  os_UserHomeDir := Some "/home/user";
  os_ExpandEnv := fun s => s;
  filepath_IsAbs := IsAbs;
  filepath_Abs := Abs;
  filepath_Join := Join;
  filepath_Clean := path.Clean
|}.

End ref.



(** * The rest of the packages

    The functions around the decision core: the remaining method of
    [giturl.ParsedRemote], the environment helpers of [runner], the rule
    store of [config], the option parser and the git wrapper of [cli], and
    the pure parts of [runner.GitOps]. *)

(** ** Package [giturl]: the ssh target *)

Module remote.

Definition TargetUserHost (p : giturl.ParsedRemote) : string :=
  let user := giturl.User p in
  let user := if String.eqb user "" then "git" else user in
  (user ++ "@" ++ giturl.Host p)%string.

End remote.

(** ** Package [runner]: the environment of the child process

    [mergeEnv] reads [os.Environ()], here the argument [base].  The map
    [extra] is given as the list of its entries in the order in which
    [range] visits them: a Go map has no duplicate key and no fixed
    order, so statements about [mergeEnv] are made for every list without
    duplicate keys. *)

Module shell.

(** The inner loop over [out]: replace the first entry that starts with
    [prefix]; [None] when there is none ([replaced] stays false). *)
Fixpoint replace_first (prefix entry : string) (out : list string)
  : option (list string) :=
  match out with
  | [] => None
  | e :: rest =>
      if strings.HasPrefix e prefix then Some (entry :: rest)
      else option_map (cons e) (replace_first prefix entry rest)
  end.

(** One round of [for k, v := range extra]. *)
Definition mergeEnv_step (out : list string) (kv : string * string)
  : list string :=
  let '(k, v) := kv in
  let prefix := (k ++ "=")%string in
  match replace_first prefix (prefix ++ v)%string out with
  | Some out' => out'
  | None => out ++ [(prefix ++ v)%string]
  end.

Definition mergeEnv (base : list string) (extra : list (string * string))
  : list string :=
  if (List.length extra =? 0)%nat then base
  else fold_left mergeEnv_step extra base.

End shell.

(** ** Package [config]: the rule store

    [newRuleID] draws four random bytes.  The source of randomness is a
    sequence of draws, [None] standing for a failed [rand.Read]; the
    functions that may draw take the index of the next draw and return
    the index they leave. *)

Module rules.

Definition CurrentVersion : Z := 1.

Definition entropy : Type := nat -> option (N * N * N * N).

Definition hextable : string := "0123456789abcdef".

Definition hex_digit (d : N) : ascii :=
  match String.get (N.to_nat d) hextable with
  | Some c => c
  | None => "0"%char
  end.

(** [hex.EncodeToString] of one byte. *)
Definition hex_byte (v : N) : string :=
  String (hex_digit (N.shiftr v 4)) (String (hex_digit (N.land v 15)) "").

Definition newRuleID (draw : option (N * N * N * N)) : string :=
  match draw with
  | None => "rule"
  | Some (b0, b1, b2, b3) =>
      ("r_" ++ hex_byte b0 ++ hex_byte b1 ++ hex_byte b2 ++ hex_byte b3)%string
  end.

Inductive rule_error : Type :=
| ErrKeyRequired                      (* "key path is required" *)
| ErrRuleExists (existingID : string). (* "rule already exists (id=%s); use --force to add duplicate" *)

Record RemoveSelector : Type := {
  selID : string;
  selHost : string;
  selOwner : string;
  selKey : string;
  selIndex : Z
}.

Definition with_rules (c : config.Config) (rs : list config.Rule)
  : config.Config :=
  {| config.Version := config.Version c; config.Rules := rs |}.

Section WithRuntime.
Context {rt : GoRuntime}.

Definition normalizePattern (s : string) : string :=
  let s := strings_TrimSpace s in
  if String.eqb s "" then "*" else s.

(** The body of the loop of [Normalize] for one rule. *)
Definition normalize_rule (src : entropy) (r : config.Rule) (n : nat)
  : config.Rule * nat :=
  let '(id, n') :=
    if String.eqb (config.ID r) "" then (newRuleID (src n), S n)
    else (config.ID r, n) in
  ({| config.ID := id;
      config.Host := normalizePattern (config.Host r);
      config.Owner := normalizePattern (config.Owner r);
      config.Key := strings_TrimSpace (config.Key r);
      config.Priority := config.Priority r |}, n').

Fixpoint normalize_rules (src : entropy) (rs : list config.Rule) (n : nat)
  : list config.Rule * nat :=
  match rs with
  | [] => ([], n)
  | r :: rest =>
      let '(r', n1) := normalize_rule src r n in
      let '(rest', n2) := normalize_rules src rest n1 in
      (r' :: rest', n2)
  end.

Definition Normalize (src : entropy) (c : config.Config) (n : nat)
  : config.Config * nat :=
  let version :=
    if config.Version c =? 0 then CurrentVersion else config.Version c in
  let '(rs, n') := normalize_rules src (config.Rules c) n in
  ({| config.Version := version; config.Rules := rs |}, n').

(** The test of the loop of [AddRule]. *)
Definition same_rule (existing r : config.Rule) : bool :=
  strings_EqualFold (config.Host existing) (config.Host r)
  && strings_EqualFold (config.Owner existing) (config.Owner r)
  && String.eqb (config.Key existing) (config.Key r)
  && (config.Priority existing =? config.Priority r).

(** [AddRule]: the configuration it leaves, the index of the next draw,
    and the error. *)
Definition AddRule (src : entropy) (c : config.Config) (r : config.Rule)
           (force : bool) (n : nat)
  : config.Config * nat * option rule_error :=
  let '(c, n) := Normalize src c n in
  let host := normalizePattern (config.Host r) in
  let owner := normalizePattern (config.Owner r) in
  let key := strings_TrimSpace (config.Key r) in
  if String.eqb key "" then (c, n, Some ErrKeyRequired)
  else
    let '(id, n) :=
      if String.eqb (config.ID r) "" then (newRuleID (src n), S n)
      else (config.ID r, n) in
    let r := {| config.ID := id; config.Host := host; config.Owner := owner;
                config.Key := key; config.Priority := config.Priority r |} in
    match find (fun existing => same_rule existing r) (config.Rules c) with
    | Some existing =>
        if negb force then (c, n, Some (ErrRuleExists (config.ID existing)))
        else (with_rules c (config.Rules c ++ [r]), n, None)
    | None => (with_rules c (config.Rules c ++ [r]), n, None)
    end.

Definition matchesRemoveSelector (r : config.Rule) (sel : RemoveSelector)
  : bool :=
  if String.eqb (selHost sel) "" && String.eqb (selOwner sel) ""
     && String.eqb (selKey sel) "" then false
  else if negb (String.eqb (selHost sel) "")
          && negb (strings_EqualFold (config.Host r) (selHost sel)) then false
  else if negb (String.eqb (selOwner sel) "")
          && negb (strings_EqualFold (config.Owner r) (selOwner sel)) then false
  else if negb (String.eqb (selKey sel) "")
          && negb (String.eqb (config.Key r) (selKey sel)) then false
  else true.

(** The test of the loop of [RemoveRule]. *)
Definition selected (sel : RemoveSelector) (r : config.Rule) : bool :=
  (negb (String.eqb (selID sel) "") && String.eqb (config.ID r) (selID sel))
  || matchesRemoveSelector r sel.

(** The loop of [RemoveRule]: remove the first selected rule. *)
Fixpoint remove_first (sel : RemoveSelector) (rs : list config.Rule)
  : option (config.Rule * list config.Rule) :=
  match rs with
  | [] => None
  | r :: rest =>
      if selected sel r then Some (r, rest)
      else match remove_first sel rest with
           | Some (x, rest') => Some (x, r :: rest')
           | None => None
           end
  end.

(** [RemoveRule]: the configuration it leaves, the index of the next
    draw, and the removed rule ([None] for the result [false]). *)
Definition RemoveRule (src : entropy) (c : config.Config)
           (sel : RemoveSelector) (n : nat)
  : config.Config * nat * option config.Rule :=
  let '(c, n) := Normalize src c n in
  let rs := config.Rules c in
  if (0 <? selIndex sel) && (selIndex sel <=? Z.of_nat (List.length rs)) then
    let i := Z.to_nat (selIndex sel - 1) in
    match nth_error rs i with
    | Some r => (with_rules c (firstn i rs ++ skipn (S i) rs), n, Some r)
    | None => (c, n, None)
    end
  else
    match remove_first sel rs with
    | Some (r, rs') => (with_rules c rs', n, Some r)
    | None => (c, n, None)
    end.

End WithRuntime.

End rules.

(** ** Package [runner]: the git queries

    [GitOps] asks git through [Shell.Output].  The repository is taken
    not to change while the program runs: the standard output of a git
    command is a function of its arguments, [None] when the command
    could not be run or failed. *)

Module gitops.

Inductive git_error : Type :=
| ErrCommandFailed (args : list string)          (* "git %s failed: %w" *)
| ErrEmptyRemoteName                             (* "empty remote name" *)
| ErrGetURL (name : string) (inner : git_error)  (* "get URL for remote %q: %w" *)
| ErrParseUpstream (out : string)                (* "could not parse upstream ref %q" *)
| ErrNoDefaultRemote.                            (* "cannot determine default remote automatically" *)

Inductive answer (A : Type) : Type :=
| Got (a : A)
| Failed (e : git_error).
Arguments Got {A} a.
Arguments Failed {A} e.

Definition Git : Type := list string -> option string.

Definition newline : ascii := "010"%char.

(** [strings.SplitN(s, sep, 2)[0]]: [s] up to its first [sep]. *)
Fixpoint before (sep : ascii) (s : string) : string :=
  match s with
  | EmptyString => EmptyString
  | String c s' => if Ascii.eqb c sep then EmptyString
                   else String c (before sep s')
  end.

(** A Go map from remote names to URLs, by its entries. *)
Fixpoint set (k v : string) (m : list (string * string))
  : list (string * string) :=
  match m with
  | [] => [(k, v)]
  | (k', v') :: m' =>
      if String.eqb k' k then (k, v) :: m' else (k', v') :: set k v m'
  end.

Fixpoint has (k : string) (m : list (string * string)) : bool :=
  match m with
  | [] => false
  | (k', _) :: m' => String.eqb k' k || has k m'
  end.

Section WithRuntime.
Context {rt : GoRuntime}.
Variable git : Git.

(** [Shell.Output] trims the standard output. *)
Definition GitOutput (args : list string) : answer string :=
  match git args with
  | None => Failed (ErrCommandFailed args)
  | Some out => Got (strings_TrimSpace out)
  end.

Definition RemoteURL (name : string) : answer string :=
  if String.eqb (strings_TrimSpace name) "" then Failed ErrEmptyRemoteName
  else GitOutput ["remote"; "get-url"; name].

(** The loop of [Remotes] over the lines of [git remote]. *)
Fixpoint Remotes_loop (lines : list string) (result : list (string * string))
  : answer (list (string * string)) :=
  match lines with
  | [] => Got result
  | line :: rest =>
      let name := strings_TrimSpace line in
      if String.eqb name "" then Remotes_loop rest result
      else match RemoteURL name with
           | Failed e => Failed (ErrGetURL name e)
           | Got u => Remotes_loop rest (set name u result)
           end
  end.

Definition Remotes : answer (list (string * string)) :=
  match GitOutput ["remote"] with
  | Failed e => Failed e
  | Got listing => Remotes_loop (strings.Split listing newline) []
  end.

Definition CurrentUpstreamRemote : answer string :=
  match GitOutput ["rev-parse"; "--abbrev-ref"; "--symbolic-full-name";
                   "@{upstream}"] with
  | Failed e => Failed e
  | Got out =>
      let part0 := before "/"%char (strings_TrimSpace out) in
      if String.eqb part0 "" then Failed (ErrParseUpstream out)
      else Got part0
  end.

Definition GuessDefaultRemote : answer string :=
  let from_remotes :=
    match Remotes with
    | Failed e => Failed e
    | Got remotes =>
        match remotes with
        | [(name, _)] => Got name
        | _ => if has "origin" remotes then Got "origin"
               else Failed ErrNoDefaultRemote
        end
    end in
  match CurrentUpstreamRemote with
  | Got remote => if negb (String.eqb remote "") then Got remote
                  else from_remotes
  | Failed _ => from_remotes
  end.

End WithRuntime.

End gitops.

(** ** Package [cli]: global options and the git wrapper *)

Module cli.

Record globalOptions : Type := {
  ConfigPath : string;
  JSON : bool;
  Verbose : bool;
  DryRun : bool
}.

Definition no_options : globalOptions :=
  {| ConfigPath := ""; JSON := false; Verbose := false; DryRun := false |}.

Definition set_JSON (o : globalOptions) : globalOptions :=
  {| ConfigPath := ConfigPath o; JSON := true; Verbose := Verbose o;
     DryRun := DryRun o |}.

Definition set_Verbose (o : globalOptions) : globalOptions :=
  {| ConfigPath := ConfigPath o; JSON := JSON o; Verbose := true;
     DryRun := DryRun o |}.

Definition set_DryRun (o : globalOptions) (b : bool) : globalOptions :=
  {| ConfigPath := ConfigPath o; JSON := JSON o; Verbose := Verbose o;
     DryRun := b |}.

Definition set_ConfigPath (o : globalOptions) (p : string) : globalOptions :=
  {| ConfigPath := p; JSON := JSON o; Verbose := Verbose o;
     DryRun := DryRun o |}.

(** The loop of [parseGlobalOptions] on the arguments from index [i] on;
    [None] is the error "--config requires a value", returned with a nil
    rest. *)
Fixpoint parseGlobalOptions_loop (opts : globalOptions) (args : list string)
  : globalOptions * option (list string) :=
  match args with
  | [] => (opts, Some [])
  | a :: tl =>
      if String.eqb a "--" then (opts, Some tl)
      else if negb (strings.HasPrefix a "-") then (opts, Some (a :: tl))
      else if String.eqb a "--json"
      then parseGlobalOptions_loop (set_JSON opts) tl
      else if String.eqb a "--verbose"
      then parseGlobalOptions_loop (set_Verbose opts) tl
      else if String.eqb a "--dry-run"
      then parseGlobalOptions_loop (set_DryRun opts true) tl
      else if String.eqb a "--config" then
        match tl with
        | [] => (opts, None)
        | v :: tl' => parseGlobalOptions_loop (set_ConfigPath opts v) tl'
        end
      else if strings.HasPrefix a "--config="
      then parseGlobalOptions_loop
             (set_ConfigPath opts (strings.TrimPrefix a "--config=")) tl
      else (opts, Some (a :: tl))
  end.

Definition parseGlobalOptions (args : list string)
  : globalOptions * option (list string) :=
  parseGlobalOptions_loop no_options args.

(** What [handleExec] reads and runs: the environment of the process,
    the git queries, [loadConfig] by the [--config] path ([None] for an
    error), and the result of running git with given arguments and
    environment ([true] for success). *)
Record World : Type := {
  environ : list string;
  git_stdout : gitops.Git;
  load_config : string -> option config.Config;
  git_runs : list string -> list string -> bool
}.

Inductive exec_error : Type :=
| ErrMissingArgs                 (* "missing git arguments; use e.g. `mgit push origin main`" *)
| ErrInfer (e : error)
| ErrRemoteURL (name : string) (e : gitops.git_error)
                                 (* "failed to get URL for remote %q: %w" *)
| ErrConfig                      (* the error of [loadConfig] *)
| ErrResolve (e : error).

(** The payload of a dry run. *)
Record Payload : Type := {
  gitArgs : list string;
  target : runner.GitTarget;
  remoteURL : string;
  env : list (string * string);
  notes : list string;
  resolution : option resolve.Result
}.

(** What [handleExec] has done: printed an error and returned [code],
    printed the payload of a dry run, or run git with the arguments
    [args], the extra environment [extra] and the process environment
    [process_env]. *)
Inductive Outcome : Type :=
| Refused (code : Z) (e : exec_error)
| Described (p : Payload)
| Ran (args : list string) (extra : list (string * string))
      (process_env : list string) (ok : bool).

Definition exit_code (o : Outcome) : Z :=
  match o with
  | Refused code _ => code
  | Described _ => 0
  | Ran _ _ _ ok => if ok then 0 else 1
  end.

Definition note_inferred (guessed : string) : string :=
  ("remote inferred automatically: " ++ guessed)%string.

Definition note_https_without_config : string :=
  "config not loaded, but remote uses HTTPS so SSH rule selection is skipped".

Definition guesses (cmd : string) : bool :=
  String.eqb cmd "push" || String.eqb cmd "fetch" || String.eqb cmd "pull".

Section WithRuntime.
Context {rt : GoRuntime}.

(** The last part of [handleExec], once the extra environment is
    known. *)
Definition finish (w : World) (opts : globalOptions) (args : list string)
           (t : runner.GitTarget) (rawURL : string)
           (extraEnv : list (string * string)) (ns : list string)
           (res : option resolve.Result) : Outcome :=
  if DryRun opts then
    Described {| gitArgs := args; target := t; remoteURL := rawURL;
                 env := extraEnv; notes := ns; resolution := res |}
  else
    let process_env := shell.mergeEnv (environ w) extraEnv in
    Ran args extraEnv process_env (git_runs w args process_env).

(** The middle part: the resolution of [rawURL]. *)
Definition resolve_and_finish (w : World) (opts : globalOptions)
           (args : list string) (t : runner.GitTarget) (rawURL : string)
           (ns : list string) : Outcome :=
  if negb (String.eqb rawURL "") && negb (runner.SkipSSHSelection t) then
    let cfg := load_config w (ConfigPath opts) in
    let after_load :=
      match cfg with
      | Some _ => Some ns
      | None =>
          if strings.Contains rawURL "://"
             && strings.HasPrefix (strings_ToLower rawURL) "https://"
          then Some (ns ++ [note_https_without_config])
          else None
      end in
    match after_load with
    | None => Refused 1 ErrConfig
    | Some ns =>
        match resolve.FromURL cfg rawURL with
        | Err e => Refused 1 (ErrResolve e)
        | Ok res =>
            let extraEnv :=
              if resolve.SSHSelectionApplies res
              then [("GIT_SSH_COMMAND", resolve.GITSSHCommand res)]
              else [] in
            finish w opts args t rawURL extraEnv (ns ++ resolve.Notes res)
                   (Some res)
        end
    end
  else finish w opts args t rawURL [] ns None.

Definition handleExec (w : World) (opts : globalOptions)
           (args : list string) : Outcome :=
  if (List.length args =? 0)%nat then Refused 2 ErrMissingArgs
  else
    match runner.InferGitTarget args with
    | (_, Some e) => Refused 2 (ErrInfer e)
    | (t, None) =>
        let ns := if negb (String.eqb (runner.Notes t) "")
                  then [runner.Notes t] else [] in
        let '(t, rawURL, remoteName, ns) :=
          match runner.Kind t with
          | runner.TargetURL => (t, runner.URL t, "", ns)
          | runner.TargetRemote => (t, "", runner.RemoteName t, ns)
          | runner.TargetNone =>
              if guesses (runner.Command t) then
                match gitops.GuessDefaultRemote (git_stdout w) with
                | gitops.Got guessed =>
                    ({| runner.Kind := runner.TargetRemote;
                        runner.Command := runner.Command t;
                        runner.RemoteName := guessed;
                        runner.URL := runner.URL t;
                        runner.Notes := runner.Notes t;
                        runner.SkipSSHSelection :=
                          runner.SkipSSHSelection t |},
                     "", guessed, ns ++ [note_inferred guessed])
                | gitops.Failed _ => (t, "", "", ns)
                end
              else (t, "", "", ns)
          end in
        if negb (String.eqb remoteName "") then
          match gitops.RemoteURL (git_stdout w) remoteName with
          | gitops.Failed e => Refused 1 (ErrRemoteURL remoteName e)
          | gitops.Got u => resolve_and_finish w opts args t u ns
          end
        else resolve_and_finish w opts args t rawURL ns
    end.

End WithRuntime.

End cli.

(** * Statements of the design document

    Definitions that follow the words of the design document, to be
    compared with the model of the code above, and the inputs of the
    examples. *)

Module spec.

(** The flags that take the following token as their value. *)
Definition value_flags : list string :=
  ["-c"; "--config"; "-C"; "--upload-pack"; "--receive-pack"; "-o"].

Definition is_value_flag (a : string) : bool :=
  existsb (String.eqb a) value_flags.

(** The positional-argument scan as the document words it: after [--]
    everything is positional; an empty token is skipped; a token that
    starts with [-] is a flag and is skipped, together with the next
    token when it is a value flag without [=]; any other token is
    positional. *)
Fixpoint positional_scan (args : list string) : list string :=
  match args with
  | [] => []
  | a :: rest =>
    if String.eqb a "--" then rest
    else if String.eqb a "" then positional_scan rest
    else if strings.HasPrefix a "-" then
      if is_value_flag a && negb (strings.Contains a "=") then
        match rest with
        | [] => []
        | _ :: rest' => positional_scan rest'
        end
      else positional_scan rest
    else a :: positional_scan rest
  end.

(** The subcommands whose missing remote is reported by a note. *)
Definition noted_commands : list string :=
  ["push"; "fetch"; "pull"; "ls-remote"].

(** *** How a shell reads the override string

    [GIT_SSH_COMMAND] is run by a POSIX shell.  [sh_fields] splits a
    command line into its fields for the part of the shell syntax the
    override string needs: fields are separated by spaces; inside single
    quotes every character is literal; inside double quotes every
    character but [$], a backquote and a backslash is literal; outside
    quotes only letters, digits and [/ - = . _] are accepted.  Any other
    input (expansions, operators, escapes, an open quote) is outside
    this fragment and gives [None]. *)

Inductive sh_mode : Type := ShPlain | ShSingle | ShDouble.

Definition sh_word_char (c : ascii) : bool :=
  let b := strings.byte c in
  ((48 <=? b) && (b <=? 57) || (65 <=? b) && (b <=? 90)
   || (97 <=? b) && (b <=? 122)
   || (b =? 47) || (b =? 45) || (b =? 61) || (b =? 46) || (b =? 95))%N.

Definition sh_special_in_double (c : ascii) : bool :=
  let b := strings.byte c in
  ((b =? 36) || (b =? 96) || (b =? 92))%N.  (* $ ` \ *)

(** The word in progress: [None] when no word has been started. *)
Definition sh_open (cur : option string) : option string :=
  match cur with
  | Some w => Some w
  | None => Some ""
  end.

Definition sh_push (cur : option string) (c : ascii) : option string :=
  match cur with
  | Some w => Some (w ++ String c "")%string
  | None => Some (String c "")
  end.

Definition sh_close (cur : option string) (fields : list string) : list string :=
  match cur with
  | Some w => w :: fields
  | None => fields
  end.

Fixpoint sh_lex (mode : sh_mode) (cur : option string) (s : string)
  : option (list string) :=
  match s with
  | EmptyString =>
    match mode with
    | ShPlain => Some (sh_close cur [])
    | _ => None
    end
  | String c s' =>
    match mode with
    | ShPlain =>
        if Ascii.eqb c " " then option_map (sh_close cur) (sh_lex ShPlain None s')
        else if Ascii.eqb c "'" then sh_lex ShSingle (sh_open cur) s'
        else if Ascii.eqb c runner.dquote then sh_lex ShDouble (sh_open cur) s'
        else if sh_word_char c then sh_lex ShPlain (sh_push cur c) s'
        else None
    | ShSingle =>
        if Ascii.eqb c "'" then sh_lex ShPlain cur s'
        else sh_lex ShSingle (sh_push cur c) s'
    | ShDouble =>
        if Ascii.eqb c runner.dquote then sh_lex ShPlain cur s'
        else if sh_special_in_double c then None
        else sh_lex ShDouble (sh_push cur c) s'
    end
  end.

Definition sh_fields (s : string) : option (list string) :=
  sh_lex ShPlain None s.

(** *** Patterns

    A pattern without [*], [?], [[] and backslash: it stands for itself. *)
Fixpoint literal_pattern (p : string) : bool :=
  match p with
  | EmptyString => true
  | String c p' => negb (strings.IndexByte "*?[\" c) && literal_pattern p'
  end.

(** *** Matching

    The patterns and values the matcher compares. *)
Definition host_pattern {rt : GoRuntime} (r : config.Rule) : string :=
  matcher.normalizePattern (strings_ToLower (config.Host r)).

Definition owner_pattern {rt : GoRuntime} (r : config.Rule) : string :=
  matcher.normalizePattern (strings_ToLower (config.Owner r)).

Definition host_value {rt : GoRuntime} (remote : giturl.ParsedRemote) : string :=
  strings_ToLower (giturl.Host remote).

Definition owner_value {rt : GoRuntime} (remote : giturl.ParsedRemote) : string :=
  strings_ToLower (giturl.Owner remote).

(** A rule is a candidate when both patterns glob-match. *)
Definition candidate {rt : GoRuntime} (r : config.Rule)
           (remote : giturl.ParsedRemote) : bool :=
  matcher.glob_ok (host_pattern r) (host_value remote)
  && matcher.glob_ok (owner_pattern r) (owner_value remote).

(** *** Matching, stated without the matcher

    The definitions below say what a candidate and its score are in
    terms of the Go library alone ([strings.ToLower], [strings.TrimSpace],
    [strings.EqualFold], [filepath.Match], the characters of a string);
    none of them mentions a function of the matcher. *)

(** The pattern a field of a rule stands for: the field lower-cased,
    then trimmed of white space, and [*] when nothing is left. *)
Definition pattern_of {rt : GoRuntime} (field : string) : string :=
  match strings_TrimSpace (strings_ToLower field) with
  | EmptyString => "*"
  | String c p => String c p
  end.

(** [pattern] glob-matches [value]: [filepath.Match] reports a match and
    no error. *)
Definition glob_matches {rt : GoRuntime} (pattern value : string) : bool :=
  match filepath_Match pattern value with
  | (true, None) => true
  | _ => false
  end.

(** A rule is a candidate for a remote when the patterns of its host and
    of its owner glob-match the lower-cased host and ownership path. *)
Definition is_candidate {rt : GoRuntime} (r : config.Rule)
           (remote : giturl.ParsedRemote) : bool :=
  glob_matches (pattern_of (config.Host r))
               (strings_ToLower (giturl.Host remote))
  && glob_matches (pattern_of (config.Owner r))
                  (strings_ToLower (giturl.Owner remote)).

(** A wildcard-free pattern: none of [*], [?], [[] occurs in it. *)
Definition wildcard_free (pattern : string) : bool :=
  forallb (fun c => negb (existsb (Ascii.eqb c) ["*"; "?"; "["]%char))
          (list_ascii_of_string pattern).

(** Specificity: 0 for the pattern [*], 400 for a wildcard-free pattern
    equal to the value up to case, 300 for any other wildcard-free
    pattern, 100 otherwise. *)
Definition specificity {rt : GoRuntime} (pattern value : string) : Z :=
  if String.eqb pattern "*" then 0
  else if wildcard_free pattern
       then (if strings_EqualFold pattern value then 400 else 300)
       else 100.

(** The number of characters of the pattern other than [*], [?], [[]
    and []] (code points 42, 63, 91 and 93). *)
Definition literal_characters (pattern : string) : Z :=
  Z.of_nat
    (List.length
       (filter (fun r => negb (existsb (N.eqb r) [42; 63; 91; 93]%N))
               (utf8.runes pattern))).

(** The score of a rule for a remote, as a sum of integers. *)
Definition sum_score {rt : GoRuntime} (r : config.Rule)
           (remote : giturl.ParsedRemote) : Z :=
  config.Priority r * 1000
  + specificity (pattern_of (config.Host r))
                (strings_ToLower (giturl.Host remote))
  + specificity (pattern_of (config.Owner r))
                (strings_ToLower (giturl.Owner remote))
  + literal_characters (pattern_of (config.Host r))
  + literal_characters (pattern_of (config.Owner r)).

(** That sum reduced to an [int]. *)
Definition int_score {rt : GoRuntime} (r : config.Rule)
           (remote : giturl.ParsedRemote) : Z :=
  wrap_int (sum_score r remote).

(** The pattern as claim C1 words it: lower-cased, an empty pattern
    becoming [*]. *)
Definition pattern_claimed {rt : GoRuntime} (pattern : string) : string :=
  let l := strings_ToLower pattern in
  if String.eqb l "" then "*" else l.

Definition candidate_claimed {rt : GoRuntime} (r : config.Rule)
           (remote : giturl.ParsedRemote) : bool :=
  glob_matches (pattern_claimed (config.Host r))
               (strings_ToLower (giturl.Host remote))
  && glob_matches (pattern_claimed (config.Owner r))
                  (strings_ToLower (giturl.Owner remote)).

(** The score as claim C1 words it, as a sum of integers. *)
Definition score_claimed {rt : GoRuntime} (r : config.Rule)
           (remote : giturl.ParsedRemote) : Z :=
  config.Priority r * 1000
  + specificity (pattern_claimed (config.Host r))
                (strings_ToLower (giturl.Host remote))
  + specificity (pattern_claimed (config.Owner r))
                (strings_ToLower (giturl.Owner remote))
  + literal_characters (pattern_claimed (config.Host r))
  + literal_characters (pattern_claimed (config.Owner r)).

(** The number of characters of the pattern other than [* ? [ ]]. *)
Definition literal_count (pattern : string) : Z :=
  Z.of_nat (List.length (filter (fun r => negb (matcher.is_meta r))
                                (utf8.runes pattern))).

(** The score as a mathematical integer. *)
Definition score_exact {rt : GoRuntime} (r : config.Rule)
           (remote : giturl.ParsedRemote) : Z :=
  config.Priority r * 1000
  + matcher.specificityScore (host_pattern r) (host_value remote)
  + matcher.specificityScore (owner_pattern r) (owner_value remote)
  + literal_count (host_pattern r)
  + literal_count (owner_pattern r).

(** The score as the [int] the code computes. *)
Definition score {rt : GoRuntime} (r : config.Rule)
           (remote : giturl.ParsedRemote) : Z :=
  wrap_int (score_exact r remote).

(** The state of the matcher's loop after the rules [rules], entered at
    index [i] with the choice [best]: no choice only if none came in and
    no rule is a candidate; otherwise the choice [m] bounds the incoming
    one and every candidate passed, and it is either the incoming choice,
    or a candidate of [rules] that beats the incoming choice and every
    candidate before it. *)
Definition loop_result {rt : GoRuntime} (remote : giturl.ParsedRemote)
           (i : nat) (rules : list config.Rule)
           (best res : option matcher.MatchResult) : Prop :=
  match res with
  | None => best = None /\ forall r, In r rules -> candidate r remote = false
  | Some m =>
      (forall j r, nth_error rules j = Some r -> candidate r remote = true ->
                   score r remote <= matcher.Score m)
      /\ (forall b, best = Some b -> matcher.Score b <= matcher.Score m)
      /\ (best = Some m
          \/ exists j,
              matcher.Index m = (i + j)%nat
              /\ nth_error rules j = Some (matcher.Rule m)
              /\ candidate (matcher.Rule m) remote = true
              /\ matcher.Score m = score (matcher.Rule m) remote
              /\ (forall b, best = Some b -> matcher.Score b < matcher.Score m)
              /\ (forall j' r, (j' < j)%nat -> nth_error rules j' = Some r ->
                               candidate r remote = true ->
                               score r remote < matcher.Score m))
  end.

(** *** Path splitting

    The path handed to the splitting, after the trimming of white space,
    of a leading slash, of a leading [./] and of a trailing slash. *)
Definition trim_path {rt : GoRuntime} (rawPath : string) : string :=
  strings.TrimSuffix
  (strings.TrimPrefix
     (strings.TrimPrefix (strings_TrimSpace rawPath) "/") "./") "/".

(** The non-empty pieces between slashes. *)
Definition segments (p : string) : list string :=
  filter giturl.nonempty (strings.Split p "/"%char).

(** Path splitting as claim C5 words it: the ownership path is the
    preceding segments joined with slashes. *)
Definition split_claimed (p : string) : option (string * string) :=
  let segs := segments p in
  if (List.length segs <? 2)%nat then None
  else
  let repo := strings.TrimSuffix (last segs "") ".git" in
  if String.eqb repo "" then None
  else
    let owner := strings.Join (removelast segs) "/" in
    if String.eqb owner "" then None else Some (owner, repo).

(** Path splitting with the ownership path normalised: among the
    preceding segments a [.] is dropped and a [..] cancels the segment
    kept before it (and is kept itself when there is none); the splitting
    fails when no segment remains. *)
Definition split_normalised (p : string) : option (string * string) :=
  let segs := segments p in
  if (List.length segs <? 2)%nat then None
  else
  let repo := strings.TrimSuffix (last segs "") ".git" in
  if String.eqb repo "" then None
  else
    match path.clean_elems false (removelast segs) [] with
    | [] => None
    | kept => Some (strings.Join kept "/", repo)
    end.

(** A segment that cleaning keeps. *)
Definition clean_segment (e : string) : Prop :=
  e <> "" /\ e <> ".".

Definition dot_segment (s : string) : bool :=
  String.eqb s "." || String.eqb s "..".

(** What [splitRepoPath] returns, without the kind of the error and
    without the cleaned path. *)
Definition outcome (r : result (string * string * string))
  : option (string * string) :=
  match r with
  | Ok (owner, repo, _) => Some (owner, repo)
  | Err _ => None
  end.

(** "Naming the transport": the note contains the transport's name,
    letter case apart. *)
Definition names_transport (note : string) (t : giturl.Transport) : bool :=
  strings.Contains (ref.ToLower note) (giturl.Transport_string t).

End spec.

(** ** Inputs of the examples *)

Module examples.

Definition shorthand_url : string := "git@github.com:CompanyOrg/project.git".

Definition shorthand_remote : giturl.ParsedRemote :=
  {| giturl.Original := shorthand_url;
   giturl.Transport_ := giturl.TransportSSH;
   giturl.Scheme := "ssh";
   giturl.User := "git";
   giturl.Host := "github.com";
   giturl.Port := "";
   giturl.Owner := "CompanyOrg";
   giturl.Repo := "project";
   giturl.RawPath := "CompanyOrg/project.git";
   giturl.IsRemoteURL := true |}.

Definition https_url : string := "https://github.com/CompanyOrg/project.git".

Definition https_remote : giturl.ParsedRemote :=
  {| giturl.Original := https_url;
   giturl.Transport_ := giturl.TransportHTTPS;
   giturl.Scheme := "https";
   giturl.User := "";
   giturl.Host := "github.com";
   giturl.Port := "";
   giturl.Owner := "CompanyOrg";
   giturl.Repo := "project";
   giturl.RawPath := "CompanyOrg/project.git";
   giturl.IsRemoteURL := true |}.

Definition nested_url : string := "ssh://git@gitlab.com/Group/subgroup/repo.git".

(** A shorthand whose path has a [.] segment. *)
Definition dot_path_url : string := "git@example.org:team/./repo.git".

(** A shorthand whose path has a [..] segment. *)
Definition dotdot_path_url : string := "git@example.org:team/../repo.git".

(** A shorthand whose host part contains a slash. *)
Definition slash_host_url : string := "github.com/foo:bar/baz".

(** A rule whose host pattern is one space. *)
Definition blank_rule : config.Rule :=
  {| config.ID := "blank"; config.Host := " "; config.Owner := "*";
     config.Key := "/k/blank"; config.Priority := 0 |}.

Definition fallback_rule : config.Rule :=
  {| config.ID := "default"; config.Host := "*"; config.Owner := "*";
     config.Key := "/k/default"; config.Priority := 0 |}.

(** The fallback with the largest priority an [int] holds. *)
Definition huge_rule : config.Rule :=
  {| config.ID := "huge"; config.Host := "*"; config.Owner := "*";
     config.Key := "/k/huge"; config.Priority := int_max |}.

(** The fallback with priority 1. *)
Definition forced_rule : config.Rule :=
  {| config.ID := "forced"; config.Host := "*"; config.Owner := "*";
     config.Key := "/k/forced"; config.Priority := 1 |}.

(** A host of 121 letters and an owner of 80 letters. *)
Definition long_host : string := string_of_list_ascii (repeat "h"%char 121).

Definition long_owner : string := string_of_list_ascii (repeat "o"%char 80).

Definition long_url : string :=
  ("git@" ++ long_host ++ ":" ++ long_owner ++ "/repo.git")%string.

Definition long_remote : giturl.ParsedRemote :=
  {| giturl.Original := long_url;
     giturl.Transport_ := giturl.TransportSSH;
     giturl.Scheme := "ssh";
     giturl.User := "git";
     giturl.Host := long_host;
     giturl.Port := "";
     giturl.Owner := long_owner;
     giturl.Repo := "repo";
     giturl.RawPath := (long_owner ++ "/repo.git")%string;
     giturl.IsRemoteURL := true |}.

(** The literal rule for that remote, with priority 0. *)
Definition long_rule : config.Rule :=
  {| config.ID := "long"; config.Host := long_host; config.Owner := long_owner;
     config.Key := "/k/long"; config.Priority := 0 |}.

Definition wild_rule : config.Rule :=
  {| config.ID := "wild"; config.Host := "github.com"; config.Owner := "*";
   config.Key := "/k/default"; config.Priority := 0 |}.

Definition work_rule : config.Rule :=
  {| config.ID := "spec"; config.Host := "github.com";
   config.Owner := "CompanyOrg"; config.Key := "~/.ssh/it's";
   config.Priority := 0 |}.

Definition cfg : config.Config :=
  {| config.Version := 1; config.Rules := [wild_rule; work_rule] |}.

Definition resolved : resolve.Result :=
  {| resolve.URL := shorthand_url;
   resolve.Parsed := Some shorthand_remote;
   resolve.SSHSelectionApplies := true;
   resolve.MatchedRule := Some work_rule;
   resolve.KeyPath := "/home/user/.ssh/it's";
   resolve.GITSSHCommand :=
     runner.BuildGITSSHCommand "/home/user/.ssh/it's";
   resolve.MatchScore := 820;
   resolve.Notes := [] |}.

End examples.


(** * Further statements *)

Module laws.

(** Facts about the Go library that the interface does not fix. *)
Definition TrimSpace_idempotent (rt : GoRuntime) : Prop :=
  forall s, strings_TrimSpace (strings_TrimSpace s) = strings_TrimSpace s.

Definition EqualFold_reflexive (rt : GoRuntime) : Prop :=
  forall s, strings_EqualFold s s = true.

Definition TrimSpace_keeps_star (rt : GoRuntime) : Prop :=
  strings_TrimSpace "*" = "*".

(** [filepath.Match]: a [*] matches any sequence of non-separator
    characters. *)
Definition star_stops_at_slash (rt : GoRuntime) : Prop :=
  forall name,
    filepath_Match "*" name = (negb (strings.IndexByte name "/"%char), None).

(** Lower-casing maps no character to or from the slash. *)
Definition ToLower_keeps_slash (rt : GoRuntime) : Prop :=
  forall s,
    strings.IndexByte (strings_ToLower s) "/"%char
    = strings.IndexByte s "/"%char.

(** [filepath.Match]: a pattern without special characters matches
    itself. *)
Definition literal_matches_itself (rt : GoRuntime) : Prop :=
  forall p, spec.literal_pattern p = true -> filepath_Match p p = (true, None).

End laws.

Module env.

(** The entries of an environment that set the variable [name]. *)
Definition entries_of (name : string) (environ : list string) : list string :=
  filter (fun e => strings.HasPrefix e (name ++ "=")) environ.

(** A variable name: not empty, no [=]. *)
Definition is_name (name : string) : bool :=
  negb (String.eqb name "") && negb (strings.IndexByte name "="%char).

Definition names_ok (extra : list (string * string)) : Prop :=
  NoDup (map fst extra) /\ forall k, In k (map fst extra) -> is_name k = true.

End env.

Module store.

(** [r'] is the normal form of the rule [r]: patterns and key trimmed, an
    empty pattern replaced by [*], the priority kept, and the identifier
    kept unless it was empty, in which case it has been generated. *)
Definition normalised_from {rt : GoRuntime} (r r' : config.Rule) : Prop :=
  config.Host r' = rules.normalizePattern (config.Host r)
  /\ config.Owner r' = rules.normalizePattern (config.Owner r)
  /\ config.Key r' = strings_TrimSpace (config.Key r)
  /\ config.Priority r' = config.Priority r
  /\ config.ID r' <> ""
  /\ (config.ID r <> "" -> config.ID r' = config.ID r).

(** A rule that [Normalize] leaves as it is. *)
Definition is_normal {rt : GoRuntime} (r : config.Rule) : Prop :=
  rules.normalizePattern (config.Host r) = config.Host r
  /\ rules.normalizePattern (config.Owner r) = config.Owner r
  /\ strings_TrimSpace (config.Key r) = config.Key r
  /\ config.ID r <> "".

(** [e] is a duplicate of the rule [r] to add: the same host and owner
    patterns up to case, the same key and the same priority, all of [r]
    taken in normal form.  The identifiers play no part. *)
Definition duplicates {rt : GoRuntime} (e r : config.Rule) : bool :=
  strings_EqualFold (config.Host e) (rules.normalizePattern (config.Host r))
  && strings_EqualFold (config.Owner e)
                       (rules.normalizePattern (config.Owner r))
  && String.eqb (config.Key e) (strings_TrimSpace (config.Key r))
  && (config.Priority e =? config.Priority r).

(** What [AddRule] has done, read off its error. *)
Definition added {rt : GoRuntime} (c0 : config.Config) (r : config.Rule)
           (force : bool) (c' : config.Config)
           (err : option rules.rule_error) : Prop :=
  match err with
  | Some rules.ErrKeyRequired =>
      strings_TrimSpace (config.Key r) = "" /\ c' = c0
  | Some (rules.ErrRuleExists id) =>
      strings_TrimSpace (config.Key r) <> "" /\ force = false /\ c' = c0
      /\ exists pre e post,
          config.Rules c0 = pre ++ e :: post
          /\ config.ID e = id /\ duplicates e r = true
          /\ Forall (fun x => duplicates x r = false) pre
  | None =>
      strings_TrimSpace (config.Key r) <> ""
      /\ (force = false ->
          Forall (fun x => duplicates x r = false) (config.Rules c0))
      /\ exists r',
          normalised_from r r'
          /\ config.Version c' = config.Version c0
          /\ config.Rules c' = config.Rules c0 ++ [r']
  end.

(** What [RemoveRule] has done, read off its result. *)
Definition removed {rt : GoRuntime} (c0 : config.Config)
           (sel : rules.RemoveSelector) (c' : config.Config)
           (res : option config.Rule) : Prop :=
  let rs := config.Rules c0 in
  let by_position :=
    0 < rules.selIndex sel <= Z.of_nat (List.length rs) in
  match res with
  | Some r =>
      config.Version c' = config.Version c0
      /\ exists pre post,
          rs = pre ++ r :: post
          /\ config.Rules c' = pre ++ post
          /\ (by_position ->
              Z.of_nat (List.length pre) = rules.selIndex sel - 1)
          /\ (~ by_position ->
              rules.selected sel r = true
              /\ Forall (fun x => rules.selected sel x = false) pre)
  | None =>
      c' = c0 /\ ~ by_position
      /\ Forall (fun x => rules.selected sel x = false) rs
  end.

(** The selector that names nothing. *)
Definition empty_selector (sel : rules.RemoveSelector) : Prop :=
  rules.selID sel = "" /\ rules.selHost sel = ""
  /\ rules.selOwner sel = "" /\ rules.selKey sel = ""
  /\ rules.selIndex sel <= 0.

(** The selector of the rule at position [i], counted from 1. *)
Definition by_index (i : nat) : rules.RemoveSelector :=
  {| rules.selID := ""; rules.selHost := ""; rules.selOwner := "";
     rules.selKey := ""; rules.selIndex := Z.of_nat i |}.

(** The selector of the rule with the identifier [id]. *)
Definition by_id (id : string) : rules.RemoveSelector :=
  {| rules.selID := id; rules.selHost := ""; rules.selOwner := "";
     rules.selKey := ""; rules.selIndex := 0 |}.

(** A source of randomness for the examples. *)
Definition some_entropy : rules.entropy :=
  fun n => Some (N.of_nat n, 171%N, 205%N, 239%N).

Definition example_config : config.Config :=
  {| config.Version := 0;
     config.Rules :=
       [ {| config.ID := ""; config.Host := " github.com ";
            config.Owner := ""; config.Key := " ~/.ssh/work_key";
            config.Priority := 0 |} ] |}.

Definition example_rule : config.Rule :=
  {| config.ID := ""; config.Host := "gitlab.com"; config.Owner := "Group";
     config.Key := "~/.ssh/gitlab"; config.Priority := 5 |}.

Definition named_rule : config.Rule :=
  {| config.ID := "work"; config.Host := "github.com";
     config.Owner := " CompanyOrg"; config.Key := "~/.ssh/work_key";
     config.Priority := 0 |}.

End store.

Module options.

(** The global options as the command line writes them. *)
Inductive item : Type :=
| ItJSON                     (* --json *)
| ItVerbose                  (* --verbose *)
| ItDryRun                   (* --dry-run *)
| ItConfig (v : string)      (* --config v *)
| ItConfigEq (v : string).   (* --config=v *)

Definition tokens_of (it : item) : list string :=
  match it with
  | ItJSON => ["--json"]
  | ItVerbose => ["--verbose"]
  | ItDryRun => ["--dry-run"]
  | ItConfig v => ["--config"; v]
  | ItConfigEq v => [("--config=" ++ v)%string]
  end.

Definition tokens (its : list item) : list string :=
  flat_map tokens_of its.

Definition is_json (it : item) : bool :=
  match it with ItJSON => true | _ => false end.

Definition is_verbose (it : item) : bool :=
  match it with ItVerbose => true | _ => false end.

Definition is_dry_run (it : item) : bool :=
  match it with ItDryRun => true | _ => false end.

(** The path of the last [--config] among the items, [d] when there is
    none. *)
Fixpoint last_config (its : list item) (d : string) : string :=
  match its with
  | [] => d
  | ItConfig v :: its' => last_config its' v
  | ItConfigEq v :: its' => last_config its' v
  | _ :: its' => last_config its' d
  end.

(** The options a list of items stands for: a flag is on when it occurs,
    the path is that of the last [--config]. *)
Definition options_of (its : list item) : cli.globalOptions :=
  {| cli.ConfigPath := last_config its "";
     cli.JSON := existsb is_json its;
     cli.Verbose := existsb is_verbose its;
     cli.DryRun := existsb is_dry_run its |}.

(** A token that is a global option. *)
Definition is_global (a : string) : bool :=
  String.eqb a "--json" || String.eqb a "--verbose"
  || String.eqb a "--dry-run" || String.eqb a "--config"
  || strings.HasPrefix a "--config=".

(** The arguments left over start with a token that is neither a global
    option nor [--], if there are any. *)
Definition stops (rest : list string) : Prop :=
  match rest with
  | [] => True
  | a :: _ => is_global a = false /\ a <> "--"
  end.

(** How [parseGlobalOptions] has read the arguments [args]. *)
Definition reads (args : list string) (its : list item)
           (res : option (list string)) : Prop :=
  match res with
  | None => args = tokens its ++ ["--config"]
  | Some rest =>
      args = tokens its ++ "--" :: rest
      \/ (args = tokens its ++ rest /\ stops rest)
  end.

End options.

Module remotes.

(** The remote names that the output of [git remote] lists: its
    non-blank lines, trimmed. *)
Definition names {rt : GoRuntime} (listing : string) : list string :=
  filter (fun n => negb (String.eqb n ""))
         (map strings_TrimSpace (strings.Split listing gitops.newline)).

Fixpoint args_eqb (a b : list string) : bool :=
  match a, b with
  | [], [] => true
  | x :: a', y :: b' => String.eqb x y && args_eqb a' b'
  | _, _ => false
  end.

Definition lf : string := String gitops.newline EmptyString.

(** A repository with the remotes [origin] and [mirror], on a branch
    without upstream. *)
Definition two_remotes : gitops.Git :=
  fun args =>
    if args_eqb args ["remote"] then Some ("origin" ++ lf ++ "mirror" ++ lf)%string
    else if args_eqb args ["remote"; "get-url"; "origin"]
    then Some ("git@github.com:CompanyOrg/project.git" ++ lf)%string
    else if args_eqb args ["remote"; "get-url"; "mirror"]
    then Some ("https://github.com/CompanyOrg/project.git" ++ lf)%string
    else None.

(** The same repository on a branch that tracks [mirror/feature/x]. *)
Definition tracking : gitops.Git :=
  fun args =>
    if args_eqb args ["rev-parse"; "--abbrev-ref"; "--symbolic-full-name";
                      "@{upstream}"]
    then Some ("mirror/feature/x" ++ lf)%string
    else two_remotes args.

End remotes.

Module wrapper.

(** Where the URL that is resolved comes from: it is one of the
    arguments, or the trimmed output of [git remote get-url]. *)
Definition url_source {rt : GoRuntime} (w : cli.World) (args : list string)
           (url : string) : Prop :=
  In url args
  \/ exists name out,
      cli.git_stdout w ["remote"; "get-url"; name] = Some out
      /\ url = strings_TrimSpace out.

(** The extra environment [extra] selects the key of a rule of the
    loaded configuration that matches the remote at [url], and git sees
    it: the first entry of the process environment [process_env] for
    [GIT_SSH_COMMAND] is the ssh command with that key. *)
Definition keyed {rt : GoRuntime} (w : cli.World) (opts : cli.globalOptions)
           (url : string) (extra : list (string * string))
           (process_env : list string) : Prop :=
  exists cfg parsed rule keyPath,
    cli.load_config w (cli.ConfigPath opts) = Some cfg
    /\ giturl.Parse url = Ok parsed
    /\ giturl.IsSSH parsed = true
    /\ In rule (config.Rules cfg)
    /\ spec.candidate rule parsed = true
    /\ config.ExpandPath (config.Key rule) = Ok keyPath
    /\ extra = [("GIT_SSH_COMMAND", runner.BuildGITSSHCommand keyPath)]
    /\ env.entries_of "GIT_SSH_COMMAND" process_env
       = ("GIT_SSH_COMMAND=" ++ runner.BuildGITSSHCommand keyPath)%string
           :: tl (env.entries_of "GIT_SSH_COMMAND" (cli.environ w)).

(** A dry run and the real run of the same command line agree. *)
Definition faithful (args : list string) (dry real : cli.Outcome) : Prop :=
  match dry, real with
  | cli.Described p, cli.Ran a extra _ _ =>
      a = args /\ cli.gitArgs p = args /\ cli.env p = extra
  | cli.Refused c e, cli.Refused c' e' => c = c' /\ e = e'
  | _, _ => False
  end.

(** The subcommands for which a key may be selected. *)
Definition selecting : list string :=
  ["push"; "fetch"; "pull"; "clone"; "ls-remote"].

Definition example_world : cli.World :=
  {| cli.environ := ["HOME=/home/user"; "GIT_SSH_COMMAND=ssh"; "LANG=C"];
     cli.git_stdout := remotes.two_remotes;
     cli.load_config := fun _ => Some examples.cfg;
     cli.git_runs := fun _ _ => true |}.

(** The same world without a configuration that can be loaded. *)
Definition world_without_config : cli.World :=
  {| cli.environ := cli.environ example_world;
     cli.git_stdout := cli.git_stdout example_world;
     cli.load_config := fun _ => None;
     cli.git_runs := cli.git_runs example_world |}.

(** The command line is wrong: there is no git argument, or [clone] has
    no repository argument. *)
Definition usage_error (args : list string) : Prop :=
  args = []
  \/ exists rest, args = "clone" :: rest /\ runner.positionalArgs rest = [].

(** [u] is the URL that [handleExec] resolves for a target given on the
    command line: the URL itself, or the URL of the remote named. *)
Definition target_url {rt : GoRuntime} (w : cli.World)
           (t : runner.GitTarget) (u : string) : Prop :=
  (runner.Kind t = runner.TargetURL /\ u = runner.URL t)
  \/ (runner.Kind t = runner.TargetRemote
      /\ runner.RemoteName t <> ""
      /\ gitops.RemoteURL (cli.git_stdout w) (runner.RemoteName t)
         = gitops.Got u).

End wrapper.

Module hint.

(** A host or owner that can be used as a pattern for itself: it is
    trimmed and not empty, so is its lower-case form, and that form has
    no special character of [filepath.Match]. *)
Definition plain {rt : GoRuntime} (v : string) : Prop :=
  strings_TrimSpace v = v /\ v <> ""
  /\ strings_TrimSpace (strings_ToLower v) = strings_ToLower v
  /\ strings_ToLower v <> ""
  /\ spec.literal_pattern (strings_ToLower v) = true.

(** The rule that [AddRuleHint] suggests for a remote, and that
    [mgit rule add <url>] builds from its URL. *)
Definition suggested (p : giturl.ParsedRemote) (id key : string)
           (priority : Z) : config.Rule :=
  {| config.ID := id; config.Host := giturl.Host p;
     config.Owner := giturl.Owner p; config.Key := key;
     config.Priority := priority |}.

(** The remote at [examples.nested_url]. *)
Definition nested_remote : giturl.ParsedRemote :=
  {| giturl.Original := examples.nested_url;
     giturl.Transport_ := giturl.TransportSSH;
     giturl.Scheme := "ssh";
     giturl.User := "git";
     giturl.Host := "gitlab.com";
     giturl.Port := "";
     giturl.Owner := "Group/subgroup";
     giturl.Repo := "repo";
     giturl.RawPath := "Group/subgroup/repo.git";
     giturl.IsRemoteURL := true |}.

End hint.

(** * Proofs *)

(** ** The model on the cases of the repository's tests *)

Example Clean_examples :
  path.Clean "a/./b" = "a/b" /\ path.Clean "a/.." = "."
  /\ path.Clean "../a/../.." = "../.." /\ path.Clean "/../a//b/" = "/a/b"
  /\ path.Clean "a/b/../c" = "a/c" /\ path.Clean "" = ".".
Proof. repeat split; vm_compute; reflexivity. Qed.

Example glob_examples :
  filepath.Match "*" "github.com" = (true, None)
  /\ filepath.Match "*" "group/subgroup" = (false, None)
  /\ filepath.Match "git*.com" "github.com" = (true, None)
  /\ filepath.Match "g?t[a-z]ub.*" "github.com" = (true, None)
  /\ filepath.Match "[^a-c]x" "dx" = (true, None)
  /\ filepath.Match "[^a-c]x" "bx" = (false, None)
  /\ filepath.Match "a*b*c" "aXXbYYc" = (true, None)
  /\ filepath.Match "a*b*c" "aXXbYYcd" = (false, None)
  /\ filepath.Match "*x" "xxx" = (true, None)
  /\ filepath.Match "a*/b" "a/c/b" = (false, None)
  /\ filepath.Match "[" "a" = (false, Some filepath.ErrBadPattern)
  /\ filepath.Match "[]a]" "]" = (false, Some filepath.ErrBadPattern)
  /\ filepath.Match "[a-]" "a" = (false, Some filepath.ErrBadPattern)
  /\ filepath.Match "a\*" "a*" = (true, None)
  /\ filepath.Match "a\" "a" = (false, Some filepath.ErrBadPattern).
Proof. repeat split; vm_compute; reflexivity. Qed.

Example test_ParseSCPLike :
  @giturl.Parse ref.runtime "git@github.com:CompanyOrg/project.git"
  = Ok examples.shorthand_remote
  /\ giturl.IsSSH examples.shorthand_remote = true.
Proof. split; vm_compute; reflexivity. Qed.

Example test_ParseSSHURLNestedGroup :
  exists p,
    @giturl.Parse ref.runtime "ssh://git@gitlab.com/Group/subgroup/repo.git" = Ok p
    /\ giturl.Host p = "gitlab.com" /\ giturl.Owner p = "Group/subgroup"
    /\ giturl.Repo p = "repo" /\ giturl.IsSSH p = true.
Proof.
  eexists. split; [vm_compute; reflexivity|].
  repeat split; vm_compute; reflexivity.
Qed.

Example test_ParseHTTPS :
  @giturl.Parse ref.runtime "https://github.com/CompanyOrg/project.git"
  = Ok examples.https_remote
  /\ giturl.IsHTTPS examples.https_remote = true.
Proof. split; vm_compute; reflexivity. Qed.

Example test_ParseInvalid :
  @giturl.Parse ref.runtime "github.com/project"
  = Err (ErrUnsupportedFormat "github.com/project").
Proof. vm_compute. reflexivity. Qed.

Example test_MatchPrefersSpecificOwnerOverWildcard :
  @matcher.Match ref.runtime [examples.wild_rule; examples.work_rule]
    (Some examples.shorthand_remote)
  = Ok {| matcher.Rule := examples.work_rule;
          matcher.Score := 820;
          matcher.Index := 1 |}.
Proof. vm_compute. reflexivity. Qed.

Example test_MatchSupportsDefaultFallback :
  exists p,
    @giturl.Parse ref.runtime "git@gitlab.com:AnotherOrg/repo.git" = Ok p
    /\ @matcher.Match ref.runtime [examples.fallback_rule] (Some p)
       = Ok {| matcher.Rule := examples.fallback_rule;
               matcher.Score := 0;
               matcher.Index := 0 |}.
Proof. eexists. split; vm_compute; reflexivity. Qed.

Example test_MatchNoRule :
  @matcher.Match ref.runtime [] (Some examples.shorthand_remote)
  = Err (ErrNoRuleMatched "github.com" "CompanyOrg").
Proof. vm_compute. reflexivity. Qed.

Example test_InferGitTarget :
  runner.InferGitTarget ["push"; "origin"; "main"]
  = (runner.with_remote (runner.target runner.TargetRemote "push") "origin", None)
  /\ runner.InferGitTarget ["clone"; "git@github.com:CompanyOrg/project.git"]
     = (runner.with_url (runner.target runner.TargetURL "clone")
          "git@github.com:CompanyOrg/project.git", None)
  /\ runner.InferGitTarget ["pull"]
     = (runner.with_notes (runner.target runner.TargetNone "pull")
          "remote not specified explicitly", None)
  /\ runner.InferGitTarget ["ls-remote"; "ssh://git@gitlab.com/Group/repo.git"]
     = (runner.with_url (runner.target runner.TargetURL "ls-remote")
          "ssh://git@gitlab.com/Group/repo.git", None).
Proof. repeat split; vm_compute; reflexivity. Qed.

(** ** Strings *)

Lemma string_eqb_false (a b : string) : a <> b -> String.eqb a b = false.
Proof. intros H. apply String.eqb_neq. exact H. Qed.

Lemma nonempty_true (s : string) : giturl.nonempty s = true <-> s <> "".
Proof.
  unfold giturl.nonempty. rewrite negb_true_iff. apply String.eqb_neq.
Qed.

Lemma string_app_assoc (a b c : string) :
  ((a ++ b) ++ c)%string = (a ++ (b ++ c))%string.
Proof. induction a as [|x a IH]; simpl; [reflexivity|now rewrite IH]. Qed.

Lemma string_app_nil_r (a : string) : (a ++ "")%string = a.
Proof. induction a as [|x a IH]; simpl; [reflexivity|now rewrite IH]. Qed.

Lemma string_app_length (a b : string) :
  String.length (a ++ b) = (String.length a + String.length b)%nat.
Proof. induction a as [|x a IH]; simpl; [reflexivity|now rewrite IH]. Qed.

(** ** Decoding *)

Lemma drop_length (n : nat) (s : string) :
  String.length (strings.drop n s) = (String.length s - n)%nat.
Proof.
  revert s. induction n as [|n IH]; intros s; simpl.
  - lia.
  - destruct s as [|c s]; simpl; [reflexivity|apply IH].
Qed.

(** A decoding step consumes at least one byte and no more than there
    are. *)
Lemma DecodeRuneInString_width (s : string) :
  s <> "" ->
  (1 <= snd (utf8.DecodeRuneInString s) <= String.length s)%nat.
Proof.
  intros Hs. destruct s as [|c0 t0]; [contradiction|].
  unfold utf8.DecodeRuneInString.
  destruct (strings.byte c0 <? 128)%N; [simpl; lia|].
  destruct (utf8.lead (strings.byte c0)) as [[[sz lo] hi]|]; [|simpl; lia].
  destruct t0 as [|c1 t1]; [simpl; lia|].
  destruct (negb (utf8.between lo hi (strings.byte c1))); [simpl; lia|].
  destruct (sz <=? 2)%nat; [simpl; lia|].
  destruct t1 as [|c2 t2]; [simpl; lia|].
  destruct (negb (utf8.cont (strings.byte c2))); [simpl; lia|].
  destruct (sz <=? 3)%nat; [simpl; lia|].
  destruct t2 as [|c3 t3]; [simpl; lia|].
  destruct (negb (utf8.cont (strings.byte c3))); simpl; lia.
Qed.

(** The fuel of [utf8.runes] is enough: more fuel decodes the same
    runes. *)
Lemma runes_fuel_enough (fuel : nat) :
  forall s : string,
    (String.length s <= fuel)%nat -> utf8.runes_fuel fuel s = utf8.runes s.
Proof.
  unfold utf8.runes.
  induction fuel as [fuel IH] using lt_wf_ind. intros s Hlen.
  destruct s as [|c s]; [destruct fuel; reflexivity|].
  destruct fuel as [|fuel']; [simpl in Hlen; lia|].
  cbn [String.length utf8.runes_fuel].
  pose proof (DecodeRuneInString_width (String c s)) as Hw.
  destruct (utf8.DecodeRuneInString (String c s)) as [r n].
  simpl in Hw. specialize (Hw ltac:(discriminate)).
  f_equal.
  assert (Hdrop : (String.length (strings.drop n (String c s))
                   <= String.length s)%nat).
  { rewrite drop_length. cbn [String.length]. lia. }
  simpl in Hlen.
  rewrite (IH fuel') by lia.
  symmetry. apply (IH (String.length s)); lia.
Qed.

(** On ASCII text the runes are the bytes. *)
Lemma runes_ascii (s : string) :
  forallb (fun c => (strings.byte c <? 128)%N) (list_ascii_of_string s) = true ->
  utf8.runes s = map strings.byte (list_ascii_of_string s).
Proof.
  unfold utf8.runes. induction s as [|c s IH]; intros H; [reflexivity|].
  simpl in H. apply andb_true_iff in H as [Hc Hs].
  cbn [String.length utf8.runes_fuel utf8.DecodeRuneInString].
  rewrite Hc. cbn [strings.drop list_ascii_of_string map].
  f_equal. exact (IH Hs).
Qed.

(** ** Literal patterns

    On a pattern without wildcard and escape the model of
    [filepath.Match] is string equality, and [*] alone matches exactly the
    names without a slash; the fuel of the loops is enough there. *)

Lemma take_length (p : string) : strings.take (String.length p) p = p.
Proof. induction p as [|c p IH]; simpl; [reflexivity|now rewrite IH]. Qed.

Lemma drop_all (p : string) : strings.drop (String.length p) p = "".
Proof. induction p as [|c p IH]; simpl; [reflexivity|exact IH]. Qed.

Lemma literal_pattern_cons (c : ascii) (p : string) :
  spec.literal_pattern (String c p) = true ->
  Ascii.eqb c "*" = false /\ Ascii.eqb c "?" = false
  /\ Ascii.eqb c "[" = false /\ Ascii.eqb c "\" = false
  /\ spec.literal_pattern p = true.
Proof.
  cbn [spec.literal_pattern strings.IndexByte]. intros H.
  apply andb_true_iff in H as [Hc Hp].
  apply negb_true_iff in Hc.
  rewrite !orb_false_r in Hc.
  apply orb_false_iff in Hc as [H1 Hc].
  apply orb_false_iff in Hc as [H2 Hc].
  apply orb_false_iff in Hc as [H3 H4].
  rewrite Ascii.eqb_sym in H1. rewrite Ascii.eqb_sym in H2.
  rewrite Ascii.eqb_sym in H3. rewrite Ascii.eqb_sym in H4.
  repeat split; assumption.
Qed.

Lemma scan_literal (p : string) :
  spec.literal_pattern p = true -> filepath.scan p false = String.length p.
Proof.
  induction p as [|c p IH]; intros H; [reflexivity|].
  destruct (literal_pattern_cons _ _ H) as [Hs [_ [Hb [He Hp]]]].
  cbn [filepath.scan String.length]. rewrite He, Hb, Hs.
  destruct (Ascii.eqb c "]"); now rewrite (IH Hp).
Qed.

Lemma scanChunk_literal (p : string) :
  spec.literal_pattern p = true -> filepath.scanChunk p = (false, p, "").
Proof.
  intros H. unfold filepath.scanChunk.
  assert (Hstrip : filepath.strip_stars p = (false, p)).
  { destruct p as [|c p]; [reflexivity|].
    destruct (literal_pattern_cons _ _ H) as [Hs _].
    cbn [filepath.strip_stars]. now rewrite Hs. }
  rewrite Hstrip, (scan_literal p H), take_length, drop_all. reflexivity.
Qed.

Lemma prefix_cons (c d : ascii) (p s : string) :
  String.prefix (String c p) (String d s) = Ascii.eqb c d && String.prefix p s.
Proof.
  cbn [String.prefix].
  destruct (ascii_dec c d) as [->|Hcd].
  - now rewrite Ascii.eqb_refl.
  - destruct (Ascii.eqb_spec c d); [contradiction|reflexivity].
Qed.

Lemma prefix_nil (s : string) : String.prefix "" s = true.
Proof. destruct s; reflexivity. Qed.

Lemma matchChunk_loop_literal (p : string) :
  forall (fuel : nat) (s : string) (failed : bool),
    spec.literal_pattern p = true ->
    (String.length p < fuel)%nat ->
    filepath.matchChunk_loop fuel p s failed
    = if failed then filepath.ChunkFail
      else if String.prefix p s
           then filepath.ChunkOk (strings.drop (String.length p) s)
           else filepath.ChunkFail.
Proof.
  induction p as [|c p IH]; intros fuel s failed Hlit Hfuel.
  - destruct fuel as [|fuel]; [simpl in Hfuel; lia|].
    cbn [filepath.matchChunk_loop]. rewrite prefix_nil. reflexivity.
  - destruct fuel as [|fuel]; [simpl in Hfuel; lia|].
    simpl in Hfuel.
    destruct (literal_pattern_cons _ _ Hlit) as [_ [Hq [Hb [He Hp]]]].
    cbn [filepath.matchChunk_loop]. rewrite Hb, Hq, He.
    destruct failed; cbn [orb].
    + now rewrite IH by (assumption || lia).
    + destruct s as [|d s]; cbn [String.eqb].
      * now rewrite IH by (assumption || lia).
      * rewrite IH by (assumption || lia).
        rewrite prefix_cons. cbn [String.length strings.drop].
        destruct (Ascii.eqb c d); reflexivity.
Qed.

Lemma prefix_drop_eqb (p s : string) :
  String.prefix p s = true ->
  String.eqb (strings.drop (String.length p) s) "" = String.eqb p s.
Proof.
  revert s. induction p as [|c p IH]; intros s H.
  - cbn [String.length strings.drop]. apply String.eqb_sym.
  - destruct s as [|d s]; [discriminate|].
    rewrite prefix_cons in H. apply andb_true_iff in H as [Hcd Hps].
    cbn [String.length strings.drop String.eqb]. rewrite Hcd. now apply IH.
Qed.

Lemma prefix_false_eqb (p s : string) :
  String.prefix p s = false -> String.eqb p s = false.
Proof.
  revert s. induction p as [|c p IH]; intros s H.
  - now rewrite prefix_nil in H.
  - destruct s as [|d s]; [reflexivity|].
    rewrite prefix_cons in H. cbn [String.eqb].
    destruct (Ascii.eqb c d); [now apply IH|reflexivity].
Qed.

Lemma Match_loop_literal (fuel : nat) (c : ascii) (p name : string) :
  spec.literal_pattern (String c p) = true ->
  filepath.Match_loop (S (S fuel)) (String c p) name
  = (String.eqb (String c p) name, None).
Proof.
  intros Hlit.
  cbn [filepath.Match_loop].
  rewrite (scanChunk_literal _ Hlit). cbn [andb].
  unfold filepath.matchChunk.
  rewrite matchChunk_loop_literal by (assumption || lia).
  destruct (String.prefix (String c p) name) eqn:Hpre.
  - rewrite (prefix_drop_eqb _ _ Hpre).
    destruct (String.eqb (String c p) name); reflexivity.
  - now rewrite (prefix_false_eqb _ _ Hpre).
Qed.

Lemma filepath_Match_literal (p name : string) :
  spec.literal_pattern p = true ->
  filepath.Match p name = (String.eqb p name, None).
Proof.
  intros Hlit. unfold filepath.Match.
  destruct p as [|c p].
  - cbn. now rewrite String.eqb_sym.
  - cbn [String.length]. now apply Match_loop_literal.
Qed.

Lemma filepath_Match_star (name : string) :
  filepath.Match "*" name = (negb (strings.Contains name "/"), None).
Proof. reflexivity. Qed.

(** ** The positional-argument scan *)

Lemma skipn_nth_cons (args : list string) (i : nat) :
  (i < List.length args)%nat ->
  skipn i args = nth i args "" :: skipn (S i) args.
Proof.
  revert i. induction args as [|a args IH]; intros i Hi; simpl in Hi.
  - lia.
  - destruct i as [|i]; simpl.
    + reflexivity.
    + apply IH. lia.
Qed.

Lemma takesValue_spec (a : string) :
  runner.takesValue a = spec.is_value_flag a && negb (strings.Contains a "=").
Proof.
  unfold runner.takesValue, spec.is_value_flag, spec.value_flags.
  destruct (strings.Contains a "="); simpl.
  - now rewrite andb_false_r.
  - rewrite andb_true_r, orb_false_r. now rewrite !orb_assoc.
Qed.

(** The loop, started at index [i] with [out] collected, appends the scan
    of the remaining tokens, whatever fuel is left beyond their number. *)
Lemma positionalArgs_loop_scan (fuel : nat) :
  forall (args : list string) (i : nat) (out : list string),
    (List.length args <= i + fuel)%nat ->
    runner.positionalArgs_loop fuel args i out
    = out ++ spec.positional_scan (skipn i args).
Proof.
  induction fuel as [|fuel IH]; intros args i out Hlen.
  - simpl. rewrite skipn_all2 by lia. simpl. now rewrite app_nil_r.
  - cbn [runner.positionalArgs_loop].
    destruct (Nat.ltb_spec i (List.length args)) as [Hi|Hi].
    + rewrite (skipn_nth_cons args i Hi).
      set (a := nth i args "").
      cbn [spec.positional_scan].
      replace (i + 1)%nat with (S i) by lia.
      destruct (String.eqb a "--"); [reflexivity|].
      destruct (String.eqb a ""); [apply IH; lia|].
      destruct (strings.HasPrefix a "-").
      * rewrite <- takesValue_spec.
        destruct (runner.takesValue a); cbn [andb].
        -- destruct (Nat.ltb_spec (S i) (List.length args)) as [Hi'|Hi'].
           ++ rewrite (skipn_nth_cons args (S i) Hi').
              replace (S i + 1)%nat with (S (S i)) by lia.
              apply IH. lia.
           ++ rewrite (skipn_all2 args (n := S i)) by lia.
              rewrite IH by lia.
              now rewrite (skipn_all2 args (n := S i)) by lia.
        -- apply IH. lia.
      * rewrite IH by lia. now rewrite <- app_assoc.
    + rewrite skipn_all2 by lia. simpl. now rewrite app_nil_r.
Qed.

Lemma positionalArgs_scan (args : list string) :
  runner.positionalArgs args = spec.positional_scan args.
Proof.
  unfold runner.positionalArgs.
  rewrite positionalArgs_loop_scan by lia. reflexivity.
Qed.

(** C9.  The positional-argument scan of the code returns, for every
    argument list, what the scan described in the document returns: all
    tokens after a [--]; before it, empty tokens and tokens starting with
    [-] are skipped, a value flag without [=] also skipping the next
    token, and the other tokens are kept in order.  In particular
    [fetch --prune mirror] names the remote [mirror]. *)
Theorem positionalArgs_is_positional_scan :
  (forall args : list string,
      runner.positionalArgs args = spec.positional_scan args)
  /\ (forall rest : list string,
         runner.positionalArgs ("--" :: rest) = rest)
  /\ runner.positionalArgs ["--prune"; "mirror"] = ["mirror"]
  /\ runner.InferGitTarget ["fetch"; "--prune"; "mirror"]
     = ({| runner.Kind := runner.TargetRemote;
           runner.Command := "fetch";
           runner.RemoteName := "mirror";
           runner.URL := "";
           runner.Notes := "";
           runner.SkipSSHSelection := false |}, None).
Proof.
  split; [exact positionalArgs_scan|].
  split; [intros rest; now rewrite positionalArgs_scan|].
  split; reflexivity.
Qed.

(** ** The target inferrer *)

Lemma remote_or_url_no_error (cmd note : string) (rest : list string) :
  snd (runner.remote_or_url cmd note rest) = None.
Proof.
  unfold runner.remote_or_url.
  destruct (runner.positionalArgs rest) as [|p0 ps]; [reflexivity|].
  destruct (giturl.IsLikelyRemoteURL p0); reflexivity.
Qed.

Lemma remote_or_url_none (cmd note : string) (rest : list string) :
  runner.positionalArgs rest = [] ->
  runner.remote_or_url cmd note rest
  = (runner.with_notes (runner.target runner.TargetNone cmd) note, None).
Proof. intros H. unfold runner.remote_or_url. now rewrite H. Qed.

Lemma InferGitTarget_error (args : list string) :
  snd (runner.InferGitTarget args) = None
  \/ (snd (runner.InferGitTarget args) = Some ErrCloneRequiresURL
      /\ exists rest, args = "clone" :: rest /\ runner.positionalArgs rest = []).
Proof.
  destruct args as [|cmd rest]; [left; reflexivity|].
  cbn [runner.InferGitTarget].
  destruct (String.eqb cmd "push" || String.eqb cmd "fetch" || String.eqb cmd "pull").
  { left. apply remote_or_url_no_error. }
  destruct (String.eqb_spec cmd "clone") as [->|Hclone].
  { destruct (runner.positionalArgs rest) as [|p0 ps] eqn:Hpos.
    - right. split; [reflexivity|]. now exists rest.
    - left. reflexivity. }
  destruct (String.eqb cmd "ls-remote").
  { left. apply remote_or_url_no_error. }
  left.
  destruct (String.eqb cmd "remote"); [|reflexivity].
  destruct rest as [|sub rest']; [reflexivity|].
  destruct (String.eqb sub "set-url"); [|reflexivity].
  destruct (runner.positionalArgs rest') as [|q0 [|q1 qs]]; try reflexivity.
  destruct (giturl.IsLikelyRemoteURL q1); reflexivity.
Qed.

(** C8.  [InferGitTarget] returns an error exactly when the leading
    token is [clone] and the positional scan of the remaining tokens
    finds nothing, and the error is then the missing-clone-target one.
    Every other argument vector yields a target without error: the empty
    vector and an unrecognised leading token give kind [none], and
    [push], [fetch], [pull] and [ls-remote] without a positional argument
    give kind [none] with a non-empty note. *)
Theorem InferGitTarget_fails_only_for_clone_without_target :
  (forall args : list string,
      snd (runner.InferGitTarget args) <> None
      <-> exists rest, args = "clone" :: rest /\ runner.positionalArgs rest = [])
  /\ (forall (args : list string) (e : error),
         snd (runner.InferGitTarget args) = Some e -> e = ErrCloneRequiresURL)
  /\ runner.InferGitTarget [] = (runner.target runner.TargetNone "", None)
  /\ (forall (cmd : string) (rest : list string),
         In cmd spec.noted_commands ->
         runner.positionalArgs rest = [] ->
         exists note,
           note <> ""
           /\ runner.InferGitTarget (cmd :: rest)
              = (runner.with_notes (runner.target runner.TargetNone cmd) note, None))
  /\ (forall (cmd : string) (rest : list string),
         ~ In cmd ["push"; "fetch"; "pull"; "clone"; "ls-remote"; "remote"] ->
         runner.InferGitTarget (cmd :: rest)
         = (runner.target runner.TargetNone cmd, None)).
Proof.
  repeat split.
  - intros Hne.
    destruct (InferGitTarget_error args) as [H|[_ H]]; [contradiction|exact H].
  - intros [rest [-> Hpos]]. cbn. rewrite Hpos. discriminate.
  - intros args e He.
    destruct (InferGitTarget_error args) as [H|[H _]]; congruence.
  - intros cmd rest Hin Hpos.
    simpl in Hin.
    destruct Hin as [<-|[<-|[<-|[<-|[]]]]]; cbn;
      rewrite (remote_or_url_none _ _ _ Hpos);
      eexists; (split; [|reflexivity]); discriminate.
  - intros cmd rest Hnot.
    cbn [runner.InferGitTarget].
    assert (Hneq : forall c, In c ["push"; "fetch"; "pull"; "clone"; "ls-remote"; "remote"]
                             -> String.eqb cmd c = false).
    { intros c Hc. apply string_eqb_false. intros ->. contradiction. }
    rewrite !Hneq by (simpl; tauto). reflexivity.
Qed.

(** ** The shorthand grammar *)

Lemma span_not_spec (c : ascii) (s a b : string) :
  giturl.span_not c s = (a, b) ->
  s = (a ++ b)%string
  /\ strings.IndexByte a c = false
  /\ (b = "" \/ exists b', b = String c b').
Proof.
  revert a b. induction s as [|d s IH]; intros a b H; simpl in H.
  - inversion H; subst. repeat split. now left.
  - destruct (Ascii.eqb_spec d c) as [->|Hdc].
    + inversion H; subst. repeat split. right. now exists s.
    + destruct (giturl.span_not c s) as [a' b'] eqn:Hs.
      inversion H; subst.
      destruct (IH a' b eq_refl) as [-> [Ha Hb]].
      repeat split; [|exact Hb].
      simpl. rewrite Ha.
      destruct (Ascii.eqb_spec d c); [contradiction|reflexivity].
Qed.

Lemma span_not_app (c : ascii) (a b : string) :
  strings.IndexByte a c = false ->
  giturl.span_not c (a ++ String c b) = (a, String c b).
Proof.
  induction a as [|d a IH]; intros H; simpl in *.
  - now rewrite Ascii.eqb_refl.
  - apply orb_false_iff in H as [Hd Ha].
    rewrite Hd, (IH Ha). reflexivity.
Qed.

Lemma match_host_path_some (s h p : string) :
  giturl.match_host_path s = Some (h, p) ->
  s = (h ++ ":" ++ p)%string
  /\ h <> "" /\ p <> ""
  /\ strings.IndexByte h ":"%char = false
  /\ strings.IndexByte p giturl.LF = false.
Proof.
  unfold giturl.match_host_path.
  destruct (giturl.span_not ":"%char s) as [a b] eqn:Hspan.
  destruct (span_not_spec _ _ _ _ Hspan) as [-> [Ha Hb]].
  destruct a as [|h0 h']; [discriminate|].
  destruct b as [|b0 [|p0 p']]; try discriminate.
  destruct (strings.IndexByte (String p0 p') giturl.LF) eqn:Hlf; [discriminate|].
  intros H. inversion H; subst.
  destruct Hb as [Hb|[b' Hb]]; [discriminate|].
  inversion Hb; subst.
  repeat split; try discriminate; assumption.
Qed.

Lemma match_host_path_app (h p : string) :
  h <> "" -> p <> "" ->
  strings.IndexByte h ":"%char = false ->
  strings.IndexByte p giturl.LF = false ->
  giturl.match_host_path (h ++ ":" ++ p) = Some (h, p).
Proof.
  intros Hh Hp Hcolon Hlf.
  unfold giturl.match_host_path.
  change (h ++ ":" ++ p)%string with (h ++ String ":" p)%string.
  rewrite (span_not_app _ _ _ Hcolon).
  destruct h as [|h0 h']; [contradiction|].
  destruct p as [|p0 p']; [contradiction|].
  now rewrite Hlf.
Qed.

(** What a match of [scpLikeRe] says about the text and its groups. *)
Lemma scpLikeRe_groups (s u h p : string) :
  giturl.scpLikeRe_FindStringSubmatch s = Some (u, h, p) ->
  s = ((if String.eqb u "" then "" else u ++ "@") ++ h ++ ":" ++ p)%string
  /\ strings.IndexByte u "@"%char = false
  /\ h <> "" /\ p <> ""
  /\ strings.IndexByte h ":"%char = false
  /\ strings.IndexByte p giturl.LF = false.
Proof.
  unfold giturl.scpLikeRe_FindStringSubmatch.
  destruct (giturl.span_not "@"%char s) as [a b] eqn:Hspan.
  destruct (span_not_spec _ _ _ _ Hspan) as [Hs [Ha Hb]].
  assert (Hplain : match giturl.match_host_path s with
                   | Some (h0, p0) => Some ("", h0, p0)
                   | None => None
                   end = Some (u, h, p) ->
                   s = ((if String.eqb u "" then "" else u ++ "@") ++ h ++ ":" ++ p)%string
                   /\ strings.IndexByte u "@"%char = false
                   /\ h <> "" /\ p <> ""
                   /\ strings.IndexByte h ":"%char = false
                   /\ strings.IndexByte p giturl.LF = false).
  { destruct (giturl.match_host_path s) as [[h0 p0]|] eqn:Hm; [|discriminate].
    intros H. inversion H; subst.
    destruct (match_host_path_some _ _ _ Hm) as [E R].
    split; [exact E|]. split; [reflexivity|exact R]. }
  destruct a as [|u0 u']; [exact Hplain|].
  destruct b as [|b0 rest]; [exact Hplain|].
  destruct (giturl.match_host_path rest) as [[h0 p0]|] eqn:Hm; [|exact Hplain].
  intros H. inversion H; subst u h p.
  destruct (match_host_path_some _ _ _ Hm) as [E R].
  destruct Hb as [Hb|[b' Hb]]; [discriminate|].
  inversion Hb; subst b0 b'.
  split.
  - rewrite Hs, E. simpl. now rewrite string_app_assoc.
  - split; [exact Ha|exact R].
Qed.

(** A text [host:path] with a non-empty colon-free host and a non-empty
    one-line path matches [scpLikeRe], whatever else the host contains. *)
Lemma scpLikeRe_matches_host_path (h p : string) :
  h <> "" -> p <> "" ->
  strings.IndexByte h ":"%char = false ->
  strings.IndexByte p giturl.LF = false ->
  giturl.scpLikeRe_MatchString (h ++ ":" ++ p) = true.
Proof.
  intros Hh Hp Hcolon Hlf.
  unfold giturl.scpLikeRe_MatchString, giturl.scpLikeRe_FindStringSubmatch.
  rewrite (match_host_path_app h p Hh Hp Hcolon Hlf).
  destruct (giturl.span_not "@"%char (h ++ ":" ++ p)) as [[|u0 u'] [|b0 rest]];
    try reflexivity.
  destruct (giturl.match_host_path rest) as [[h0 p0]|]; reflexivity.
Qed.

Section ParserFacts.
Context {rt : GoRuntime}.

Lemma splitRepoPath_ok (rawPath owner repo cleanPath : string) :
  giturl.splitRepoPath rawPath = Ok (owner, repo, cleanPath) ->
  owner <> "" /\ repo <> "".
Proof.
  unfold giturl.splitRepoPath. cbv zeta.
  repeat match goal with
         | |- (if ?b then _ else _) = _ -> _ =>
             destruct b eqn:?; [discriminate|]
         end.
  intros H. inversion H; subst.
  split; apply String.eqb_neq; assumption.
Qed.

Lemma parseSCPLike_ok (s : string) (p : giturl.ParsedRemote) :
  giturl.parseSCPLike s = Ok p ->
  exists rawPath,
    giturl.scpLikeRe_FindStringSubmatch s
    = Some (giturl.User p, giturl.Host p, rawPath)
    /\ giturl.splitRepoPath rawPath
       = Ok (giturl.Owner p, giturl.Repo p, giturl.RawPath p)
    /\ giturl.Transport_ p = giturl.TransportSSH.
Proof.
  unfold giturl.parseSCPLike.
  destruct (giturl.scpLikeRe_FindStringSubmatch s) as [[[u h] rawPath]|];
    [|discriminate].
  destruct (giturl.splitRepoPath rawPath) as [[[o r] c]|e] eqn:Hsplit;
    [|discriminate].
  intros H. inversion H; subst. simpl. exists rawPath. now rewrite Hsplit.
Qed.

Lemma parseURL_ok (s : string) (p : giturl.ParsedRemote) :
  giturl.parseURL s = Ok p ->
  giturl.Host p <> ""
  /\ exists rawPath,
      giturl.splitRepoPath rawPath
      = Ok (giturl.Owner p, giturl.Repo p, giturl.RawPath p).
Proof.
  unfold giturl.parseURL.
  destruct (url_Parse s) as [u|]; [|discriminate].
  destruct (String.eqb_spec (url.Hostname u) "") as [|Hhost]; [discriminate|].
  destruct (giturl.splitRepoPath (url.Path u)) as [[[o r] c]|e] eqn:Hsplit;
    [|discriminate].
  intros H. inversion H; subst. simpl. split; [exact Hhost|].
  exists (url.Path u). exact Hsplit.
Qed.

Lemma Parse_ok (input : string) (p : giturl.ParsedRemote) :
  giturl.Parse input = Ok p ->
  giturl.Host p <> "" /\ giturl.Owner p <> "" /\ giturl.Repo p <> "".
Proof.
  unfold giturl.Parse.
  destruct (String.eqb _ ""); [discriminate|].
  destruct (strings.Contains _ "://"); intros H.
  - destruct (parseURL_ok _ _ H) as [Hhost [rawPath Hsplit]].
    split; [exact Hhost|]. exact (splitRepoPath_ok _ _ _ _ Hsplit).
  - destruct (parseSCPLike_ok _ _ H) as [rawPath [Hre [Hsplit _]]].
    split; [|exact (splitRepoPath_ok _ _ _ _ Hsplit)].
    destruct (scpLikeRe_groups _ _ _ _ Hre) as [_ [_ [Hh _]]]. exact Hh.
Qed.

End ParserFacts.

(** ** The parser's invariant *)

Lemma Match_not_empty_host {rt : GoRuntime}
      (rules : list config.Rule) (p : giturl.ParsedRemote) :
  giturl.Host p <> "" -> matcher.Match rules (Some p) <> Err ErrEmptyHost.
Proof.
  intros Hhost. unfold matcher.Match.
  rewrite (string_eqb_false _ _ Hhost).
  destruct (matcher.Match_loop p 0 rules None); discriminate.
Qed.

(** C2.  A descriptor returned by a successful [Parse] (whatever its
    transport, so in particular for [ssh] and [https]) has a non-empty
    host, ownership path and repository name; hence [Match] never takes
    its empty-host branch on such a descriptor. *)
Theorem Parse_ok_fields_nonempty {rt : GoRuntime}
        (input : string) (p : giturl.ParsedRemote) :
  giturl.Parse input = Ok p ->
  (giturl.Transport_ p = giturl.TransportSSH
   \/ giturl.Transport_ p = giturl.TransportHTTPS ->
   giturl.Host p <> "" /\ giturl.Owner p <> "" /\ giturl.Repo p <> "")
  /\ (forall rules : list config.Rule,
         matcher.Match rules (Some p) <> Err ErrEmptyHost).
Proof.
  intros H. destruct (Parse_ok _ _ H) as [Hhost [Howner Hrepo]].
  split.
  - intros _. repeat split; assumption.
  - intros rules. now apply Match_not_empty_host.
Qed.

Lemma Parse_ok_fields_nonempty_witness :
  @giturl.Parse ref.runtime examples.shorthand_url = Ok examples.shorthand_remote
  /\ ((giturl.Transport_ examples.shorthand_remote = giturl.TransportSSH
       \/ giturl.Transport_ examples.shorthand_remote = giturl.TransportHTTPS ->
       giturl.Host examples.shorthand_remote <> ""
       /\ giturl.Owner examples.shorthand_remote <> ""
       /\ giturl.Repo examples.shorthand_remote <> "")
      /\ (forall rules : list config.Rule,
             @matcher.Match ref.runtime rules (Some examples.shorthand_remote)
             <> Err ErrEmptyHost)).
Proof.
  split.
  - vm_compute. reflexivity.
  - apply (@Parse_ok_fields_nonempty ref.runtime examples.shorthand_url).
    vm_compute. reflexivity.
Defined.

(** ** The URL-likeness classifier *)

(** C10.  When a string is its own white-space-trimmed form and [Parse]
    accepts it, [IsLikelyRemoteURL] answers [true] on it.  (The classifier
    is a function to [bool]: it has no error result.) *)
Theorem Parse_ok_IsLikelyRemoteURL {rt : GoRuntime} (s : string) :
  strings_TrimSpace s = s ->
  is_ok (giturl.Parse s) = true ->
  giturl.IsLikelyRemoteURL s = true.
Proof.
  intros Htrim. unfold giturl.Parse, giturl.IsLikelyRemoteURL.
  rewrite Htrim.
  destruct (String.eqb s ""); [discriminate|].
  destruct (strings.Contains s "://"); [reflexivity|].
  unfold giturl.parseSCPLike, giturl.scpLikeRe_MatchString.
  destruct (giturl.scpLikeRe_FindStringSubmatch s) as [[[u h] p]|];
    [reflexivity|discriminate].
Qed.

Lemma Parse_ok_IsLikelyRemoteURL_witness :
  @strings_TrimSpace ref.runtime examples.shorthand_url = examples.shorthand_url
  /\ is_ok (@giturl.Parse ref.runtime examples.shorthand_url) = true
  /\ giturl.IsLikelyRemoteURL examples.shorthand_url = true.
Proof.
  split; [vm_compute; reflexivity|].
  split; [vm_compute; reflexivity|].
  apply (@Parse_ok_IsLikelyRemoteURL ref.runtime examples.shorthand_url);
    vm_compute; reflexivity.
Defined.

(** ** The shorthand form *)

(** C6, as the code has it.  A shorthand parse succeeds only on a text of
    the shape [[user@]host:path] whose host is non-empty and without a
    colon and whose path is non-empty, and it then yields transport
    [ssh]; the parse reports an unsupported format exactly when
    [scpLikeRe] does not match, and a text [host:path] of that shape
    matches whatever else the host contains, a slash included. *)
Theorem parseSCPLike_shape {rt : GoRuntime} :
  (forall (s : string) (p : giturl.ParsedRemote),
      giturl.parseSCPLike s = Ok p ->
      giturl.Transport_ p = giturl.TransportSSH
      /\ giturl.Host p <> ""
      /\ strings.IndexByte (giturl.Host p) ":"%char = false
      /\ exists rawPath,
          rawPath <> ""
          /\ s = ((if String.eqb (giturl.User p) "" then ""
                   else giturl.User p ++ "@")
                    ++ giturl.Host p ++ ":" ++ rawPath)%string)
  /\ (forall s e,
         giturl.parseSCPLike s = Err e ->
         (e = ErrUnsupportedFormat s <-> giturl.scpLikeRe_MatchString s = false))
  /\ (forall host rawPath : string,
         host <> "" -> rawPath <> "" ->
         strings.IndexByte host ":"%char = false ->
         strings.IndexByte rawPath giturl.LF = false ->
         giturl.scpLikeRe_MatchString (host ++ ":" ++ rawPath) = true).
Proof.
  split; [|split].
  - intros s p H.
    destruct (parseSCPLike_ok _ _ H) as [rawPath [Hre [_ Ht]]].
    destruct (scpLikeRe_groups _ _ _ _ Hre) as [Hs [_ [Hh [Hp [Hc _]]]]].
    repeat split; try assumption.
    exists rawPath. split; assumption.
  - intros s e. unfold giturl.parseSCPLike, giturl.scpLikeRe_MatchString.
    destruct (giturl.scpLikeRe_FindStringSubmatch s) as [[[u h] rawPath]|].
    + destruct (giturl.splitRepoPath rawPath) as [[[o r] c]|e'];
        [discriminate|].
      intros H. inversion H; subst. split; discriminate.
    + intros H. inversion H; subst. split; reflexivity.
  - exact scpLikeRe_matches_host_path.
Qed.

(** C6 as stated fails: the shorthand parse accepts a text whose part
    before the first colon contains a slash. *)
Lemma parseSCPLike_accepts_slash_in_host :
  strings.Contains examples.slash_host_url "://" = false
  /\ fst (giturl.span_not ":"%char examples.slash_host_url) = "github.com/foo"
  /\ strings.IndexByte "github.com/foo" "/"%char = true
  /\ exists p,
      @giturl.parseSCPLike ref.runtime examples.slash_host_url = Ok p
      /\ @giturl.Parse ref.runtime examples.slash_host_url = Ok p
      /\ giturl.Host p = "github.com/foo"
      /\ giturl.Transport_ p = giturl.TransportSSH.
Proof.
  repeat split.
  eexists. repeat split.
Qed.

(** ** The resolution orchestrator *)

Lemma Transport_eqb_eq (a b : giturl.Transport) :
  giturl.Transport_eqb a b = true <-> a = b.
Proof. destruct a, b; simpl; split; congruence. Qed.

(** C7.  When the input parses with a transport other than [ssh],
    [FromURL] succeeds whatever the rule set, a missing one included: the
    result says that key selection does not apply, carries no rule, key
    path, override string or score, and has one note, which names the
    transport.  When the input parses with transport [ssh] and no rule
    set is given, [FromURL] fails with the missing-configuration error
    (not with an error of the matcher). *)
Theorem FromURL_without_config {rt : GoRuntime}
        (cfg : option config.Config) (rawInput : string)
        (p : giturl.ParsedRemote) :
  giturl.Parse rawInput = Ok p ->
  (giturl.Transport_ p <> giturl.TransportSSH ->
   exists note,
     resolve.FromURL cfg rawInput
     = Ok {| resolve.URL := rawInput;
             resolve.Parsed := Some p;
             resolve.SSHSelectionApplies := false;
             resolve.MatchedRule := None;
             resolve.KeyPath := "";
             resolve.GITSSHCommand := "";
             resolve.MatchScore := 0;
             resolve.Notes := [note] |}
     /\ note = (if giturl.IsHTTPS p then resolve.note_https
                else resolve.note_other (giturl.Transport_ p))
     /\ spec.names_transport note (giturl.Transport_ p) = true)
  /\ (giturl.Transport_ p = giturl.TransportSSH ->
      resolve.FromURL None rawInput = Err ErrConfigRequired).
Proof.
  intros Hparse. unfold resolve.FromURL. rewrite Hparse.
  unfold giturl.IsSSH, giturl.IsHTTPS.
  split.
  - intros Hnot.
    destruct (giturl.Transport_ p) eqn:Ht; [contradiction| |]; simpl;
      eexists; (split; [reflexivity|]); split; reflexivity.
  - intros Ht. rewrite Ht. reflexivity.
Qed.

Lemma FromURL_without_config_witness :
  @giturl.Parse ref.runtime examples.https_url = Ok examples.https_remote
  /\ ((giturl.Transport_ examples.https_remote <> giturl.TransportSSH ->
       exists note,
         @resolve.FromURL ref.runtime None examples.https_url
         = Ok {| resolve.URL := examples.https_url;
                 resolve.Parsed := Some examples.https_remote;
                 resolve.SSHSelectionApplies := false;
                 resolve.MatchedRule := None;
                 resolve.KeyPath := "";
                 resolve.GITSSHCommand := "";
                 resolve.MatchScore := 0;
                 resolve.Notes := [note] |}
         /\ note = (if giturl.IsHTTPS examples.https_remote
                    then resolve.note_https
                    else resolve.note_other
                           (giturl.Transport_ examples.https_remote))
         /\ spec.names_transport note
              (giturl.Transport_ examples.https_remote) = true)
      /\ (giturl.Transport_ examples.https_remote = giturl.TransportSSH ->
          @resolve.FromURL ref.runtime None examples.https_url
          = Err ErrConfigRequired)).
Proof.
  split.
  - vm_compute. reflexivity.
  - apply (@FromURL_without_config ref.runtime None examples.https_url).
    vm_compute. reflexivity.
Defined.

(** *** The override string *)

Lemma sh_lex_single_quoted (k : string) :
  forall (w tail : string),
    spec.sh_lex spec.ShSingle (Some w)
      (strings.ReplaceAll k "'"%char runner.quote_escape ++ String "'" tail)
    = spec.sh_lex spec.ShPlain (Some (w ++ k)%string) tail.
Proof.
  induction k as [|c k IH]; intros w tail.
  - simpl. now rewrite string_app_nil_r.
  - cbn [strings.ReplaceAll].
    destruct (Ascii.eqb_spec c "'"%char) as [->|Hc].
    + unfold runner.quote_escape. cbn -[strings.ReplaceAll].
      rewrite IH. now rewrite string_app_assoc.
    + cbn [String.append spec.sh_lex].
      destruct (Ascii.eqb_spec c "'"%char); [contradiction|].
      cbn [spec.sh_push]. rewrite IH. now rewrite string_app_assoc.
Qed.

Lemma shellQuote_general (s : string) :
  runner.shellQuote s
  = ("'" ++ strings.ReplaceAll s "'"%char runner.quote_escape ++ "'")%string.
Proof.
  unfold runner.shellQuote.
  destruct (String.eqb_spec s "") as [->|_]; reflexivity.
Qed.

Lemma sh_fields_BuildGITSSHCommand (keyPath : string) :
  spec.sh_fields (runner.BuildGITSSHCommand keyPath)
  = Some ["ssh"; "-F"; "/dev/null"; "-i"; keyPath; "-o"; "IdentitiesOnly=yes"].
Proof.
  unfold runner.BuildGITSSHCommand, spec.sh_fields.
  rewrite shellQuote_general.
  cbn -[strings.ReplaceAll runner.quote_escape].
  rewrite string_app_assoc.
  change ("'" ++ " -o IdentitiesOnly=yes")%string
    with (String "'" " -o IdentitiesOnly=yes").
  rewrite sh_lex_single_quoted. reflexivity.
Qed.

(** C4.  Whenever [FromURL] returns a result for which key selection
    applies, the override string is the literal [ssh -F /dev/null -i ],
    then the key path between single quotes with every single quote of it
    replaced by quote, double quote, quote, double quote, quote, then
    [ -o IdentitiesOnly=yes]; the key path is the expansion of the matched
    rule's key; and a shell reads the string as the seven fields [ssh],
    [-F], [/dev/null], [-i], the key path, [-o], [IdentitiesOnly=yes]:
    the key path is one field. *)
Theorem FromURL_override_string {rt : GoRuntime}
        (cfg : option config.Config) (rawInput : string)
        (res : resolve.Result) :
  resolve.FromURL cfg rawInput = Ok res ->
  resolve.SSHSelectionApplies res = true ->
  resolve.GITSSHCommand res
  = ("ssh -F /dev/null -i "
       ++ ("'" ++ strings.ReplaceAll (resolve.KeyPath res) "'"%char
                    runner.quote_escape ++ "'")
       ++ " -o IdentitiesOnly=yes")%string
  /\ (exists rule,
         resolve.MatchedRule res = Some rule
         /\ config.ExpandPath (config.Key rule) = Ok (resolve.KeyPath res))
  /\ spec.sh_fields (resolve.GITSSHCommand res)
     = Some ["ssh"; "-F"; "/dev/null"; "-i"; resolve.KeyPath res;
             "-o"; "IdentitiesOnly=yes"].
Proof.
  unfold resolve.FromURL.
  destruct (giturl.Parse rawInput) as [parsed|e]; [|discriminate].
  destruct (negb (giturl.IsSSH parsed)).
  { destruct (giturl.IsHTTPS parsed); intros H; inversion H; subst;
      simpl; discriminate. }
  destruct cfg as [cfg|]; [|discriminate].
  destruct (matcher.Match (config.Rules cfg) (Some parsed)) as [m|e];
    [|discriminate].
  destruct (config.ExpandPath (config.Key (matcher.Rule m))) as [keyPath|e]
    eqn:Hexp; [|discriminate].
  intros H _. inversion H; subst. cbn [resolve.GITSSHCommand resolve.KeyPath
                                        resolve.MatchedRule].
  split; [|split].
  - unfold runner.BuildGITSSHCommand. now rewrite shellQuote_general.
  - exists (matcher.Rule m). split; [reflexivity|exact Hexp].
  - apply sh_fields_BuildGITSSHCommand.
Qed.

Lemma FromURL_override_string_witness :
  @resolve.FromURL ref.runtime (Some examples.cfg) examples.shorthand_url
  = Ok examples.resolved
  /\ resolve.SSHSelectionApplies examples.resolved = true
  /\ resolve.GITSSHCommand examples.resolved
     = ("ssh -F /dev/null -i "
          ++ ("'" ++ strings.ReplaceAll (resolve.KeyPath examples.resolved)
                       "'"%char runner.quote_escape ++ "'")
          ++ " -o IdentitiesOnly=yes")%string
  /\ (exists rule,
         resolve.MatchedRule examples.resolved = Some rule
         /\ @config.ExpandPath ref.runtime (config.Key rule)
            = Ok (resolve.KeyPath examples.resolved))
  /\ spec.sh_fields (resolve.GITSSHCommand examples.resolved)
     = Some ["ssh"; "-F"; "/dev/null"; "-i"; resolve.KeyPath examples.resolved;
             "-o"; "IdentitiesOnly=yes"].
Proof.
  split; [vm_compute; reflexivity|].
  split; [reflexivity|].
  apply (@FromURL_override_string ref.runtime (Some examples.cfg)
           examples.shorthand_url examples.resolved).
  - vm_compute. reflexivity.
  - reflexivity.
Defined.

(** ** Splitting and joining on slashes *)

Lemma Split_nonnil (s : string) (c : ascii) : strings.Split s c <> [].
Proof.
  destruct s as [|d s]; simpl; [discriminate|].
  destruct (Ascii.eqb d c); [discriminate|].
  destruct (strings.Split s c); discriminate.
Qed.

Lemma Split_pieces_free (c : ascii) (s seg : string) :
  In seg (strings.Split s c) -> strings.IndexByte seg c = false.
Proof.
  revert seg. induction s as [|d s IH]; intros seg Hin; simpl in Hin.
  - destruct Hin as [<-|[]]. reflexivity.
  - destruct (Ascii.eqb d c) eqn:Hd.
    + destruct Hin as [<-|Hin]; [reflexivity|now apply IH].
    + destruct (strings.Split s c) as [|seg0 segs] eqn:Hs.
      * destruct Hin as [<-|[]]. simpl. now rewrite Hd.
      * destruct Hin as [<-|Hin].
        -- simpl. rewrite Hd. apply IH. now left.
        -- apply IH. now right.
Qed.

Lemma Split_free (c : ascii) (s : string) :
  strings.IndexByte s c = false -> strings.Split s c = [s].
Proof.
  induction s as [|d s IH]; intros H; simpl in *; [reflexivity|].
  apply orb_false_iff in H as [Hd Hs].
  rewrite Hd, (IH Hs). reflexivity.
Qed.

Lemma Split_app (c : ascii) (a b : string) :
  strings.IndexByte a c = false ->
  strings.Split (a ++ String c b) c = a :: strings.Split b c.
Proof.
  induction a as [|d a IH]; intros H; simpl in *.
  - now rewrite Ascii.eqb_refl.
  - apply orb_false_iff in H as [Hd Ha].
    rewrite Hd, (IH Ha). reflexivity.
Qed.

Lemma Join_cons2 (e e' : string) (rest : list string) (sep : string) :
  strings.Join (e :: e' :: rest) sep
  = (e ++ sep ++ strings.Join (e' :: rest) sep)%string.
Proof. reflexivity. Qed.

Lemma Split_Join (segs : list string) :
  segs <> [] ->
  (forall e, In e segs -> strings.IndexByte e "/"%char = false) ->
  strings.Split (strings.Join segs "/") "/"%char = segs.
Proof.
  induction segs as [|e [|e' rest] IH]; intros Hne Hfree.
  - contradiction.
  - simpl. apply Split_free. apply Hfree. now left.
  - rewrite Join_cons2.
    change ("/" ++ strings.Join (e' :: rest) "/")%string
      with (String "/" (strings.Join (e' :: rest) "/")).
    rewrite Split_app by (apply Hfree; now left).
    rewrite IH; [reflexivity|discriminate|].
    intros x Hx. apply Hfree. now right.
Qed.

Lemma Join_head (e : string) (rest : list string) :
  exists t, strings.Join (e :: rest) "/" = (e ++ t)%string
            /\ (rest = [] -> t = "")
            /\ (rest <> [] -> exists t', t = String "/" t').
Proof.
  destruct rest as [|e' rest].
  - exists "". simpl. rewrite string_app_nil_r.
    repeat split; [intros H; contradiction].
  - exists ("/" ++ strings.Join (e' :: rest) "/")%string.
    rewrite Join_cons2. repeat split; [discriminate|].
    intros _. eexists. reflexivity.
Qed.

Lemma Join_nonempty (e : string) (rest : list string) :
  e <> "" -> strings.Join (e :: rest) "/" <> "".
Proof.
  intros He. destruct (Join_head e rest) as [t [-> _]].
  destruct e; [contradiction|discriminate].
Qed.

Lemma Join_not_rooted (e : string) (rest : list string) :
  e <> "" -> strings.IndexByte e "/"%char = false ->
  strings.HasPrefix (strings.Join (e :: rest) "/") "/" = false.
Proof.
  intros He Hfree. destruct (Join_head e rest) as [t [-> _]].
  destruct e as [|d e]; [contradiction|].
  simpl in Hfree. apply orb_false_iff in Hfree as [Hd _].
  unfold strings.HasPrefix. cbn [String.append String.prefix].
  destruct (ascii_dec "/" d) as [<-|_]; [|reflexivity].
  now rewrite Ascii.eqb_refl in Hd.
Qed.

Lemma Join_not_dot (e : string) (rest : list string) :
  e <> "" -> e <> "." -> strings.Join (e :: rest) "/" <> ".".
Proof.
  intros He Hdot. destruct (Join_head e rest) as [t [-> [Hnil Hcons]]].
  destruct rest as [|e' rest].
  - rewrite (Hnil eq_refl), string_app_nil_r. exact Hdot.
  - destruct Hcons as [t' ->]; [discriminate|].
    destruct e as [|d [|d' e]]; [contradiction| |]; discriminate.
Qed.

(** ** Cleaning a list of segments *)

Lemma clean_elems_kept (rooted : bool) (elems : list string) :
  forall out : list string,
    (forall e, In e out -> spec.clean_segment e) ->
    forall e, In e (path.clean_elems rooted elems out) -> spec.clean_segment e.
Proof.
  induction elems as [|x elems IH]; intros out Hout e; simpl.
  - rewrite <- in_rev. apply Hout.
  - destruct (String.eqb_spec x "") as [->|Hx0]; [now apply IH|].
    destruct (String.eqb_spec x ".") as [->|Hx1]; [now apply IH|].
    simpl.
    destruct (String.eqb_spec x "..") as [->|Hx2].
    + destruct out as [|top out'].
      * destruct rooted; apply IH; try assumption.
        intros y [<-|[]]. split; discriminate.
      * destruct (String.eqb top "..").
        -- destruct rooted; apply IH; try assumption.
           intros y [<-|Hy]; [split; discriminate|now apply Hout].
        -- apply IH. intros y Hy. apply Hout. now right.
    + apply IH. intros y [<-|Hy]; [split; assumption|now apply Hout].
Qed.

Lemma clean_elems_normal (rooted : bool) (elems : list string) :
  forall out : list string,
    (forall e, In e elems -> e <> "") ->
    forallb (fun e => negb (spec.dot_segment e)) elems = true ->
    path.clean_elems rooted elems out = rev out ++ elems.
Proof.
  induction elems as [|x elems IH]; intros out Hne Hnormal; simpl.
  - now rewrite app_nil_r.
  - simpl in Hnormal. apply andb_true_iff in Hnormal as [Hx Hrest].
    unfold spec.dot_segment in Hx.
    apply negb_true_iff, orb_false_iff in Hx as [Hx1 Hx2].
    rewrite (string_eqb_false x "") by (apply Hne; now left).
    rewrite Hx1, Hx2. simpl.
    rewrite IH; [|intros e He; apply Hne; now right|exact Hrest].
    simpl. now rewrite <- app_assoc.
Qed.

(** [path.Clean] on a joined list of slash-free, non-empty segments. *)
Lemma Clean_Join (segs : list string) :
  segs <> [] ->
  (forall e, In e segs -> e <> "" /\ strings.IndexByte e "/"%char = false) ->
  path.Clean (strings.Join segs "/")
  = match path.clean_elems false segs [] with
    | [] => "."
    | kept => strings.Join kept "/"
    end.
Proof.
  intros Hne Hsegs. unfold path.Clean.
  destruct segs as [|e rest]; [contradiction|].
  destruct (Hsegs e (or_introl eq_refl)) as [He Hfree].
  rewrite (string_eqb_false _ _ (Join_nonempty e rest He)).
  rewrite (Join_not_rooted e rest He Hfree).
  rewrite Split_Join; [|discriminate|intros x Hx; now apply Hsegs].
  destruct (path.clean_elems false (e :: rest) []) as [|k kept] eqn:Hk.
  - reflexivity.
  - assert (Hc : spec.clean_segment k).
    { apply (clean_elems_kept false (e :: rest) []); [intros y []|].
      rewrite Hk. now left. }
    rewrite (string_eqb_false _ _ (Join_nonempty k kept (proj1 Hc))).
    reflexivity.
Qed.

(** ** Path splitting *)

Lemma In_removelast (A : Type) (l : list A) (x : A) :
  In x (removelast l) -> In x l.
Proof.
  induction l as [|a [|b l] IH]; simpl; intros H.
  - exact H.
  - contradiction.
  - destruct H as [<-|H]; [now left|right; now apply IH].
Qed.

Lemma removelast_nonnil (A : Type) (l : list A) :
  (2 <= List.length l)%nat -> removelast l <> [].
Proof.
  destruct l as [|a [|b l]]; simpl; intros H; try lia. discriminate.
Qed.

Lemma segments_spec (p e : string) :
  In e (spec.segments p) -> e <> "" /\ strings.IndexByte e "/"%char = false.
Proof.
  unfold spec.segments. intros H. apply filter_In in H as [Hin Hne].
  split; [now apply nonempty_true|exact (Split_pieces_free _ _ _ Hin)].
Qed.

Lemma splitRepoPath_normalised {rt : GoRuntime} (rawPath : string) :
  spec.outcome (giturl.splitRepoPath rawPath)
  = spec.split_normalised (spec.trim_path rawPath).
Proof.
  unfold giturl.splitRepoPath. fold (spec.trim_path rawPath).
  set (p := spec.trim_path rawPath). cbv zeta.
  destruct (String.eqb_spec p "") as [->|Hp]; [reflexivity|].
  unfold spec.split_normalised. fold (spec.segments p).
  set (segs := spec.segments p).
  destruct (Nat.ltb_spec (List.length segs) 2) as [Hlen|Hlen]; [reflexivity|].
  destruct (String.eqb (strings.TrimSuffix (last segs "") ".git") "");
    [reflexivity|].
  assert (Hsegs : forall e, In e (removelast segs) ->
                            e <> "" /\ strings.IndexByte e "/"%char = false).
  { intros e He. apply (segments_spec p). now apply In_removelast. }
  rewrite (Clean_Join _ (removelast_nonnil _ _ Hlen) Hsegs).
  destruct (path.clean_elems false (removelast segs) []) as [|k kept] eqn:Hk.
  - reflexivity.
  - assert (Hc : spec.clean_segment k).
    { apply (clean_elems_kept false (removelast segs) []); [intros y []|].
      rewrite Hk. now left. }
    destruct Hc as [Hk0 Hk1].
    rewrite (string_eqb_false _ _ (Join_not_dot k kept Hk0 Hk1)).
    rewrite (string_eqb_false _ _ (Join_nonempty k kept Hk0)).
    reflexivity.
Qed.

Lemma split_normalised_claimed (p : string) :
  forallb (fun e => negb (spec.dot_segment e)) (removelast (spec.segments p))
  = true ->
  spec.split_normalised p = spec.split_claimed p.
Proof.
  intros Hnormal. unfold spec.split_normalised, spec.split_claimed.
  set (segs := spec.segments p) in *.
  destruct (Nat.ltb_spec (List.length segs) 2) as [Hlen|Hlen]; [reflexivity|].
  destruct (String.eqb (strings.TrimSuffix (last segs "") ".git") "");
    [reflexivity|].
  assert (Hne : forall e, In e (removelast segs) -> e <> "").
  { intros e He. apply (segments_spec p e). now apply In_removelast. }
  rewrite (clean_elems_normal false _ [] Hne Hnormal). simpl.
  destruct (removelast segs) as [|k kept] eqn:Hk.
  - now apply removelast_nonnil in Hlen.
  - rewrite (string_eqb_false _ _ (Join_nonempty k kept (Hne k (or_introl eq_refl)))).
    reflexivity.
Qed.

(** C5, as the code has it.  For every path, [splitRepoPath] trims the
    path, splits it on slashes dropping the empty segments, fails when
    fewer than two segments remain, takes the last segment without one
    trailing [.git] as repository name (failing if that is empty), and
    takes as ownership path the preceding segments joined with slashes
    after normalisation: a [.] segment is dropped and a [..] cancels the
    segment kept before it, and the splitting fails when nothing remains.
    The owner and repository of every successfully parsed remote come
    from this splitting.  When no preceding segment is [.] or [..] the
    ownership path is exactly the preceding segments joined with slashes;
    so the nested group URL gives [Group/subgroup] and [repo]. *)
Theorem splitRepoPath_segments :
  (forall (rt : GoRuntime) (rawPath : string),
      spec.outcome (giturl.splitRepoPath rawPath)
      = spec.split_normalised (spec.trim_path rawPath))
  /\ (forall (rt : GoRuntime) (input : string) (p : giturl.ParsedRemote),
         giturl.Parse input = Ok p ->
         exists rawPath,
           spec.split_normalised (spec.trim_path rawPath)
           = Some (giturl.Owner p, giturl.Repo p))
  /\ (forall p : string,
         forallb (fun e => negb (spec.dot_segment e))
                 (removelast (spec.segments p)) = true ->
         spec.split_normalised p = spec.split_claimed p)
  /\ (exists p,
         @giturl.Parse ref.runtime examples.nested_url = Ok p
         /\ giturl.Owner p = "Group/subgroup"
         /\ giturl.Repo p = "repo").
Proof.
  split; [|split; [|split]].
  - intros rt rawPath. apply splitRepoPath_normalised.
  - intros rt input p H.
    assert (Hsplit : exists rawPath,
               giturl.splitRepoPath rawPath
               = Ok (giturl.Owner p, giturl.Repo p, giturl.RawPath p)).
    { unfold giturl.Parse in H.
      destruct (String.eqb _ ""); [discriminate|].
      destruct (strings.Contains _ "://").
      - now destruct (parseURL_ok _ _ H) as [_ Hs].
      - destruct (parseSCPLike_ok _ _ H) as [rawPath [_ [Hs _]]].
        now exists rawPath. }
    destruct Hsplit as [rawPath Hsplit]. exists rawPath.
    rewrite <- splitRepoPath_normalised, Hsplit. reflexivity.
  - exact split_normalised_claimed.
  - eexists. split; [vm_compute; reflexivity|]. split; reflexivity.
Qed.

(** C5 as stated fails: with a [.] among the preceding segments the
    ownership path is not their join, and with a [..] that cancels the
    only preceding segment the parse fails although their join is not
    empty. *)
Lemma splitRepoPath_owner_is_not_the_join :
  (exists p,
      @giturl.Parse ref.runtime examples.dot_path_url = Ok p
      /\ giturl.Owner p = "team"
      /\ spec.split_claimed (@spec.trim_path ref.runtime "team/./repo.git")
         = Some ("team/.", "repo"))
  /\ @giturl.Parse ref.runtime examples.dotdot_path_url
     = Err (ErrRepoPath (ErrInvalidOwner "team/../repo.git"))
  /\ spec.split_claimed (@spec.trim_path ref.runtime "team/../repo.git")
     = Some ("team/..", "repo").
Proof.
  split; [|split]; [|vm_compute; reflexivity|vm_compute; reflexivity].
  eexists. split; [vm_compute; reflexivity|]. split; vm_compute; reflexivity.
Qed.

(** ** Arithmetic of [int] *)

Lemma wrap_int_fits (z : Z) : fits_int z -> wrap_int z = z.
Proof.
  unfold fits_int, int_min, int_max, wrap_int. intros H.
  rewrite Z.mod_small; lia.
Qed.

Lemma wrap_int_add_l (a b : Z) : wrap_int (wrap_int a + b) = wrap_int (a + b).
Proof.
  unfold wrap_int. f_equal.
  replace ((a + 2 ^ 63) mod 2 ^ 64 - 2 ^ 63 + b + 2 ^ 63)
    with ((a + 2 ^ 63) mod 2 ^ 64 + b) by lia.
  rewrite Zplus_mod_idemp_l. f_equal. lia.
Qed.

Lemma wrap_int_add_r (a b : Z) : wrap_int (a + wrap_int b) = wrap_int (a + b).
Proof.
  rewrite (Z.add_comm a (wrap_int b)), wrap_int_add_l. f_equal. lia.
Qed.

(** ** Counting literal characters *)

Lemma literalChars_fold (l : list N) (n : Z) :
  fold_left (fun n r => if matcher.is_meta r then n else n + 1) l n
  = n + Z.of_nat (List.length (filter (fun r => negb (matcher.is_meta r)) l)).
Proof.
  revert n. induction l as [|r l IH]; intros n; simpl.
  - lia.
  - rewrite IH. destruct (matcher.is_meta r); simpl; lia.
Qed.

Lemma literalChars_count (pattern : string) :
  matcher.literalChars pattern = spec.literal_count pattern.
Proof.
  unfold matcher.literalChars, spec.literal_count.
  now rewrite literalChars_fold.
Qed.

Lemma literal_count_nonneg (pattern : string) : 0 <= spec.literal_count pattern.
Proof. unfold spec.literal_count. lia. Qed.

(** ** The matcher *)

Section MatcherFacts.
Context {rt : GoRuntime}.

Lemma specificityScore_range (pattern value : string) :
  0 <= matcher.specificityScore pattern value <= 400.
Proof.
  unfold matcher.specificityScore.
  destruct (String.eqb pattern "*"); [lia|].
  destruct (negb (matcher.hasWildcard pattern)); simpl; [|lia].
  destruct (strings_EqualFold pattern value); lia.
Qed.

Lemma matchRule_spec (r : config.Rule) (remote : giturl.ParsedRemote) :
  matcher.matchRule r remote
  = if spec.candidate r remote then (true, spec.score r remote) else (false, 0).
Proof.
  unfold matcher.matchRule, spec.candidate, spec.score, spec.score_exact.
  cbv zeta.
  fold (spec.host_pattern r) (spec.owner_pattern r)
       (spec.host_value remote) (spec.owner_value remote).
  destruct (matcher.glob_ok (spec.host_pattern r) (spec.host_value remote));
    [|reflexivity].
  destruct (matcher.glob_ok (spec.owner_pattern r) (spec.owner_value remote));
    [|reflexivity].
  cbn [negb andb]. f_equal.
  rewrite !literalChars_count.
  rewrite wrap_int_add_r, !wrap_int_add_l.
  rewrite <- Z.add_assoc, wrap_int_add_l. f_equal. lia.
Qed.

Variable remote : giturl.ParsedRemote.

Lemma Match_step_spec (best : option matcher.MatchResult) (i : nat)
      (r : config.Rule) :
  matcher.Match_step remote best i r
  = if spec.candidate r remote then
      let c := {| matcher.Rule := r;
                  matcher.Score := spec.score r remote;
                  matcher.Index := i |} in
      match best with
      | None => Some c
      | Some b =>
          if matcher.Score b <? spec.score r remote then Some c else best
      end
    else best.
Proof.
  unfold matcher.Match_step. rewrite matchRule_spec.
  destruct (spec.candidate r remote); reflexivity.
Qed.

(** A candidate [r] that replaces the incoming choice: what the rest of
    the loop returns is a result for the whole list. *)
Lemma loop_result_take (i : nat) (r : config.Rule) (rest : list config.Rule)
      (best res : option matcher.MatchResult) :
  spec.candidate r remote = true ->
  (forall b, best = Some b -> matcher.Score b < spec.score r remote) ->
  spec.loop_result remote (S i) rest
    (Some {| matcher.Rule := r;
             matcher.Score := spec.score r remote;
             matcher.Index := i |}) res ->
  spec.loop_result remote i (r :: rest) best res.
Proof.
  intros Hr Hbeat. unfold spec.loop_result.
  set (c := {| matcher.Rule := r;
               matcher.Score := spec.score r remote;
               matcher.Index := i |}).
  destruct res as [m|]; [|intros [Hnone _]; discriminate].
  intros [Hall [Hc Hwho]].
  specialize (Hc c eq_refl). cbn in Hc.
  split; [|split].
  - intros [|j] r0 Hj Hcand; simpl in Hj.
    + inversion Hj; subst. exact Hc.
    + exact (Hall j r0 Hj Hcand).
  - intros b Hb. specialize (Hbeat b Hb). lia.
  - right. destruct Hwho as [Hm|[j [Hidx [Hnth [Hcm [Hsm [Hb Hbefore]]]]]]].
    + inversion Hm; subst m. exists 0%nat. cbn.
      repeat split; try assumption.
      * lia.
      * intros j' r0 Hj'. lia.
    + exists (S j). repeat split; try assumption.
      * lia.
      * intros b Hb0. specialize (Hbeat b Hb0). lia.
      * intros [|j'] r0 Hj' Hnth' Hcand; simpl in Hnth'.
        -- inversion Hnth'; subst. exact (Hb c eq_refl).
        -- apply (Hbefore j' r0); [lia|assumption|assumption].
Qed.

(** A rule [r] that leaves the incoming choice in place, because it is
    no candidate or does not beat it. *)
Lemma loop_result_keep (i : nat) (r : config.Rule) (rest : list config.Rule)
      (best res : option matcher.MatchResult) :
  (spec.candidate r remote = true ->
   exists b, best = Some b /\ spec.score r remote <= matcher.Score b) ->
  spec.loop_result remote (S i) rest best res ->
  spec.loop_result remote i (r :: rest) best res.
Proof.
  intros Hr. unfold spec.loop_result.
  destruct res as [m|].
  - intros [Hall [Hb Hwho]].
    assert (Hle : spec.candidate r remote = true ->
                  spec.score r remote <= matcher.Score m).
    { intros Hc. destruct (Hr Hc) as [b [Hbest Hle]].
      specialize (Hb b Hbest). lia. }
    split; [|split].
    + intros [|j] r0 Hj Hcand; simpl in Hj.
      * inversion Hj; subst. now apply Hle.
      * exact (Hall j r0 Hj Hcand).
    + exact Hb.
    + destruct Hwho as [Hm|[j [Hidx [Hnth [Hcm [Hsm [Hbb Hbefore]]]]]]].
      * now left.
      * right. exists (S j). repeat split; try assumption.
        -- lia.
        -- intros [|j'] r0 Hj' Hnth' Hcand; simpl in Hnth'.
           ++ inversion Hnth'; subst.
              destruct (Hr Hcand) as [b [Hbest Hle']].
              specialize (Hbb b Hbest). lia.
           ++ apply (Hbefore j' r0); [lia|assumption|assumption].
  - intros [Hnone Hall]. split; [exact Hnone|].
    intros r0 [<-|Hin]; [|now apply Hall].
    destruct (spec.candidate r remote) eqn:Hc; [|reflexivity].
    destruct (Hr eq_refl) as [b [Hbest _]]. congruence.
Qed.

Lemma Match_loop_spec (rules : list config.Rule) :
  forall (i : nat) (best : option matcher.MatchResult),
    spec.loop_result remote i rules best
      (matcher.Match_loop remote i rules best).
Proof.
  induction rules as [|r rest IH]; intros i best.
  - simpl. destruct best as [b|]; simpl.
    + split; [intros [|j] r' H; discriminate|].
      split; [intros b' Hb; inversion Hb; lia|now left].
    + split; [reflexivity|intros r' []].
  - cbn [matcher.Match_loop]. rewrite Match_step_spec.
    destruct (spec.candidate r remote) eqn:Hr.
    + cbv zeta. destruct best as [b|].
      * destruct (Z.ltb_spec (matcher.Score b) (spec.score r remote))
          as [Hlt|Hge].
        -- apply loop_result_take; [exact Hr| |apply IH].
           intros b0 Hb0. inversion Hb0; subst. exact Hlt.
        -- apply loop_result_keep; [|apply IH].
           intros _. exists b. split; [reflexivity|lia].
      * apply loop_result_take; [exact Hr| |apply IH].
        intros b Hb. discriminate.
    + apply loop_result_keep; [|apply IH]. intros Hc. congruence.
Qed.

End MatcherFacts.

Lemma Match_ok_spec {rt : GoRuntime} (rules : list config.Rule)
      (remote : giturl.ParsedRemote) (m : matcher.MatchResult) :
  matcher.Match rules (Some remote) = Ok m ->
  nth_error rules (matcher.Index m) = Some (matcher.Rule m)
  /\ spec.candidate (matcher.Rule m) remote = true
  /\ matcher.Score m = spec.score (matcher.Rule m) remote
  /\ (forall j r, nth_error rules j = Some r -> spec.candidate r remote = true ->
                  spec.score r remote <= matcher.Score m)
  /\ (forall j r, (j < matcher.Index m)%nat -> nth_error rules j = Some r ->
                  spec.candidate r remote = true ->
                  spec.score r remote < matcher.Score m).
Proof.
  unfold matcher.Match.
  destruct (String.eqb (giturl.Host remote) ""); [discriminate|].
  pose proof (Match_loop_spec remote rules 0 None) as H.
  unfold spec.loop_result in H.
  destruct (matcher.Match_loop remote 0 rules None) as [m'|]; [|discriminate].
  intros E. inversion E; subst m'.
  destruct H as [Hall [_ [Hm|[j [Hidx [Hnth [Hc [Hs [_ Hbefore]]]]]]]]];
    [discriminate|].
  simpl in Hidx. subst j. repeat split; assumption.
Qed.

Lemma Match_err_spec {rt : GoRuntime} (rules : list config.Rule)
      (remote : giturl.ParsedRemote) (e : error) :
  giturl.Host remote <> "" ->
  matcher.Match rules (Some remote) = Err e ->
  e = ErrNoRuleMatched (giturl.Host remote) (giturl.Owner remote)
  /\ forall r, In r rules -> spec.candidate r remote = false.
Proof.
  intros Hhost. unfold matcher.Match.
  rewrite (string_eqb_false _ _ Hhost).
  pose proof (Match_loop_spec remote rules 0 None) as H.
  unfold spec.loop_result in H.
  destruct (matcher.Match_loop remote 0 rules None) as [m'|]; [discriminate|].
  intros E. inversion E; subst. split; [reflexivity|exact (proj2 H)].
Qed.

(** ** The matcher against its statement in library terms *)

Lemma pattern_of_normalizePattern {rt : GoRuntime} (field : string) :
  spec.pattern_of field = matcher.normalizePattern (strings_ToLower field).
Proof.
  unfold spec.pattern_of, matcher.normalizePattern.
  destruct (strings_TrimSpace (strings_ToLower field)); reflexivity.
Qed.

Lemma glob_matches_glob_ok {rt : GoRuntime} (pattern value : string) :
  spec.glob_matches pattern value = matcher.glob_ok pattern value.
Proof.
  unfold spec.glob_matches, matcher.glob_ok.
  destruct (filepath_Match pattern value) as [[|] [e|]]; reflexivity.
Qed.

Lemma is_candidate_candidate {rt : GoRuntime} (r : config.Rule)
      (remote : giturl.ParsedRemote) :
  spec.is_candidate r remote = spec.candidate r remote.
Proof.
  unfold spec.is_candidate, spec.candidate, spec.host_pattern,
    spec.owner_pattern, spec.host_value, spec.owner_value.
  now rewrite !glob_matches_glob_ok, !pattern_of_normalizePattern.
Qed.

Lemma wildcard_free_hasWildcard (pattern : string) :
  spec.wildcard_free pattern = negb (matcher.hasWildcard pattern).
Proof.
  unfold spec.wildcard_free, matcher.hasWildcard.
  induction pattern as [|c p IH]; [reflexivity|].
  cbn [list_ascii_of_string forallb strings.ContainsAny].
  rewrite IH, negb_orb.
  cbn [existsb strings.IndexByte].
  rewrite (Ascii.eqb_sym c "*"), (Ascii.eqb_sym c "?"), (Ascii.eqb_sym c "[").
  reflexivity.
Qed.

Lemma specificity_specificityScore {rt : GoRuntime} (pattern value : string) :
  spec.specificity pattern value = matcher.specificityScore pattern value.
Proof.
  unfold spec.specificity, matcher.specificityScore.
  rewrite wildcard_free_hasWildcard.
  destruct (String.eqb pattern "*"); [reflexivity|].
  destruct (matcher.hasWildcard pattern); cbn [negb andb]; [reflexivity|].
  destruct (strings_EqualFold pattern value); reflexivity.
Qed.

Lemma literal_characters_count (pattern : string) :
  spec.literal_characters pattern = spec.literal_count pattern.
Proof.
  unfold spec.literal_characters, spec.literal_count. do 2 f_equal.
  apply filter_ext. intros r. unfold matcher.is_meta. cbn [existsb].
  now rewrite orb_false_r, !orb_assoc.
Qed.

Lemma literal_characters_literalChars (pattern : string) :
  spec.literal_characters pattern = matcher.literalChars pattern.
Proof. now rewrite literal_characters_count, literalChars_count. Qed.

Lemma sum_score_exact {rt : GoRuntime} (r : config.Rule)
      (remote : giturl.ParsedRemote) :
  spec.sum_score r remote = spec.score_exact r remote.
Proof.
  unfold spec.sum_score, spec.score_exact, spec.host_pattern,
    spec.owner_pattern, spec.host_value, spec.owner_value.
  now rewrite !specificity_specificityScore, !literal_characters_count,
    !pattern_of_normalizePattern.
Qed.

Lemma int_score_score {rt : GoRuntime} (r : config.Rule)
      (remote : giturl.ParsedRemote) :
  spec.int_score r remote = spec.score r remote.
Proof. unfold spec.int_score, spec.score. now rewrite sum_score_exact. Qed.

(** C1, as the code has it.  For every rule list and every remote with a
    non-empty host: a rule is a candidate exactly when its host and owner
    patterns, lower-cased and then white-space-trimmed (a pattern that is
    then empty becoming [*]), glob-match the lower-cased host and
    ownership path; [Match] fails exactly when no rule is a candidate,
    with the no-rule-matched error carrying the host and ownership path;
    otherwise it returns a candidate, with its index, whose score is
    maximal among the candidates and strictly above that of every earlier
    candidate.  The score is priority*1000 + specificity(host) +
    specificity(owner) + literal characters of both patterns, as an
    [int]; when the scores of the candidates fit an [int], it is that sum
    itself.  Specificity is 0 for [*], 400 for a wildcard-free pattern
    equal to the value up to case, 300 for another wildcard-free pattern,
    100 otherwise, and the literal count is the number of characters
    other than [* ? [ ]].  Candidates, specificity, literal count and
    score are the ones defined from the Go library alone
    ([spec.is_candidate], [spec.specificity], [spec.literal_characters],
    [spec.sum_score]), and the functions of the matcher are proved equal
    to them. *)
Theorem Match_returns_first_best_candidate {rt : GoRuntime}
        (rules : list config.Rule) (remote : giturl.ParsedRemote) :
  giturl.Host remote <> "" ->
  (forall r, matcher.matchRule r remote
             = if spec.is_candidate r remote
               then (true, spec.int_score r remote)
               else (false, 0))
  /\ ((forall r, In r rules -> spec.is_candidate r remote = false)
      <-> matcher.Match rules (Some remote)
          = Err (ErrNoRuleMatched (giturl.Host remote) (giturl.Owner remote)))
  /\ (forall e, matcher.Match rules (Some remote) = Err e ->
                e = ErrNoRuleMatched (giturl.Host remote) (giturl.Owner remote))
  /\ matcher.Match [] (Some remote)
     = Err (ErrNoRuleMatched (giturl.Host remote) (giturl.Owner remote))
  /\ ((exists r, In r rules /\ spec.is_candidate r remote = true) ->
      exists m, matcher.Match rules (Some remote) = Ok m)
  /\ (forall m,
         matcher.Match rules (Some remote) = Ok m ->
         nth_error rules (matcher.Index m) = Some (matcher.Rule m)
         /\ spec.is_candidate (matcher.Rule m) remote = true
         /\ matcher.Score m = spec.int_score (matcher.Rule m) remote
         /\ (forall j r, nth_error rules j = Some r ->
                         spec.is_candidate r remote = true ->
                         spec.int_score r remote <= matcher.Score m)
         /\ (forall j r, (j < matcher.Index m)%nat ->
                         nth_error rules j = Some r ->
                         spec.is_candidate r remote = true ->
                         spec.int_score r remote < matcher.Score m))
  /\ ((forall r, In r rules -> spec.is_candidate r remote = true ->
                 fits_int (spec.sum_score r remote)) ->
      forall m,
        matcher.Match rules (Some remote) = Ok m ->
        matcher.Score m = spec.sum_score (matcher.Rule m) remote
        /\ (forall j r, nth_error rules j = Some r ->
                        spec.is_candidate r remote = true ->
                        spec.sum_score r remote
                        <= spec.sum_score (matcher.Rule m) remote)
        /\ (forall j r, (j < matcher.Index m)%nat ->
                        nth_error rules j = Some r ->
                        spec.is_candidate r remote = true ->
                        spec.sum_score r remote
                        < spec.sum_score (matcher.Rule m) remote))
  /\ (forall pattern value,
         matcher.specificityScore pattern value
         = spec.specificity pattern value)
  /\ (forall pattern,
         matcher.literalChars pattern = spec.literal_characters pattern).
Proof.
  intros Hhost.
  assert (Hc : forall r, spec.candidate r remote = spec.is_candidate r remote)
    by (intros r; symmetry; apply is_candidate_candidate).
  assert (Hs : forall r, spec.score r remote = spec.int_score r remote)
    by (intros r; symmetry; apply int_score_score).
  assert (Hx : forall r, spec.score_exact r remote = spec.sum_score r remote)
    by (intros r; symmetry; apply sum_score_exact).
  assert (Hok : forall m,
             matcher.Match rules (Some remote) = Ok m ->
             nth_error rules (matcher.Index m) = Some (matcher.Rule m)
             /\ spec.is_candidate (matcher.Rule m) remote = true
             /\ matcher.Score m = spec.int_score (matcher.Rule m) remote
             /\ (forall j r, nth_error rules j = Some r ->
                             spec.is_candidate r remote = true ->
                             spec.int_score r remote <= matcher.Score m)
             /\ (forall j r, (j < matcher.Index m)%nat ->
                             nth_error rules j = Some r ->
                             spec.is_candidate r remote = true ->
                             spec.int_score r remote < matcher.Score m)).
  { intros m E.
    destruct (Match_ok_spec _ _ _ E) as [Hnth [Hcm [Hsm [Hall Hbefore]]]].
    split; [exact Hnth|]. split; [now rewrite <- Hc|].
    split; [now rewrite <- Hs|]. split.
    - intros j r Hj Hcr. rewrite <- Hs. apply (Hall j r Hj). now rewrite Hc.
    - intros j r Hlt Hj Hcr. rewrite <- Hs. apply (Hbefore j r Hlt Hj).
      now rewrite Hc. }
  assert (Hfail : (forall r, In r rules -> spec.is_candidate r remote = false) ->
                  matcher.Match rules (Some remote)
                  = Err (ErrNoRuleMatched (giturl.Host remote) (giturl.Owner remote))).
  { intros Hnone.
    destruct (matcher.Match rules (Some remote)) as [m|e] eqn:E.
    - destruct (Hok m eq_refl) as [Hnth [Hcm _]].
      apply nth_error_In in Hnth. rewrite (Hnone _ Hnth) in Hcm. discriminate.
    - now destruct (Match_err_spec _ _ _ Hhost E) as [-> _]. }
  split.
  { intros r. rewrite matchRule_spec, Hc, Hs. reflexivity. }
  split; [split; [exact Hfail|]|].
  { intros E r Hin. rewrite <- Hc.
    exact (proj2 (Match_err_spec _ _ _ Hhost E) r Hin). }
  split; [intros e E; exact (proj1 (Match_err_spec _ _ _ Hhost E))|].
  split.
  { unfold matcher.Match. now rewrite (string_eqb_false _ _ Hhost). }
  split.
  { intros [r [Hin Hcr]].
    destruct (matcher.Match rules (Some remote)) as [m|e] eqn:E;
      [now exists m|].
    destruct (Match_err_spec _ _ _ Hhost E) as [_ Hnone].
    rewrite <- Hc, (Hnone r Hin) in Hcr. discriminate. }
  split; [exact Hok|].
  split.
  { intros Hfits m E.
    destruct (Hok m E) as [Hnth [Hcm [Hsm [Hall Hbefore]]]].
    assert (Hexact : forall j r, nth_error rules j = Some r ->
                                 spec.is_candidate r remote = true ->
                                 spec.int_score r remote
                                 = spec.sum_score r remote).
    { intros j r Hj Hcr. unfold spec.int_score. apply wrap_int_fits.
      apply Hfits; [exact (nth_error_In _ _ Hj)|exact Hcr]. }
    rewrite Hsm, (Hexact _ _ Hnth Hcm) in *.
    split; [reflexivity|]. split.
    - intros j r Hj Hcr. rewrite <- (Hexact j r Hj Hcr). now apply (Hall j).
    - intros j r Hlt Hj Hcr. rewrite <- (Hexact j r Hj Hcr).
      now apply (Hbefore j). }
  split.
  - intros pattern value. symmetry. apply specificity_specificityScore.
  - intros pattern. symmetry. apply literal_characters_literalChars.
Qed.

Lemma Match_returns_first_best_candidate_witness :
  giturl.Host examples.shorthand_remote <> ""
  /\ (forall m,
         @matcher.Match ref.runtime (config.Rules examples.cfg)
           (Some examples.shorthand_remote) = Ok m ->
         nth_error (config.Rules examples.cfg) (matcher.Index m)
         = Some (matcher.Rule m)
         /\ @spec.is_candidate ref.runtime (matcher.Rule m)
              examples.shorthand_remote = true
         /\ matcher.Score m
            = @spec.int_score ref.runtime (matcher.Rule m)
                examples.shorthand_remote
         /\ (forall j r, nth_error (config.Rules examples.cfg) j = Some r ->
                         @spec.is_candidate ref.runtime r
                           examples.shorthand_remote = true ->
                         @spec.int_score ref.runtime r examples.shorthand_remote
                         <= matcher.Score m)
         /\ (forall j r, (j < matcher.Index m)%nat ->
                         nth_error (config.Rules examples.cfg) j = Some r ->
                         @spec.is_candidate ref.runtime r
                           examples.shorthand_remote = true ->
                         @spec.int_score ref.runtime r examples.shorthand_remote
                         < matcher.Score m)).
Proof.
  split; [discriminate|].
  refine (proj1 (proj2 (proj2 (proj2 (proj2 (proj2
            (@Match_returns_first_best_candidate ref.runtime
               (config.Rules examples.cfg) examples.shorthand_remote _))))))).
  discriminate.
Defined.

(** C1 as stated fails twice: a pattern of white space is a candidate
    for every host although, lower-cased, it does not glob-match it, and
    with a priority whose product with 1000 does not fit an [int] the
    candidate with the larger sum is not the one returned. *)
Lemma Match_trims_patterns_and_wraps_scores :
  (@spec.candidate_claimed ref.runtime examples.blank_rule
     examples.shorthand_remote = false
   /\ @matcher.Match ref.runtime [examples.blank_rule]
        (Some examples.shorthand_remote)
      = Ok {| matcher.Rule := examples.blank_rule;
              matcher.Score := 0;
              matcher.Index := 0 |})
  /\ (@spec.candidate_claimed ref.runtime examples.fallback_rule
        examples.shorthand_remote = true
      /\ @spec.candidate_claimed ref.runtime examples.huge_rule
           examples.shorthand_remote = true
      /\ @spec.score_claimed ref.runtime examples.fallback_rule
           examples.shorthand_remote
         < @spec.score_claimed ref.runtime examples.huge_rule
             examples.shorthand_remote
      /\ @matcher.Match ref.runtime
           [examples.fallback_rule; examples.huge_rule]
           (Some examples.shorthand_remote)
         = Ok {| matcher.Rule := examples.fallback_rule;
                 matcher.Score := 0;
                 matcher.Index := 0 |}).
Proof.
  repeat split; vm_compute; reflexivity.
Qed.

(** ** Priority against specificity *)

(** C3, as the code has it.  For two candidate rules, the one with the
    strictly higher priority has the strictly higher score, and the other
    one is never the rule [Match] returns from a list containing both,
    provided the patterns of the lower-priority rule have fewer than 200
    literal characters together and neither score overflows an [int]. *)
Theorem higher_priority_beats_short_patterns {rt : GoRuntime}
        (remote : giturl.ParsedRemote) (hi lo : config.Rule) :
  spec.candidate hi remote = true ->
  spec.candidate lo remote = true ->
  config.Priority lo < config.Priority hi ->
  spec.literal_count (spec.host_pattern lo)
  + spec.literal_count (spec.owner_pattern lo) < 200 ->
  fits_int (spec.score_exact hi remote) ->
  fits_int (spec.score_exact lo remote) ->
  snd (matcher.matchRule lo remote) < snd (matcher.matchRule hi remote)
  /\ (forall rules m,
         In hi rules ->
         matcher.Match rules (Some remote) = Ok m ->
         matcher.Rule m <> lo).
Proof.
  intros Hhi Hlo Hprio Hshort Hfhi Hflo.
  assert (Hlt : spec.score lo remote < spec.score hi remote).
  { unfold spec.score. rewrite !wrap_int_fits by assumption.
    unfold spec.score_exact.
    pose proof (specificityScore_range (spec.host_pattern lo) (spec.host_value remote)).
    pose proof (specificityScore_range (spec.owner_pattern lo) (spec.owner_value remote)).
    pose proof (specificityScore_range (spec.host_pattern hi) (spec.host_value remote)).
    pose proof (specificityScore_range (spec.owner_pattern hi) (spec.owner_value remote)).
    pose proof (literal_count_nonneg (spec.host_pattern hi)).
    pose proof (literal_count_nonneg (spec.owner_pattern hi)).
    lia. }
  split.
  - rewrite !matchRule_spec, Hhi, Hlo. exact Hlt.
  - intros rules m Hin E Hm.
    destruct (Match_ok_spec _ _ _ E) as [_ [_ [Hs [Hall _]]]].
    destruct (In_nth_error _ _ Hin) as [j Hj].
    specialize (Hall j hi Hj Hhi). rewrite Hs, Hm in Hall. lia.
Qed.

Lemma higher_priority_beats_short_patterns_witness :
  @spec.candidate ref.runtime examples.forced_rule examples.shorthand_remote = true
  /\ @spec.candidate ref.runtime examples.work_rule examples.shorthand_remote = true
  /\ config.Priority examples.work_rule < config.Priority examples.forced_rule
  /\ spec.literal_count (@spec.host_pattern ref.runtime examples.work_rule)
     + spec.literal_count (@spec.owner_pattern ref.runtime examples.work_rule) < 200
  /\ fits_int (@spec.score_exact ref.runtime examples.forced_rule
                 examples.shorthand_remote)
  /\ fits_int (@spec.score_exact ref.runtime examples.work_rule
                 examples.shorthand_remote)
  /\ snd (@matcher.matchRule ref.runtime examples.work_rule
            examples.shorthand_remote)
     < snd (@matcher.matchRule ref.runtime examples.forced_rule
              examples.shorthand_remote)
  /\ (forall rules m,
         In examples.forced_rule rules ->
         @matcher.Match ref.runtime rules (Some examples.shorthand_remote) = Ok m ->
         matcher.Rule m <> examples.work_rule).
Proof.
  assert (Hfits : forall z, (int_min <=? z) && (z <=? int_max) = true -> fits_int z).
  { intros z H. apply andb_true_iff in H as [H1 H2].
    split; [now apply Z.leb_le|now apply Z.leb_le]. }
  split; [vm_compute; reflexivity|].
  split; [vm_compute; reflexivity|].
  split; [vm_compute; reflexivity|].
  split; [vm_compute; reflexivity|].
  split; [apply Hfits; vm_compute; reflexivity|].
  split; [apply Hfits; vm_compute; reflexivity|].
  apply (@higher_priority_beats_short_patterns ref.runtime
           examples.shorthand_remote examples.forced_rule examples.work_rule).
  - vm_compute. reflexivity.
  - vm_compute. reflexivity.
  - vm_compute. reflexivity.
  - vm_compute. reflexivity.
  - apply Hfits. vm_compute. reflexivity.
  - apply Hfits. vm_compute. reflexivity.
Defined.

(** C3 as stated fails: a priority-0 rule whose literal patterns have 201
    characters together scores 1001 and is returned instead of the
    priority-1 fallback, which scores 1000; and a priority whose product
    with 1000 does not fit an [int] loses to priority 0. *)
Lemma long_patterns_beat_higher_priority :
  (@giturl.Parse ref.runtime examples.long_url = Ok examples.long_remote
   /\ @spec.candidate ref.runtime examples.forced_rule examples.long_remote = true
   /\ @spec.candidate ref.runtime examples.long_rule examples.long_remote = true
   /\ config.Priority examples.long_rule < config.Priority examples.forced_rule
   /\ snd (@matcher.matchRule ref.runtime examples.forced_rule
             examples.long_remote) = 1000
   /\ snd (@matcher.matchRule ref.runtime examples.long_rule
             examples.long_remote) = 1001
   /\ @matcher.Match ref.runtime [examples.forced_rule; examples.long_rule]
        (Some examples.long_remote)
      = Ok {| matcher.Rule := examples.long_rule;
              matcher.Score := 1001;
              matcher.Index := 1 |})
  /\ (config.Priority examples.fallback_rule < config.Priority examples.huge_rule
      /\ snd (@matcher.matchRule ref.runtime examples.huge_rule
                examples.shorthand_remote) = -1000
      /\ @matcher.Match ref.runtime [examples.huge_rule; examples.fallback_rule]
           (Some examples.shorthand_remote)
         = Ok {| matcher.Rule := examples.fallback_rule;
                 matcher.Score := 0;
                 matcher.Index := 1 |}).
Proof.
  repeat split; vm_compute; reflexivity.
Qed.


(** * Further properties *)

(** ** The parsed remote *)

(** X1.  The ssh target of a remote parsed from the shorthand form gives
    the input back: the input is the target, a colon and the path when a
    user was written, and the host, a colon and the path otherwise, the
    target then naming the user [git]. *)
Theorem TargetUserHost_restores_shorthand {rt : GoRuntime}
        (s : string) (p : giturl.ParsedRemote) :
  giturl.parseSCPLike s = Ok p ->
  exists rawPath,
    rawPath <> ""
    /\ (giturl.User p <> "" ->
        s = (remote.TargetUserHost p ++ ":" ++ rawPath)%string)
    /\ (giturl.User p = "" ->
        remote.TargetUserHost p = ("git@" ++ giturl.Host p)%string
        /\ s = (giturl.Host p ++ ":" ++ rawPath)%string).
Proof.
  intros H.
  destruct (parseSCPLike_ok _ _ H) as [rawPath [Hre _]].
  destruct (scpLikeRe_groups _ _ _ _ Hre) as [Hs [_ [_ [Hp _]]]].
  exists rawPath. split; [exact Hp|].
  unfold remote.TargetUserHost. split.
  - intros Hu. rewrite (string_eqb_false _ _ Hu) in *.
    rewrite Hs at 1. now rewrite !string_app_assoc.
  - intros Hu. rewrite Hu in *. simpl in *. split; [reflexivity|exact Hs].
Qed.

Lemma TargetUserHost_restores_shorthand_witness :
  @giturl.parseSCPLike ref.runtime examples.shorthand_url
  = Ok examples.shorthand_remote
  /\ exists rawPath,
      rawPath <> ""
      /\ (giturl.User examples.shorthand_remote <> "" ->
          examples.shorthand_url
          = (remote.TargetUserHost examples.shorthand_remote
               ++ ":" ++ rawPath)%string)
      /\ (giturl.User examples.shorthand_remote = "" ->
          remote.TargetUserHost examples.shorthand_remote
          = ("git@" ++ giturl.Host examples.shorthand_remote)%string
          /\ examples.shorthand_url
             = (giturl.Host examples.shorthand_remote ++ ":" ++ rawPath)%string).
Proof.
  split; [vm_compute; reflexivity|].
  apply (@TargetUserHost_restores_shorthand ref.runtime).
  vm_compute. reflexivity.
Defined.

(** ** The reference runtime obeys the laws *)

Lemma trim_left_head (s : string) :
  match ref.trim_left s with
  | EmptyString => True
  | String c _ => ref.is_space c = false
  end.
Proof.
  induction s as [|c s IH]; simpl; [exact I|].
  destruct (ref.is_space c) eqn:Hc; [exact IH|exact Hc].
Qed.

Lemma trim_left_fixed (s : string) :
  match s with
  | EmptyString => True
  | String c _ => ref.is_space c = false
  end ->
  ref.trim_left s = s.
Proof. destruct s as [|c s]; simpl; [reflexivity|]. now intros ->. Qed.

Lemma trim_right_idempotent (s : string) :
  ref.trim_right (ref.trim_right s) = ref.trim_right s.
Proof.
  induction s as [|c s IH]; [reflexivity|].
  cbn [ref.trim_right].
  destruct (String.eqb (ref.trim_right s) "" && ref.is_space c) eqn:Hcut;
    [reflexivity|].
  cbn [ref.trim_right]. rewrite IH, Hcut. reflexivity.
Qed.

Lemma trim_right_head (s : string) :
  match s with
  | EmptyString => True
  | String c _ => ref.is_space c = false
  end ->
  match ref.trim_right s with
  | EmptyString => True
  | String c _ => ref.is_space c = false
  end.
Proof.
  destruct s as [|c s]; [intros _; exact I|].
  intros Hc. cbn [ref.trim_right]. rewrite Hc, andb_false_r. exact Hc.
Qed.

Lemma ref_TrimSpace_idempotent : laws.TrimSpace_idempotent ref.runtime.
Proof.
  intros s. cbn. unfold ref.TrimSpace.
  rewrite (trim_left_fixed (ref.trim_right (ref.trim_left s))).
  - apply trim_right_idempotent.
  - apply trim_right_head, trim_left_head.
Qed.

Lemma ref_EqualFold_reflexive : laws.EqualFold_reflexive ref.runtime.
Proof. intros s. cbn. unfold ref.EqualFold. apply String.eqb_refl. Qed.

(** ** What [Parse] keeps of its input *)

(** X2.  [Parse] works on the white-space-trimmed input: an input that is
    empty after trimming is rejected as empty, the [Original] of a parsed
    remote is the trimmed input (not the input as given), and, the
    trimming being idempotent, parsing the trimmed input gives the same
    result. *)
Theorem Parse_reads_trimmed_input {rt : GoRuntime} (input : string) :
  laws.TrimSpace_idempotent rt ->
  (strings_TrimSpace input = "" -> giturl.Parse input = Err ErrEmptyURL)
  /\ (forall p, giturl.Parse input = Ok p ->
                giturl.Original p = strings_TrimSpace input
                /\ strings_TrimSpace input <> "")
  /\ giturl.Parse (strings_TrimSpace input) = giturl.Parse input.
Proof.
  intros Hidem. unfold giturl.Parse. rewrite Hidem.
  split; [intros ->; reflexivity|]. split; [|reflexivity].
  intros p.
  destruct (String.eqb_spec (strings_TrimSpace input) "") as [|Hne];
    [discriminate|].
  destruct (strings.Contains (strings_TrimSpace input) "://").
  - unfold giturl.parseURL.
    destruct (url_Parse _) as [u|]; [|discriminate].
    destruct (String.eqb (url.Hostname u) ""); [discriminate|].
    destruct (giturl.splitRepoPath (url.Path u)) as [[[o r] c]|e];
      [|discriminate].
    intros H. inversion H; subst. split; [reflexivity|exact Hne].
  - unfold giturl.parseSCPLike.
    destruct (giturl.scpLikeRe_FindStringSubmatch _) as [[[u h] rawPath]|];
      [|discriminate].
    destruct (giturl.splitRepoPath rawPath) as [[[o r] c]|e]; [|discriminate].
    intros H. inversion H; subst. split; [reflexivity|exact Hne].
Qed.

Lemma Parse_reads_trimmed_input_witness :
  laws.TrimSpace_idempotent ref.runtime
  /\ @giturl.Parse ref.runtime
       (@strings_TrimSpace ref.runtime " git@github.com:CompanyOrg/project.git ")
     = @giturl.Parse ref.runtime " git@github.com:CompanyOrg/project.git ".
Proof.
  split; [exact ref_TrimSpace_idempotent|].
  exact (proj2 (proj2 (@Parse_reads_trimmed_input ref.runtime
                         " git@github.com:CompanyOrg/project.git "
                         ref_TrimSpace_idempotent))).
Defined.

(** ** The shape of owner, repository and path *)

Lemma clean_elems_all (P : string -> Prop) (rooted : bool)
      (elems : list string) :
  P ".." ->
  (forall e, In e elems -> P e) ->
  forall out : list string,
    (forall e, In e out -> P e) ->
    forall e, In e (path.clean_elems rooted elems out) -> P e.
Proof.
  intros Hdd. induction elems as [|x elems IH]; intros Hel out Hout e; simpl.
  - rewrite <- in_rev. apply Hout.
  - assert (Hrest : forall y, In y elems -> P y)
      by (intros y Hy; apply Hel; now right).
    destruct (String.eqb x "" || String.eqb x "."); [now apply IH|].
    destruct (String.eqb x "..").
    + destruct out as [|top out'].
      * destruct rooted; apply IH; try assumption.
        intros y [<-|[]]. exact Hdd.
      * destruct (String.eqb top "..").
        -- destruct rooted; apply IH; try assumption.
           intros y [<-|Hy]; [exact Hdd|now apply Hout].
        -- apply IH; [assumption|]. intros y Hy. apply Hout. now right.
    + apply IH; [assumption|].
      intros y [<-|Hy]; [apply Hel; now left|now apply Hout].
Qed.

Lemma take_IndexByte (c : ascii) (n : nat) (s : string) :
  strings.IndexByte s c = false -> strings.IndexByte (strings.take n s) c = false.
Proof.
  revert s. induction n as [|n IH]; intros s H; [reflexivity|].
  destruct s as [|d s]; [reflexivity|].
  simpl in *. apply orb_false_iff in H as [Hd Hs].
  rewrite Hd. now apply IH.
Qed.

Lemma TrimSuffix_IndexByte (c : ascii) (s suffix : string) :
  strings.IndexByte s c = false ->
  strings.IndexByte (strings.TrimSuffix s suffix) c = false.
Proof.
  intros H. unfold strings.TrimSuffix.
  destruct (strings.HasSuffix s suffix); [now apply take_IndexByte|exact H].
Qed.

Lemma last_In (l : list string) (d : string) : l <> [] -> In (last l d) l.
Proof.
  induction l as [|a [|b l] IH]; intros H.
  - contradiction.
  - now left.
  - right. apply IH. discriminate.
Qed.

Lemma splitRepoPath_ok_shape {rt : GoRuntime}
      (rawPath owner repo cleanPath : string) :
  giturl.splitRepoPath rawPath = Ok (owner, repo, cleanPath) ->
  let segs := spec.segments (spec.trim_path rawPath) in
  (2 <= List.length segs)%nat
  /\ repo = strings.TrimSuffix (last segs "") ".git"
  /\ cleanPath = strings.Join segs "/"
  /\ path.clean_elems false (removelast segs) [] <> []
  /\ owner = strings.Join (path.clean_elems false (removelast segs) []) "/".
Proof.
  intros H. cbv zeta.
  pose proof (splitRepoPath_normalised rawPath) as Hn.
  rewrite H in Hn. cbn [spec.outcome] in Hn.
  unfold giturl.splitRepoPath in H. fold (spec.trim_path rawPath) in H.
  cbv zeta in H. fold (spec.segments (spec.trim_path rawPath)) in H.
  unfold spec.split_normalised in Hn.
  set (segs := spec.segments (spec.trim_path rawPath)) in *.
  destruct (String.eqb (spec.trim_path rawPath) ""); [discriminate|].
  destruct (Nat.ltb_spec (List.length segs) 2) as [Hlen|Hlen]; [discriminate|].
  destruct (String.eqb (strings.TrimSuffix (last segs "") ".git") "");
    [discriminate|].
  split; [exact Hlen|].
  destruct (path.clean_elems false (removelast segs) []) as [|k kept] eqn:Hk;
    [discriminate|].
  inversion Hn; subst owner repo.
  split; [reflexivity|]. split.
  - match type of H with
    | (if ?b then _ else _) = _ => destruct b; [discriminate|]
    end.
    now inversion H.
  - split; [discriminate|reflexivity].
Qed.

(** X3.  The fields of a parsed remote are clean paths: the repository
    name has no slash; the ownership path is a join of one or more
    segments, none of them empty, [.] or containing a slash; and the raw
    path is the join of the non-empty segments of the path, the last of
    which is the repository name with or without its [.git]. *)
Theorem Parse_fields_are_clean_paths {rt : GoRuntime}
        (input : string) (p : giturl.ParsedRemote) :
  giturl.Parse input = Ok p ->
  strings.IndexByte (giturl.Repo p) "/"%char = false
  /\ (exists kept,
         kept <> []
         /\ giturl.Owner p = strings.Join kept "/"
         /\ forall e, In e kept ->
                      e <> "" /\ e <> "."
                      /\ strings.IndexByte e "/"%char = false)
  /\ (exists segs,
         (2 <= List.length segs)%nat
         /\ giturl.RawPath p = strings.Join segs "/"
         /\ giturl.Repo p = strings.TrimSuffix (last segs "") ".git"
         /\ forall e, In e segs ->
                      e <> "" /\ strings.IndexByte e "/"%char = false).
Proof.
  intros H.
  assert (Hsplit : exists rawPath,
             giturl.splitRepoPath rawPath
             = Ok (giturl.Owner p, giturl.Repo p, giturl.RawPath p)).
  { unfold giturl.Parse in H.
    destruct (String.eqb _ ""); [discriminate|].
    destruct (strings.Contains _ "://").
    - now destruct (parseURL_ok _ _ H) as [_ Hs].
    - destruct (parseSCPLike_ok _ _ H) as [rawPath [_ [Hs _]]].
      now exists rawPath. }
  destruct Hsplit as [rawPath Hsplit].
  destruct (splitRepoPath_ok_shape _ _ _ _ Hsplit)
    as [Hlen [Hrepo [Hraw [Hkept Howner]]]].
  set (segs := spec.segments (spec.trim_path rawPath)) in *.
  assert (Hsegs : forall e, In e segs ->
                            e <> "" /\ strings.IndexByte e "/"%char = false)
    by (intros e He; exact (segments_spec _ _ He)).
  split; [|split].
  - rewrite Hrepo. apply TrimSuffix_IndexByte.
    apply Hsegs, last_In. destruct segs; [simpl in Hlen; lia|discriminate].
  - exists (path.clean_elems false (removelast segs) []).
    split; [exact Hkept|]. split; [exact Howner|].
    intros e He. split; [|split].
    + exact (proj1 (clean_elems_kept false (removelast segs) []
                      (fun y (Hy : In y []) => match Hy with end) e He)).
    + exact (proj2 (clean_elems_kept false (removelast segs) []
                      (fun y (Hy : In y []) => match Hy with end) e He)).
    + refine (clean_elems_all
                (fun y => strings.IndexByte y "/"%char = false)
                false (removelast segs) eq_refl _ [] _ e He).
      * intros y Hy. apply Hsegs. now apply In_removelast.
      * intros y [].
  - exists segs. repeat split; try assumption; now apply Hsegs.
Qed.

Lemma Parse_fields_are_clean_paths_witness :
  @giturl.Parse ref.runtime examples.shorthand_url = Ok examples.shorthand_remote
  /\ strings.IndexByte (giturl.Repo examples.shorthand_remote) "/"%char = false.
Proof.
  split; [vm_compute; reflexivity|].
  refine (proj1 (@Parse_fields_are_clean_paths ref.runtime
                   examples.shorthand_url examples.shorthand_remote _)).
  vm_compute. reflexivity.
Defined.

(** ** Appending a rule *)

Lemma Match_loop_app {rt : GoRuntime} (remote : giturl.ParsedRemote)
      (l1 l2 : list config.Rule) :
  forall (i : nat) (best : option matcher.MatchResult),
    matcher.Match_loop remote i (l1 ++ l2) best
    = matcher.Match_loop remote (i + List.length l1) l2
        (matcher.Match_loop remote i l1 best).
Proof.
  induction l1 as [|r l1 IH]; intros i best; simpl.
  - now rewrite Nat.add_0_r.
  - rewrite IH. f_equal. lia.
Qed.

(** X4.  Appending a rule to the list changes the outcome of [Match] only
    in favour of the new rule: if no rule matched before, the new rule is
    returned when it is a candidate; if a rule was returned before, it is
    still returned unless the new rule is a candidate with a strictly
    higher score.  So adding a rule never makes a remote unresolvable. *)
Theorem Match_after_append {rt : GoRuntime} (rules : list config.Rule)
        (rule : config.Rule) (remote : giturl.ParsedRemote) :
  giturl.Host remote <> "" ->
  let added := {| matcher.Rule := rule;
                  matcher.Score := spec.score rule remote;
                  matcher.Index := List.length rules |} in
  (forall m,
      matcher.Match rules (Some remote) = Ok m ->
      matcher.Match (rules ++ [rule]) (Some remote)
      = Ok (if spec.candidate rule remote
               && (matcher.Score m <? spec.score rule remote)
            then added else m))
  /\ (forall e,
         matcher.Match rules (Some remote) = Err e ->
         matcher.Match (rules ++ [rule]) (Some remote)
         = if spec.candidate rule remote then Ok added else Err e).
Proof.
  intros Hhost added. unfold matcher.Match.
  rewrite (string_eqb_false _ _ Hhost).
  rewrite Match_loop_app. cbn [matcher.Match_loop Nat.add].
  rewrite Match_step_spec. fold added.
  destruct (matcher.Match_loop remote 0 rules None) as [b|]; split.
  - intros m E. inversion E; subst b.
    destruct (spec.candidate rule remote); [|reflexivity].
    cbn [andb]. destruct (matcher.Score m <? spec.score rule remote);
      reflexivity.
  - discriminate.
  - discriminate.
  - intros e E. inversion E; subst e.
    destruct (spec.candidate rule remote); reflexivity.
Qed.

Lemma Match_after_append_witness :
  giturl.Host examples.shorthand_remote <> ""
  /\ @matcher.Match ref.runtime ([examples.wild_rule] ++ [examples.work_rule])
       (Some examples.shorthand_remote)
     = Ok {| matcher.Rule := examples.work_rule;
             matcher.Score := 820;
             matcher.Index := 1 |}.
Proof.
  split; [discriminate|].
  refine (proj1 (@Match_after_append ref.runtime [examples.wild_rule]
                   examples.work_rule examples.shorthand_remote _)
            {| matcher.Rule := examples.wild_rule;
               matcher.Score := 410;
               matcher.Index := 0 |} _).
  - discriminate.
  - vm_compute. reflexivity.
Defined.

(** ** Literal against wildcard *)

Lemma literal_count_star : spec.literal_count "*" = 0.
Proof. vm_compute. reflexivity. Qed.

Lemma specificityScore_literal {rt : GoRuntime} (pattern value : string) :
  matcher.hasWildcard pattern = false ->
  300 <= matcher.specificityScore pattern value.
Proof.
  intros Hw. unfold matcher.specificityScore.
  destruct (String.eqb_spec pattern "*") as [->|_]; [discriminate|].
  rewrite Hw. simpl. destruct (strings_EqualFold pattern value); lia.
Qed.

Lemma specificityScore_star {rt : GoRuntime} (value : string) :
  matcher.specificityScore "*" value = 0.
Proof. reflexivity. Qed.

(** X5.  Of two candidate rules with the same priority and the same host
    pattern, one with the owner pattern [*] and one with an owner pattern
    without wildcard, the second has the higher score, by 300 at least,
    and the first is never the rule [Match] returns from a list that
    contains the second (scores within the range of an [int]). *)
Theorem literal_owner_beats_wildcard {rt : GoRuntime}
        (remote : giturl.ParsedRemote) (wild exact : config.Rule) :
  spec.candidate wild remote = true ->
  spec.candidate exact remote = true ->
  config.Priority wild = config.Priority exact ->
  spec.host_pattern wild = spec.host_pattern exact ->
  spec.owner_pattern wild = "*" ->
  matcher.hasWildcard (spec.owner_pattern exact) = false ->
  fits_int (spec.score_exact wild remote) ->
  fits_int (spec.score_exact exact remote) ->
  snd (matcher.matchRule wild remote) + 300
  <= snd (matcher.matchRule exact remote)
  /\ (forall rules m,
         In exact rules ->
         matcher.Match rules (Some remote) = Ok m ->
         matcher.Rule m <> wild).
Proof.
  intros Hw He Hprio Hhost Hstar Hlit Hfw Hfe.
  assert (Hlt : spec.score wild remote + 300 <= spec.score exact remote).
  { unfold spec.score. rewrite !wrap_int_fits by assumption.
    unfold spec.score_exact. rewrite Hprio, Hhost, Hstar.
    rewrite specificityScore_star, literal_count_star.
    pose proof (specificityScore_literal (spec.owner_pattern exact)
                  (spec.owner_value remote) Hlit).
    pose proof (literal_count_nonneg (spec.owner_pattern exact)).
    lia. }
  split.
  - rewrite !matchRule_spec, Hw, He. exact Hlt.
  - intros rules m Hin E Hm.
    destruct (Match_ok_spec _ _ _ E) as [_ [_ [Hs [Hall _]]]].
    destruct (In_nth_error _ _ Hin) as [j Hj].
    specialize (Hall j exact Hj He). rewrite Hs, Hm in Hall. lia.
Qed.

Lemma literal_owner_beats_wildcard_witness :
  @spec.candidate ref.runtime examples.wild_rule examples.shorthand_remote = true
  /\ snd (@matcher.matchRule ref.runtime examples.wild_rule
            examples.shorthand_remote) + 300
     <= snd (@matcher.matchRule ref.runtime examples.work_rule
               examples.shorthand_remote).
Proof.
  assert (Hfits : forall z, (int_min <=? z) && (z <=? int_max) = true
                            -> fits_int z).
  { intros z H. apply andb_true_iff in H as [H1 H2].
    split; [now apply Z.leb_le|now apply Z.leb_le]. }
  split; [vm_compute; reflexivity|].
  refine (proj1 (@literal_owner_beats_wildcard ref.runtime
                   examples.shorthand_remote examples.wild_rule
                   examples.work_rule _ _ _ _ _ _ _ _));
    try (vm_compute; reflexivity);
    apply Hfits; vm_compute; reflexivity.
Defined.

(** ** The catch-all rule and nested namespaces *)

Lemma Contains_slash (s : string) :
  strings.Contains s "/" = strings.IndexByte s "/"%char.
Proof.
  induction s as [|d s IH]; [reflexivity|].
  cbn [strings.Contains strings.IndexByte]. rewrite IH.
  unfold strings.HasPrefix. cbn [String.prefix].
  destruct (ascii_dec "/" d) as [<-|Hd].
  - rewrite prefix_nil. reflexivity.
  - destruct (Ascii.eqb_spec d "/"%char) as [->|_]; [contradiction|reflexivity].
Qed.

Lemma ref_star_stops_at_slash : laws.star_stops_at_slash ref.runtime.
Proof.
  intros name.
  change (filepath.Match "*" name
          = (negb (strings.IndexByte name "/"%char), None)).
  rewrite filepath_Match_star. now rewrite Contains_slash.
Qed.

Lemma ref_ToLower_keeps_slash : laws.ToLower_keeps_slash ref.runtime.
Proof.
  intros s.
  change (strings.IndexByte (ref.ToLower s) "/"%char
          = strings.IndexByte s "/"%char).
  induction s as [|c s IH]; [reflexivity|].
  cbn [ref.ToLower strings.IndexByte]. rewrite IH. f_equal.
  destruct c as [[] [] [] [] [] [] [] []]; vm_compute; reflexivity.
Qed.

(** X6.  A rule whose two patterns are [*] (or empty, which is read as
    [*]) is a candidate exactly for the remotes whose host and ownership
    path contain no slash: the [*] of [filepath.Match] does not cross a
    slash.  So the catch-all rule does not match a remote in a nested
    namespace, and [Match] with that rule alone fails on it. *)
Theorem catch_all_rule_stops_at_slash {rt : GoRuntime}
        (r : config.Rule) (remote : giturl.ParsedRemote) :
  laws.star_stops_at_slash rt ->
  laws.ToLower_keeps_slash rt ->
  spec.host_pattern r = "*" ->
  spec.owner_pattern r = "*" ->
  spec.candidate r remote
  = negb (strings.IndexByte (giturl.Host remote) "/"%char)
    && negb (strings.IndexByte (giturl.Owner remote) "/"%char)
  /\ (giturl.Host remote <> "" ->
      strings.IndexByte (giturl.Owner remote) "/"%char = true ->
      matcher.Match [r] (Some remote)
      = Err (ErrNoRuleMatched (giturl.Host remote) (giturl.Owner remote))).
Proof.
  intros Hstar Hlower Hh Ho.
  assert (Hc : spec.candidate r remote
               = negb (strings.IndexByte (giturl.Host remote) "/"%char)
                 && negb (strings.IndexByte (giturl.Owner remote) "/"%char)).
  { unfold spec.candidate, matcher.glob_ok. rewrite Hh, Ho, !Hstar.
    unfold spec.host_value, spec.owner_value. now rewrite !Hlower. }
  split; [exact Hc|].
  intros Hhost Hslash. unfold matcher.Match.
  rewrite (string_eqb_false _ _ Hhost).
  cbn [matcher.Match_loop]. rewrite Match_step_spec, Hc, Hslash.
  now rewrite andb_false_r.
Qed.

Lemma catch_all_rule_stops_at_slash_witness :
  laws.star_stops_at_slash ref.runtime
  /\ laws.ToLower_keeps_slash ref.runtime
  /\ (exists p,
         @giturl.Parse ref.runtime "git@gitlab.com:Group/subgroup/repo.git"
         = Ok p
         /\ giturl.Owner p = "Group/subgroup"
         /\ @matcher.Match ref.runtime [examples.fallback_rule] (Some p)
            = Err (ErrNoRuleMatched "gitlab.com" "Group/subgroup")).
Proof.
  split; [exact ref_star_stops_at_slash|].
  split; [exact ref_ToLower_keeps_slash|].
  eexists. split; [vm_compute; reflexivity|]. split; [reflexivity|].
  refine (proj2 (@catch_all_rule_stops_at_slash ref.runtime
                   examples.fallback_rule _
                   ref_star_stops_at_slash ref_ToLower_keeps_slash _ _) _ _);
    try (vm_compute; reflexivity).
  discriminate.
Defined.

(** ** Quoting for the shell *)

(** X7.  A shell reads [shellQuote s] back as the single field [s],
    whatever [s] contains (spaces, quotes, operators, nothing at all); so
    [shellQuote] is injective. *)
Theorem shellQuote_is_one_field :
  (forall s : string, spec.sh_fields (runner.shellQuote s) = Some [s])
  /\ (forall s t : string, runner.shellQuote s = runner.shellQuote t -> s = t).
Proof.
  assert (Hfield : forall s : string,
             spec.sh_fields (runner.shellQuote s) = Some [s]).
  { intros s. rewrite shellQuote_general. unfold spec.sh_fields.
    cbn -[strings.ReplaceAll runner.quote_escape].
    change ("'")%string with (String "'" "").
    rewrite sh_lex_single_quoted. reflexivity. }
  split; [exact Hfield|].
  intros s t H. pose proof (Hfield s) as Hs. rewrite H, Hfield in Hs.
  now inversion Hs.
Qed.

(** ** Positional arguments *)

Lemma positional_scan_In_bounded (n : nat) :
  forall args : list string,
    (List.length args <= n)%nat ->
    forall p, In p (spec.positional_scan args) -> In p args.
Proof.
  induction n as [|n IH]; intros args Hlen p.
  - destruct args; [intros []|simpl in Hlen; lia].
  - destruct args as [|a rest]; [intros []|]. simpl in Hlen.
    cbn [spec.positional_scan].
    assert (Hrest : In p (spec.positional_scan rest) -> In p (a :: rest)).
    { intros Hp. right. apply (IH rest); [lia|exact Hp]. }
    destruct (String.eqb a "--"); [intros Hp; now right|].
    destruct (String.eqb a ""); [exact Hrest|].
    destruct (strings.HasPrefix a "-").
    + destruct (spec.is_value_flag a && negb (strings.Contains a "="));
        [|exact Hrest].
      destruct rest as [|v rest']; [intros []|].
      intros Hp. right. right. apply (IH rest'); [simpl in Hlen; lia|exact Hp].
    + intros [<-|Hp]; [now left|now apply Hrest].
Qed.

Lemma positional_scan_In (args : list string) :
  forall p, In p (spec.positional_scan args) -> In p args.
Proof. exact (positional_scan_In_bounded (List.length args) args (le_n _)). Qed.

Lemma positional_scan_plain_bounded (n : nat) :
  forall args : list string,
    (List.length args <= n)%nat ->
    ~ In "--" args ->
    forall p, In p (spec.positional_scan args) ->
              p <> "" /\ strings.HasPrefix p "-" = false.
Proof.
  induction n as [|n IH]; intros args Hlen Hdd p.
  - destruct args; [intros []|simpl in Hlen; lia].
  - destruct args as [|a rest]; [intros []|]. simpl in Hlen.
    cbn [spec.positional_scan].
    assert (Hrest : In p (spec.positional_scan rest) ->
                    p <> "" /\ strings.HasPrefix p "-" = false).
    { apply (IH rest); [lia|]. intros Hin. apply Hdd. now right. }
    destruct (String.eqb_spec a "--") as [->|_];
      [exfalso; apply Hdd; now left|].
    destruct (String.eqb_spec a "") as [|Hne]; [exact Hrest|].
    destruct (strings.HasPrefix a "-") eqn:Hdash.
    + destruct (spec.is_value_flag a && negb (strings.Contains a "="));
        [|exact Hrest].
      destruct rest as [|v rest']; [intros []|].
      apply (IH rest'); [simpl in Hlen; lia|].
      intros Hin. apply Hdd. right. now right.
    + intros [<-|Hp]; [split; assumption|now apply Hrest].
Qed.

Lemma positional_scan_plain (args : list string) :
  ~ In "--" args ->
  forall p, In p (spec.positional_scan args) ->
            p <> "" /\ strings.HasPrefix p "-" = false.
Proof.
  exact (positional_scan_plain_bounded (List.length args) args (le_n _)).
Qed.

Lemma InferGitTarget_argument (cmd : string) (rest : list string) :
  let t := fst (runner.InferGitTarget (cmd :: rest)) in
  (runner.Kind t = runner.TargetRemote ->
   In (runner.RemoteName t) rest
   /\ (~ In "--" rest ->
       runner.RemoteName t <> ""
       /\ strings.HasPrefix (runner.RemoteName t) "-" = false))
  /\ (runner.Kind t = runner.TargetURL ->
      In (runner.URL t) rest
      /\ (~ In "--" rest ->
          runner.URL t <> "" /\ strings.HasPrefix (runner.URL t) "-" = false)).
Proof.
  cbv zeta.
  assert (Hhead : forall args p0 ps,
             runner.positionalArgs args = p0 :: ps ->
             In p0 args
             /\ (~ In "--" args ->
                 p0 <> "" /\ strings.HasPrefix p0 "-" = false)).
  { intros args p0 ps Hpos. rewrite positionalArgs_scan in Hpos.
    split.
    - apply positional_scan_In. rewrite Hpos. now left.
    - intros Hdd. apply (positional_scan_plain args Hdd).
      rewrite Hpos. now left. }
  assert (Hsecond : forall args p0 p1 ps,
             runner.positionalArgs args = p0 :: p1 :: ps ->
             In p1 args
             /\ (~ In "--" args ->
                 p1 <> "" /\ strings.HasPrefix p1 "-" = false)).
  { intros args p0 p1 ps Hpos. rewrite positionalArgs_scan in Hpos.
    split.
    - apply positional_scan_In. rewrite Hpos. right. now left.
    - intros Hdd. apply (positional_scan_plain args Hdd).
      rewrite Hpos. right. now left. }
  assert (Hru : forall note,
             let t := fst (runner.remote_or_url cmd note rest) in
             (runner.Kind t = runner.TargetRemote ->
              In (runner.RemoteName t) rest
              /\ (~ In "--" rest ->
                  runner.RemoteName t <> ""
                  /\ strings.HasPrefix (runner.RemoteName t) "-" = false))
             /\ (runner.Kind t = runner.TargetURL ->
                 In (runner.URL t) rest
                 /\ (~ In "--" rest ->
                     runner.URL t <> ""
                     /\ strings.HasPrefix (runner.URL t) "-" = false))).
  { intros note. unfold runner.remote_or_url.
    destruct (runner.positionalArgs rest) as [|p0 ps] eqn:Hpos.
    - split; discriminate.
    - destruct (giturl.IsLikelyRemoteURL p0); cbn; split;
        try discriminate; intros _; exact (Hhead _ _ _ Hpos). }
  cbn [runner.InferGitTarget].
  destruct (String.eqb cmd "push" || String.eqb cmd "fetch"
            || String.eqb cmd "pull"); [apply Hru|].
  destruct (String.eqb cmd "clone").
  { destruct (runner.positionalArgs rest) as [|p0 ps] eqn:Hpos; cbn;
      split; try discriminate.
    intros _. exact (Hhead _ _ _ Hpos). }
  destruct (String.eqb cmd "ls-remote"); [apply Hru|].
  destruct (String.eqb cmd "remote"); [|split; discriminate].
  destruct rest as [|sub rest']; [split; discriminate|].
  destruct (String.eqb sub "set-url"); [|split; discriminate].
  destruct (runner.positionalArgs rest') as [|p0 [|p1 ps]] eqn:Hpos;
    try (split; discriminate).
  destruct (giturl.IsLikelyRemoteURL p1); [|split; discriminate].
  cbn. split; [discriminate|]. intros _.
  destruct (Hsecond _ _ _ _ Hpos) as [Hin Hplain].
  split; [now right|]. intros Hdd. apply Hplain.
  intros Hin'. apply Hdd. now right.
Qed.

(** X8.  The remote name or URL that [InferGitTarget] reports is always
    one of the arguments after the subcommand; and when no [--] occurs
    among them, it is neither empty nor a token that starts with [-]: a
    flag is never taken for the remote. *)
Theorem InferGitTarget_reports_an_argument (cmd : string) (rest : list string) :
  let t := fst (runner.InferGitTarget (cmd :: rest)) in
  (runner.Kind t = runner.TargetRemote ->
   In (runner.RemoteName t) rest
   /\ (~ In "--" rest ->
       runner.RemoteName t <> ""
       /\ strings.HasPrefix (runner.RemoteName t) "-" = false))
  /\ (runner.Kind t = runner.TargetURL ->
      In (runner.URL t) rest
      /\ (~ In "--" rest ->
          runner.URL t <> "" /\ strings.HasPrefix (runner.URL t) "-" = false)).
Proof. exact (InferGitTarget_argument cmd rest). Qed.

(** ** Merging the environment *)

Lemma prefix_app_r (a b : string) : String.prefix a (a ++ b) = true.
Proof.
  induction a as [|c a IH]; [apply prefix_nil|].
  cbn [String.append]. rewrite prefix_cons, Ascii.eqb_refl. exact IH.
Qed.

(** An entry [k=v] sets the variable [n] only if [n] is [k]. *)
Lemma entry_sets_name (n k v : string) :
  strings.IndexByte n "="%char = false ->
  strings.IndexByte k "="%char = false ->
  strings.HasPrefix (k ++ "=" ++ v) (n ++ "=") = String.eqb n k.
Proof.
  unfold strings.HasPrefix. revert k.
  induction n as [|a n IH]; intros k Hn Hk.
  - destruct k as [|b k].
    + cbn [String.append String.eqb].
      now rewrite prefix_cons, Ascii.eqb_refl, prefix_nil.
    + cbn [String.append String.eqb]. rewrite prefix_cons.
      simpl in Hk. apply orb_false_iff in Hk as [Hb _].
      rewrite Ascii.eqb_sym, Hb. reflexivity.
  - simpl in Hn. apply orb_false_iff in Hn as [Ha Hn].
    destruct k as [|b k]; cbn [String.append String.eqb].
    + rewrite prefix_cons, Ha. reflexivity.
    + rewrite prefix_cons. simpl in Hk.
      apply orb_false_iff in Hk as [_ Hk].
      destruct (Ascii.eqb a b); [now apply IH|reflexivity].
Qed.

(** A text that starts with [k=] sets the variable [n] only if [n] is
    [k]. *)
Lemma prefixed_sets_name (n k e : string) :
  strings.IndexByte n "="%char = false ->
  strings.IndexByte k "="%char = false ->
  strings.HasPrefix e (k ++ "=") = true ->
  strings.HasPrefix e (n ++ "=") = String.eqb n k.
Proof.
  unfold strings.HasPrefix. revert k e.
  induction n as [|a n IH]; intros k e Hn Hk He.
  - destruct k as [|b k]; [exact He|].
    destruct e as [|d e]; [discriminate|].
    cbn [String.append] in *. rewrite prefix_cons in *.
    apply andb_true_iff in He as [Hbd _].
    apply Ascii.eqb_eq in Hbd. subst d.
    simpl in Hk. apply orb_false_iff in Hk as [Hb _].
    rewrite Ascii.eqb_sym, Hb. reflexivity.
  - simpl in Hn. apply orb_false_iff in Hn as [Ha Hn].
    destruct e as [|d e]; [destruct k; discriminate|].
    destruct k as [|b k]; cbn [String.append String.eqb] in *;
      rewrite prefix_cons in *.
    + apply andb_true_iff in He as [Hd _]. apply Ascii.eqb_eq in Hd. subst d.
      rewrite Ha. reflexivity.
    + apply andb_true_iff in He as [Hbd He].
      apply Ascii.eqb_eq in Hbd. subst d.
      simpl in Hk. apply orb_false_iff in Hk as [_ Hk].
      destruct (Ascii.eqb a b); [now apply (IH k e)|reflexivity].
Qed.

Lemma is_name_no_eq (n : string) :
  env.is_name n = true -> strings.IndexByte n "="%char = false.
Proof.
  unfold env.is_name. intros H. apply andb_true_iff in H as [_ H].
  now apply negb_true_iff in H.
Qed.

(** What one round does to the entries of a variable. *)
Lemma mergeEnv_step_entries (n k v : string) (out : list string) :
  env.is_name n = true -> env.is_name k = true ->
  env.entries_of n (shell.mergeEnv_step out (k, v))
  = if String.eqb n k
    then (k ++ "=" ++ v)%string :: tl (env.entries_of k out)
    else env.entries_of n out.
Proof.
  intros Hn Hk.
  pose proof (is_name_no_eq _ Hn) as Hn'. pose proof (is_name_no_eq _ Hk) as Hk'.
  unfold shell.mergeEnv_step.
  rewrite (string_app_assoc k "=" v).
  set (entry := (k ++ "=" ++ v)%string).
  assert (Hentry : strings.HasPrefix entry (n ++ "=") = String.eqb n k)
    by (apply entry_sets_name; assumption).
  assert (Hloop : forall out,
             match shell.replace_first (k ++ "=") entry out with
             | Some out' =>
                 env.entries_of n out'
                 = if String.eqb n k
                   then entry :: tl (env.entries_of k out)
                   else env.entries_of n out
             | None =>
                 env.entries_of k out = []
             end).
  { clear out. induction out as [|e out IH]; [reflexivity|].
    cbn [shell.replace_first].
    destruct (strings.HasPrefix e (k ++ "=")) eqn:He.
    - unfold env.entries_of. cbn [filter]. rewrite Hentry, He.
      rewrite (prefixed_sets_name n k e Hn' Hk' He).
      destruct (String.eqb_spec n k) as [->|_]; reflexivity.
    - destruct (shell.replace_first (k ++ "=") entry out) as [out'|];
        cbn [option_map].
      + unfold env.entries_of in *. cbn [filter]. rewrite He.
        destruct (String.eqb_spec n k) as [->|Hnk].
        * rewrite He. exact IH.
        * rewrite IH. reflexivity.
      + unfold env.entries_of in *. cbn [filter]. now rewrite He. }
  specialize (Hloop out).
  destruct (shell.replace_first (k ++ "=") entry out) as [out'|];
    [exact Hloop|].
  unfold env.entries_of in *. rewrite filter_app. cbn [filter].
  rewrite Hentry.
  destruct (String.eqb_spec n k) as [->|_].
  - rewrite Hloop. reflexivity.
  - now rewrite app_nil_r.
Qed.

Lemma mergeEnv_fold_other (n : string) (extra : list (string * string)) :
  env.is_name n = true ->
  (forall k, In k (map fst extra) -> env.is_name k = true) ->
  ~ In n (map fst extra) ->
  forall out,
    env.entries_of n (fold_left shell.mergeEnv_step extra out)
    = env.entries_of n out.
Proof.
  intros Hn. induction extra as [|[k v] extra IH]; intros Hnames Hnot out;
    [reflexivity|].
  cbn [fold_left]. rewrite IH.
  - rewrite mergeEnv_step_entries;
      [|exact Hn|apply Hnames; now left].
    destruct (String.eqb_spec n k) as [->|_]; [|reflexivity].
    exfalso. apply Hnot. now left.
  - intros k' Hk'. apply Hnames. now right.
  - intros Hin. apply Hnot. now right.
Qed.

Lemma mergeEnv_fold_set (k v : string) (extra : list (string * string)) :
  NoDup (map fst extra) ->
  (forall k', In k' (map fst extra) -> env.is_name k' = true) ->
  In (k, v) extra ->
  forall out,
    env.entries_of k (fold_left shell.mergeEnv_step extra out)
    = (k ++ "=" ++ v)%string :: tl (env.entries_of k out).
Proof.
  induction extra as [|[k0 v0] extra IH]; intros Hnd Hnames Hin out;
    [contradiction|].
  cbn [map fst] in Hnd. inversion Hnd as [|? ? Hfresh Hnd']; subst.
  assert (Hk0 : env.is_name k0 = true) by (apply Hnames; now left).
  assert (Hrest : forall k', In k' (map fst extra) -> env.is_name k' = true)
    by (intros k' Hk'; apply Hnames; now right).
  cbn [fold_left]. destruct Hin as [E|Hin].
  - inversion E; subst k0 v0.
    rewrite (mergeEnv_fold_other k extra Hk0 Hrest Hfresh).
    rewrite mergeEnv_step_entries by assumption.
    now rewrite String.eqb_refl.
  - assert (Hk : env.is_name k = true).
    { apply Hrest. apply in_map_iff. now exists (k, v). }
    rewrite (IH Hnd' Hrest Hin).
    rewrite mergeEnv_step_entries by assumption.
    destruct (String.eqb_spec k k0) as [->|_]; [|reflexivity].
    exfalso. apply Hfresh. apply in_map_iff. now exists (k0, v).
Qed.

Lemma mergeEnv_is_fold (base : list string) (extra : list (string * string)) :
  shell.mergeEnv base extra = fold_left shell.mergeEnv_step extra base.
Proof. unfold shell.mergeEnv. destruct extra; reflexivity. Qed.

(** X9.  After [mergeEnv], for every order in which the map is visited,
    each variable of the map is set to the map's value: the entries for
    the variable are the new entry followed by the entries the base
    environment had for it beyond the first.  So the variable has the new
    value as its only entry whenever the base environment set it at most
    once; a second entry of the base environment is left in place. *)
Theorem mergeEnv_sets_the_variables (base : list string)
        (extra : list (string * string)) (k v : string) :
  env.names_ok extra ->
  In (k, v) extra ->
  env.entries_of k (shell.mergeEnv base extra)
  = (k ++ "=" ++ v)%string :: tl (env.entries_of k base)
  /\ ((List.length (env.entries_of k base) <= 1)%nat ->
      env.entries_of k (shell.mergeEnv base extra) = [(k ++ "=" ++ v)%string]).
Proof.
  intros [Hnd Hnames] Hin. rewrite mergeEnv_is_fold.
  rewrite (mergeEnv_fold_set k v extra Hnd Hnames Hin).
  split; [reflexivity|].
  intros Hlen. destruct (env.entries_of k base) as [|e [|e' l]];
    simpl in *; try reflexivity; lia.
Qed.

Lemma mergeEnv_sets_the_variables_witness :
  env.names_ok [("GIT_SSH_COMMAND", "ssh -i k")]
  /\ In ("GIT_SSH_COMMAND", "ssh -i k") [("GIT_SSH_COMMAND", "ssh -i k")]
  /\ env.entries_of "GIT_SSH_COMMAND"
       (shell.mergeEnv ["HOME=/home/user"; "GIT_SSH_COMMAND=ssh"; "LANG=C"]
          [("GIT_SSH_COMMAND", "ssh -i k")])
     = ["GIT_SSH_COMMAND=ssh -i k"].
Proof.
  assert (Hok : env.names_ok [("GIT_SSH_COMMAND", "ssh -i k")]).
  { split.
    - repeat constructor. intros [].
    - intros k [<-|[]]. vm_compute. reflexivity. }
  split; [exact Hok|]. split; [now left|].
  exact (proj1 (mergeEnv_sets_the_variables
                  ["HOME=/home/user"; "GIT_SSH_COMMAND=ssh"; "LANG=C"]
                  [("GIT_SSH_COMMAND", "ssh -i k")]
                  "GIT_SSH_COMMAND" "ssh -i k" Hok (or_introl eq_refl))).
Defined.

Lemma mergeEnv_step_length (out : list string) (kv : string * string) :
  (List.length out <= List.length (shell.mergeEnv_step out kv)
   <= S (List.length out))%nat.
Proof.
  destruct kv as [k v]. unfold shell.mergeEnv_step.
  assert (Hloop : forall prefix entry out out',
             shell.replace_first prefix entry out = Some out' ->
             List.length out' = List.length out).
  { clear. intros prefix entry. induction out as [|e out IH]; intros out' H;
      [discriminate|].
    cbn [shell.replace_first] in H.
    destruct (strings.HasPrefix e prefix).
    - inversion H; subst. reflexivity.
    - destruct (shell.replace_first prefix entry out) as [o|];
        [|discriminate].
      inversion H; subst. simpl. now rewrite (IH o eq_refl). }
  destruct (shell.replace_first (k ++ "=") ((k ++ "=") ++ v) out) as [out'|]
    eqn:Hr.
  - rewrite (Hloop _ _ _ _ Hr). lia.
  - rewrite length_app. simpl. lia.
Qed.

(** X10.  [mergeEnv] leaves every other variable as it was: for a name
    that is not a key of the map, the entries are those of the base
    environment, in every visiting order; no entry is dropped, and at
    most one entry per key is added. *)
Theorem mergeEnv_keeps_the_other_variables (base : list string)
        (extra : list (string * string)) (n : string) :
  env.names_ok extra ->
  env.is_name n = true ->
  ~ In n (map fst extra) ->
  env.entries_of n (shell.mergeEnv base extra) = env.entries_of n base
  /\ (List.length base <= List.length (shell.mergeEnv base extra)
      <= List.length base + List.length extra)%nat.
Proof.
  intros [Hnd Hnames] Hn Hnot. rewrite mergeEnv_is_fold.
  split; [now apply mergeEnv_fold_other|].
  clear. revert base. induction extra as [|kv extra IH]; intros base.
  - simpl. lia.
  - cbn [fold_left List.length].
    pose proof (mergeEnv_step_length base kv).
    pose proof (IH (shell.mergeEnv_step base kv)). lia.
Qed.

Lemma mergeEnv_keeps_the_other_variables_witness :
  env.names_ok [("GIT_SSH_COMMAND", "ssh -i k")]
  /\ env.is_name "HOME" = true
  /\ ~ In "HOME" (map fst [("GIT_SSH_COMMAND", "ssh -i k")])
  /\ env.entries_of "HOME"
       (shell.mergeEnv ["HOME=/home/user"; "LANG=C"]
          [("GIT_SSH_COMMAND", "ssh -i k")])
     = env.entries_of "HOME" ["HOME=/home/user"; "LANG=C"].
Proof.
  assert (Hok : env.names_ok [("GIT_SSH_COMMAND", "ssh -i k")]).
  { split.
    - repeat constructor. intros [].
    - intros k [<-|[]]. vm_compute. reflexivity. }
  assert (Hnot : ~ In "HOME" (map fst [("GIT_SSH_COMMAND", "ssh -i k")])).
  { intros [H|[]]. discriminate. }
  split; [exact Hok|]. split; [vm_compute; reflexivity|].
  split; [exact Hnot|].
  exact (proj1 (mergeEnv_keeps_the_other_variables
                  ["HOME=/home/user"; "LANG=C"]
                  [("GIT_SSH_COMMAND", "ssh -i k")] "HOME"
                  Hok eq_refl Hnot)).
Defined.

(** ** The rule store: normal forms *)

Lemma Forall2_In_r {A B : Type} (R : A -> B -> Prop) (l : list A)
      (l' : list B) :
  Forall2 R l l' -> forall b, In b l' -> exists a, In a l /\ R a b.
Proof.
  induction 1 as [|a b l l' Hab _ IH]; intros b0 Hin; [destruct Hin|].
  destruct Hin as [<-|Hin].
  - exists a. split; [now left|assumption].
  - destruct (IH b0 Hin) as [a0 [Ha0 Hr]]. exists a0. split; [now right|assumption].
Qed.

Lemma ref_TrimSpace_keeps_star : laws.TrimSpace_keeps_star ref.runtime.
Proof. vm_compute. reflexivity. Qed.

Lemma newRuleID_nonempty (draw : option (N * N * N * N)) :
  rules.newRuleID draw <> "".
Proof. destruct draw as [[[[b0 b1] b2] b3]|]; discriminate. Qed.

Section StoreFacts.
Context {rt : GoRuntime}.

Lemma rules_normalizePattern_nonempty (s : string) :
  rules.normalizePattern s <> "".
Proof.
  unfold rules.normalizePattern.
  destruct (String.eqb_spec (strings_TrimSpace s) ""); [discriminate|assumption].
Qed.

Lemma normalizePattern_same (s : string) :
  rules.normalizePattern s = matcher.normalizePattern s.
Proof. reflexivity. Qed.

Lemma normalize_rule_spec (src : rules.entropy) (r : config.Rule) (n : nat) :
  store.normalised_from r (fst (rules.normalize_rule src r n))
  /\ (n <= snd (rules.normalize_rule src r n))%nat
  /\ (config.ID r <> "" -> snd (rules.normalize_rule src r n) = n).
Proof.
  unfold rules.normalize_rule, store.normalised_from.
  destruct (String.eqb_spec (config.ID r) "") as [Hid|Hid]; cbn.
  - repeat split; try lia.
    + apply newRuleID_nonempty.
    + intros H. contradiction.
    + intros H. contradiction.
  - repeat split; try lia; try assumption.
Qed.

Lemma normalize_rules_spec (src : rules.entropy) (rs : list config.Rule) :
  forall n,
    Forall2 store.normalised_from rs (fst (rules.normalize_rules src rs n))
    /\ (n <= snd (rules.normalize_rules src rs n))%nat.
Proof.
  induction rs as [|r rs IH]; intros n.
  - split; [constructor|simpl; lia].
  - cbn [rules.normalize_rules].
    destruct (normalize_rule_spec src r n) as [Hr [Hn _]].
    destruct (rules.normalize_rule src r n) as [r' n1]. cbn in Hr, Hn.
    destruct (IH n1) as [Hrs Hn1].
    destruct (rules.normalize_rules src rs n1) as [rs' n2]. cbn in *.
    split; [now constructor|lia].
Qed.

Lemma normalised_from_nonempty (r r' : config.Rule) :
  store.normalised_from r r' ->
  config.Host r' <> "" /\ config.Owner r' <> "" /\ config.ID r' <> "".
Proof.
  intros [Hh [Ho [_ [_ [Hid _]]]]]. rewrite Hh, Ho.
  repeat split; try assumption;
    apply rules_normalizePattern_nonempty.
Qed.

(** A configuration whose rules are normal and whose version is set is
    left as it is, and nothing is drawn. *)
Lemma normalize_rules_normal (src : rules.entropy) (rs : list config.Rule) :
  Forall store.is_normal rs ->
  forall n, rules.normalize_rules src rs n = (rs, n).
Proof.
  induction 1 as [|r rs [Hh [Ho [Hk Hid]]] _ IH]; intros n; [reflexivity|].
  cbn [rules.normalize_rules]. unfold rules.normalize_rule.
  rewrite (string_eqb_false _ _ Hid), Hh, Ho, Hk, IH.
  destruct r; reflexivity.
Qed.

Lemma normalizePattern_idempotent (s : string) :
  laws.TrimSpace_idempotent rt -> laws.TrimSpace_keeps_star rt ->
  rules.normalizePattern (rules.normalizePattern s) = rules.normalizePattern s.
Proof.
  intros Hidem Hstar. unfold rules.normalizePattern.
  destruct (String.eqb_spec (strings_TrimSpace s) "") as [He|Hne].
  - rewrite Hstar. reflexivity.
  - rewrite Hidem. now rewrite (string_eqb_false _ _ Hne).
Qed.

Lemma normalised_is_normal (r r' : config.Rule) :
  laws.TrimSpace_idempotent rt -> laws.TrimSpace_keeps_star rt ->
  store.normalised_from r r' -> store.is_normal r'.
Proof.
  intros Hidem Hstar [Hh [Ho [Hk [_ [Hid _]]]]].
  unfold store.is_normal. rewrite Hh, Ho, Hk.
  repeat split; try assumption.
  - now apply normalizePattern_idempotent.
  - now apply normalizePattern_idempotent.
  - apply Hidem.
Qed.

Lemma Forall2_normal (rs rs' : list config.Rule) :
  laws.TrimSpace_idempotent rt -> laws.TrimSpace_keeps_star rt ->
  Forall2 store.normalised_from rs rs' -> Forall store.is_normal rs'.
Proof.
  intros Hidem Hstar. induction 1 as [|r r' rs rs' Hr _ IH]; constructor.
  - exact (normalised_is_normal r r' Hidem Hstar Hr).
  - exact IH.
Qed.

Lemma Normalize_normal (src : rules.entropy) (c : config.Config) (n : nat) :
  config.Version c <> 0 ->
  Forall store.is_normal (config.Rules c) ->
  rules.Normalize src c n = (c, n).
Proof.
  intros Hv Hrs. unfold rules.Normalize.
  rewrite (normalize_rules_normal src _ Hrs).
  destruct (Z.eqb_spec (config.Version c) 0); [contradiction|].
  destruct c; reflexivity.
Qed.

Lemma Normalize_spec (src : rules.entropy) (c : config.Config) (n : nat) :
  let c' := fst (rules.Normalize src c n) in
  config.Version c'
  = (if config.Version c =? 0 then 1 else config.Version c)
  /\ Forall2 store.normalised_from (config.Rules c) (config.Rules c')
  /\ (n <= snd (rules.Normalize src c n))%nat.
Proof.
  unfold rules.Normalize.
  destruct (normalize_rules_spec src (config.Rules c) n) as [Hrs Hn].
  destruct (rules.normalize_rules src (config.Rules c) n) as [rs' n'].
  cbn in *. repeat split; assumption.
Qed.

End StoreFacts.

(** X11.  [Normalize] keeps the rules in number and order and puts each
    in normal form: patterns and key trimmed, an empty pattern replaced
    by [*], the priority kept, an empty identifier replaced by a
    generated one and the others kept; afterwards no rule has an empty
    host pattern, owner pattern or identifier, and a version 0 has become
    1 (any other version, a negative one too, is kept). *)
Theorem Normalize_puts_rules_in_normal_form {rt : GoRuntime}
        (src : rules.entropy) (c : config.Config) (n : nat) :
  let c' := fst (rules.Normalize src c n) in
  config.Version c' = (if config.Version c =? 0 then 1 else config.Version c)
  /\ Forall2 store.normalised_from (config.Rules c) (config.Rules c')
  /\ List.length (config.Rules c') = List.length (config.Rules c)
  /\ (forall r', In r' (config.Rules c') ->
                 config.Host r' <> "" /\ config.Owner r' <> ""
                 /\ config.ID r' <> "").
Proof.
  cbv zeta. destruct (Normalize_spec src c n) as [Hv [Hrs _]].
  split; [exact Hv|]. split; [exact Hrs|].
  split; [symmetry; exact (Forall2_length Hrs)|].
  intros r' Hin.
  destruct (Forall2_In_r _ _ _ Hrs r' Hin) as [r [_ Hr]].
  exact (normalised_from_nonempty _ _ Hr).
Qed.

(** X12.  [Normalize] is idempotent and a second run generates no
    identifier: applied to a configuration it has produced, with any
    source of randomness, it returns that configuration and draws
    nothing (for a [TrimSpace] that is idempotent and keeps [*]). *)
Theorem Normalize_is_idempotent {rt : GoRuntime}
        (src src' : rules.entropy) (c : config.Config) (n m : nat) :
  laws.TrimSpace_idempotent rt ->
  laws.TrimSpace_keeps_star rt ->
  rules.Normalize src' (fst (rules.Normalize src c n)) m
  = (fst (rules.Normalize src c n), m).
Proof.
  intros Hidem Hstar.
  destruct (Normalize_spec src c n) as [Hv [Hrs _]].
  apply Normalize_normal.
  - rewrite Hv. destruct (Z.eqb_spec (config.Version c) 0); [discriminate|].
    assumption.
  - exact (Forall2_normal _ _ Hidem Hstar Hrs).
Qed.

Lemma Normalize_is_idempotent_witness :
  laws.TrimSpace_idempotent ref.runtime
  /\ laws.TrimSpace_keeps_star ref.runtime
  /\ @rules.Normalize ref.runtime store.some_entropy
       (fst (@rules.Normalize ref.runtime store.some_entropy
               store.example_config 0)) 7
     = (fst (@rules.Normalize ref.runtime store.some_entropy
               store.example_config 0), 7%nat).
Proof.
  split; [exact ref_TrimSpace_idempotent|].
  split; [exact ref_TrimSpace_keeps_star|].
  exact (@Normalize_is_idempotent ref.runtime store.some_entropy
           store.some_entropy store.example_config 0 7
           ref_TrimSpace_idempotent ref_TrimSpace_keeps_star).
Defined.

(** ** The rule store: adding and removing *)

Lemma find_split {A : Type} (f : A -> bool) (l : list A) :
  match find f l with
  | Some e => exists pre post,
                l = pre ++ e :: post /\ f e = true
                /\ Forall (fun x => f x = false) pre
  | None => Forall (fun x => f x = false) l
  end.
Proof.
  induction l as [|a l IH]; cbn [find]; [constructor|].
  destruct (f a) eqn:Hfa.
  - exists [], l. repeat split; [assumption|constructor].
  - destruct (find f l) as [e|].
    + destruct IH as [pre [post [-> [He Hpre]]]].
      exists (a :: pre), post. repeat split; [assumption|now constructor].
    + now constructor.
Qed.

Lemma nth_error_firstn_skipn {A : Type} (l : list A) :
  forall i a, nth_error l i = Some a ->
              l = firstn i l ++ a :: skipn (S i) l
              /\ List.length (firstn i l) = i.
Proof.
  induction l as [|x l IH]; intros [|i] a H; try discriminate.
  - injection H as ->. split; reflexivity.
  - cbn [nth_error] in H. destruct (IH i a H) as [Hl Hlen].
    cbn [firstn skipn app List.length]. split.
    + f_equal. exact Hl.
    + now rewrite Hlen.
Qed.

Section StoreOperations.
Context {rt : GoRuntime}.

Lemma remove_first_split (sel : rules.RemoveSelector)
      (rs : list config.Rule) :
  match rules.remove_first sel rs with
  | Some (r, rs') =>
      exists pre post,
        rs = pre ++ r :: post /\ rs' = pre ++ post
        /\ rules.selected sel r = true
        /\ Forall (fun x => rules.selected sel x = false) pre
  | None => Forall (fun x => rules.selected sel x = false) rs
  end.
Proof.
  induction rs as [|a rs IH]; cbn [rules.remove_first]; [constructor|].
  destruct (rules.selected sel a) eqn:Ha.
  - exists [], rs. repeat split; [assumption|constructor].
  - destruct (rules.remove_first sel rs) as [[r rs']|].
    + destruct IH as [pre [post [-> [-> [Hr Hpre]]]]].
      exists (a :: pre), post. repeat split; [assumption|now constructor].
    + now constructor.
Qed.

Lemma AddRule_spec (src : rules.entropy) (c : config.Config)
      (r : config.Rule) (force : bool) (n : nat) :
  store.added (fst (rules.Normalize src c n)) r force
              (fst (fst (rules.AddRule src c r force n)))
              (snd (rules.AddRule src c r force n)).
Proof.
  unfold rules.AddRule.
  destruct (rules.Normalize src c n) as [c0 n0]. cbn [fst].
  destruct (String.eqb_spec (strings_TrimSpace (config.Key r)) "")
    as [Hkey|Hkey].
  - cbn. split; [assumption|reflexivity].
  - set (id := if String.eqb (config.ID r) ""
               then (rules.newRuleID (src n0), S n0) else (config.ID r, n0)).
    assert (Hid : fst id <> "" /\ (config.ID r <> "" -> fst id = config.ID r)).
    { subst id. destruct (String.eqb_spec (config.ID r) "") as [He|He]; cbn.
      - split; [apply newRuleID_nonempty|intros H; contradiction].
      - split; [assumption|reflexivity]. }
    destruct id as [i n1]. cbn [fst] in Hid. destruct Hid as [Hi1 Hi2].
    set (r1 := {| config.ID := i;
                  config.Host := rules.normalizePattern (config.Host r);
                  config.Owner := rules.normalizePattern (config.Owner r);
                  config.Key := strings_TrimSpace (config.Key r);
                  config.Priority := config.Priority r |}).
    assert (Hr1 : store.normalised_from r r1).
    { unfold store.normalised_from, r1. cbn. repeat split; assumption. }
    pose proof (find_split (fun existing => rules.same_rule existing r1)
                           (config.Rules c0)) as Hfind.
    change (fun existing => rules.same_rule existing r1)
      with (fun x => store.duplicates x r) in *.
    destruct (find (fun x => store.duplicates x r) (config.Rules c0))
      as [e|].
    + destruct force; cbn.
      * split; [assumption|]. split; [discriminate|].
        exists r1. repeat split; assumption.
      * split; [assumption|]. split; [reflexivity|]. split; [reflexivity|].
        destruct Hfind as [pre [post [Hrs [He Hpre]]]].
        exists pre, e, post. repeat split; assumption.
    + cbn. split; [assumption|]. split; [intros _; assumption|].
      exists r1. repeat split; assumption.
Qed.

Lemma RemoveRule_spec (src : rules.entropy) (c : config.Config)
      (sel : rules.RemoveSelector) (n : nat) :
  store.removed (fst (rules.Normalize src c n)) sel
                (fst (fst (rules.RemoveRule src c sel n)))
                (snd (rules.RemoveRule src c sel n))
  /\ snd (fst (rules.RemoveRule src c sel n)) = snd (rules.Normalize src c n).
Proof.
  unfold rules.RemoveRule.
  destruct (rules.Normalize src c n) as [c0 n0]. cbn [fst snd].
  destruct (Z.ltb_spec 0 (rules.selIndex sel)) as [Hlo|Hlo];
    [destruct (Z.leb_spec (rules.selIndex sel)
                          (Z.of_nat (List.length (config.Rules c0))))
      as [Hhi|Hhi]|]; cbn [andb].
  - assert (Hlt : (Z.to_nat (rules.selIndex sel - 1)
                   < List.length (config.Rules c0))%nat) by lia.
    destruct (nth_error (config.Rules c0) (Z.to_nat (rules.selIndex sel - 1)))
      as [r|] eqn:Hnth.
    + destruct (nth_error_firstn_skipn _ _ _ Hnth) as [Hsplit Hlen].
      cbn. split; [|reflexivity]. split; [reflexivity|].
      eexists _, _. split; [exact Hsplit|]. split; [reflexivity|].
      split; [intros _; rewrite Hlen; lia|intros H; exfalso; apply H; lia].
    + apply nth_error_None in Hnth. lia.
  - pose proof (remove_first_split sel (config.Rules c0)) as H.
    destruct (rules.remove_first sel (config.Rules c0)) as [[r rs']|].
    + destruct H as [pre [post [Hrs [-> [Hr Hpre]]]]].
      cbn. split; [|reflexivity]. split; [reflexivity|].
      exists pre, post. split; [exact Hrs|]. split; [reflexivity|].
      split; [intros Hb; lia|intros _; split; assumption].
    + cbn. split; [|reflexivity]. split; [reflexivity|].
      split; [lia|assumption].
  - pose proof (remove_first_split sel (config.Rules c0)) as H.
    destruct (rules.remove_first sel (config.Rules c0)) as [[r rs']|].
    + destruct H as [pre [post [Hrs [-> [Hr Hpre]]]]].
      cbn. split; [|reflexivity]. split; [reflexivity|].
      exists pre, post. split; [exact Hrs|]. split; [reflexivity|].
      split; [intros Hb; lia|intros _; split; assumption].
    + cbn. split; [|reflexivity]. split; [reflexivity|].
      split; [lia|assumption].
Qed.

End StoreOperations.

(** X13.  What [AddRule] does, by its error.  It first normalises the
    configuration.  "key path is required": the trimmed key is empty and
    nothing else has changed.  "rule already exists (id=...)": [force] is
    off, nothing else has changed, and the identifier is that of the first
    rule that duplicates the new one.  No error: the key is not empty,
    the normalised rules are all kept in their order with the new rule,
    in normal form, appended as the last one, and without [force] no rule
    duplicated it. *)
Theorem AddRule_appends_or_rejects {rt : GoRuntime}
        (src : rules.entropy) (c : config.Config) (r : config.Rule)
        (force : bool) (n : nat) :
  store.added (fst (rules.Normalize src c n)) r force
              (fst (fst (rules.AddRule src c r force n)))
              (snd (rules.AddRule src c r force n)).
Proof. apply AddRule_spec. Qed.

(** X14.  What [RemoveRule] does, by its result.  It first normalises the
    configuration.  A rule is returned: exactly that one occurrence has
    been removed and the other rules keep their order; when [Index] is
    between 1 and the number of rules, it is the rule at that position,
    whatever the other fields of the selector say; otherwise it is the
    first rule that the selector names.  No rule is returned: [Index] is
    out of range, the selector names no rule, and only the normalisation
    has changed the configuration. *)
Theorem RemoveRule_removes_one_rule {rt : GoRuntime}
        (src : rules.entropy) (c : config.Config)
        (sel : rules.RemoveSelector) (n : nat) :
  store.removed (fst (rules.Normalize src c n)) sel
                (fst (fst (rules.RemoveRule src c sel n)))
                (snd (rules.RemoveRule src c sel n)).
Proof. apply RemoveRule_spec. Qed.

Lemma app_tail_unique {A : Type} (pre post l : list A) (x y : A) :
  pre ++ x :: post = l ++ [y] -> ~ In x l ->
  pre = l /\ x = y /\ post = [].
Proof.
  revert l. induction pre as [|a pre IH]; intros [|b l] H Hnot.
  - cbn in H. injection H as -> <-. repeat split.
  - cbn in H. injection H as -> _. exfalso. apply Hnot. now left.
  - cbn in H. injection H as -> H. destruct pre; discriminate.
  - cbn in H. injection H as -> H.
    destruct (IH l H) as [-> [-> ->]].
    + intros Hin. apply Hnot. now right.
    + repeat split.
Qed.

Section StoreRoundTrips.
Context {rt : GoRuntime}.

(** A configuration with one more rule, as [AddRule] leaves it, is in
    normal form. *)
Lemma added_is_normal (src : rules.entropy) (c : config.Config)
      (r : config.Rule) (force : bool) (n : nat) :
  laws.TrimSpace_idempotent rt -> laws.TrimSpace_keeps_star rt ->
  snd (rules.AddRule src c r force n) = None ->
  exists r',
    store.normalised_from r r'
    /\ config.Version (fst (fst (rules.AddRule src c r force n)))
       = config.Version (fst (rules.Normalize src c n))
    /\ config.Rules (fst (fst (rules.AddRule src c r force n)))
       = config.Rules (fst (rules.Normalize src c n)) ++ [r']
    /\ strings_TrimSpace (config.Key r) <> ""
    /\ forall src' m,
        rules.Normalize src' (fst (fst (rules.AddRule src c r force n))) m
        = (fst (fst (rules.AddRule src c r force n)), m).
Proof.
  intros Hidem Hstar Hok.
  pose proof (AddRule_spec src c r force n) as H. rewrite Hok in H.
  destruct H as [Hkey [_ [r' [Hr' [Hv Hrs]]]]].
  exists r'. split; [exact Hr'|]. split; [exact Hv|]. split; [exact Hrs|].
  split; [exact Hkey|].
  intros src' m. apply Normalize_normal.
  - rewrite Hv. destruct (Normalize_spec src c n) as [Hv0 _]. rewrite Hv0.
    destruct (Z.eqb_spec (config.Version c) 0); [discriminate|assumption].
  - rewrite Hrs. apply Forall_app. split.
    + destruct (Normalize_spec src c n) as [_ [H0 _]].
      exact (Forall2_normal _ _ Hidem Hstar H0).
    + constructor; [|constructor].
      exact (normalised_is_normal r r' Hidem Hstar Hr').
Qed.

Lemma normal_form_duplicates (r r' : config.Rule) :
  laws.EqualFold_reflexive rt ->
  store.normalised_from r r' -> store.duplicates r' r = true.
Proof.
  intros Hrefl [Hh [Ho [Hk [Hp _]]]]. unfold store.duplicates.
  rewrite Hh, Ho, Hk, Hp, !Hrefl, String.eqb_refl, Z.eqb_refl. reflexivity.
Qed.

Lemma by_id_selected (id : string) (r : config.Rule) :
  rules.selected (store.by_id id) r
  = negb (String.eqb id "") && String.eqb (config.ID r) id.
Proof.
  unfold rules.selected, rules.matchesRemoveSelector. cbn.
  now rewrite orb_false_r.
Qed.

Lemma empty_selector_selects_nothing (sel : rules.RemoveSelector)
      (r : config.Rule) :
  store.empty_selector sel -> rules.selected sel r = false.
Proof.
  intros [Hid [Hh [Ho [Hk _]]]].
  unfold rules.selected, rules.matchesRemoveSelector.
  rewrite Hid, Hh, Ho, Hk. reflexivity.
Qed.

End StoreRoundTrips.

(** X15.  A rule cannot be added twice without [force]: once [AddRule]
    has added a rule, adding the same rule again with [force] off fails
    with "rule already exists" and leaves the configuration as it was
    (for a [TrimSpace] that is idempotent and keeps [*], and an
    [EqualFold] that is reflexive). *)
Theorem AddRule_rejects_a_repeat {rt : GoRuntime}
        (src src' : rules.entropy) (c : config.Config) (r : config.Rule)
        (force : bool) (n m : nat) :
  laws.TrimSpace_idempotent rt ->
  laws.TrimSpace_keeps_star rt ->
  laws.EqualFold_reflexive rt ->
  snd (rules.AddRule src c r force n) = None ->
  let c1 := fst (fst (rules.AddRule src c r force n)) in
  fst (fst (rules.AddRule src' c1 r false m)) = c1
  /\ exists id,
      snd (rules.AddRule src' c1 r false m) = Some (rules.ErrRuleExists id).
Proof.
  intros Hidem Hstar Hrefl Hok c1.
  destruct (added_is_normal src c r force n Hidem Hstar Hok)
    as [r' [Hr' [_ [Hrs [Hkey Hnorm]]]]].
  fold c1 in Hrs, Hnorm.
  pose proof (AddRule_spec src' c1 r false m) as H.
  rewrite Hnorm in H. cbn [fst] in H.
  destruct (snd (rules.AddRule src' c1 r false m)) as [[|id]|].
  - destruct H as [H _]. contradiction.
  - destruct H as [_ [_ [Hc _]]]. split; [exact Hc|]. now exists id.
  - destruct H as [_ [Hnone _]]. specialize (Hnone eq_refl).
    rewrite Hrs in Hnone. apply Forall_app in Hnone.
    destruct Hnone as [_ Hlast]. inversion Hlast as [|x l Hx _]; subst.
    rewrite (normal_form_duplicates r r' Hrefl Hr') in Hx. discriminate.
Qed.

Lemma AddRule_rejects_a_repeat_witness :
  laws.TrimSpace_idempotent ref.runtime
  /\ laws.TrimSpace_keeps_star ref.runtime
  /\ laws.EqualFold_reflexive ref.runtime
  /\ snd (@rules.AddRule ref.runtime store.some_entropy store.example_config
            store.example_rule false 0) = None
  /\ let c1 := fst (fst (@rules.AddRule ref.runtime store.some_entropy
                           store.example_config store.example_rule false 0)) in
     fst (fst (@rules.AddRule ref.runtime store.some_entropy c1
                 store.example_rule false 2)) = c1
     /\ exists id,
         snd (@rules.AddRule ref.runtime store.some_entropy c1
                store.example_rule false 2)
         = Some (rules.ErrRuleExists id).
Proof.
  split; [exact ref_TrimSpace_idempotent|].
  split; [exact ref_TrimSpace_keeps_star|].
  split; [exact ref_EqualFold_reflexive|].
  split; [vm_compute; reflexivity|].
  refine (@AddRule_rejects_a_repeat ref.runtime store.some_entropy
            store.some_entropy store.example_config store.example_rule
            false 0 2 ref_TrimSpace_idempotent ref_TrimSpace_keeps_star
            ref_EqualFold_reflexive _).
  vm_compute. reflexivity.
Defined.

(** X16.  A selector that names nothing removes nothing: with [Index]
    not positive and [ID], [Host], [Owner] and [Key] all empty,
    [RemoveRule] returns no rule and only normalises the configuration. *)
Theorem RemoveRule_empty_selector {rt : GoRuntime}
        (src : rules.entropy) (c : config.Config)
        (sel : rules.RemoveSelector) (n : nat) :
  store.empty_selector sel ->
  rules.RemoveRule src c sel n
  = (fst (rules.Normalize src c n), snd (rules.Normalize src c n), None).
Proof.
  intros Hsel.
  destruct (RemoveRule_spec src c sel n) as [H Hn].
  destruct (rules.RemoveRule src c sel n) as [[c' n'] res].
  cbn [fst snd] in H, Hn. subst n'.
  destruct res as [r|].
  - destruct H as [_ [pre [post [_ [_ [_ Hno]]]]]].
    destruct Hno as [Hr _].
    + destruct Hsel as [_ [_ [_ [_ Hi]]]]. lia.
    + rewrite (empty_selector_selects_nothing sel r Hsel) in Hr.
      discriminate.
  - destruct H as [-> _]. reflexivity.
Qed.

Lemma RemoveRule_empty_selector_witness :
  store.empty_selector (store.by_index 0)
  /\ @rules.RemoveRule ref.runtime store.some_entropy store.example_config
       (store.by_index 0) 0
     = (fst (@rules.Normalize ref.runtime store.some_entropy
               store.example_config 0),
        snd (@rules.Normalize ref.runtime store.some_entropy
               store.example_config 0), None).
Proof.
  assert (H : store.empty_selector (store.by_index 0)).
  { unfold store.empty_selector. cbn. repeat split. lia. }
  split; [exact H|].
  exact (@RemoveRule_empty_selector ref.runtime store.some_entropy
           store.example_config (store.by_index 0) 0 H).
Defined.

(** X17.  Adding a rule and removing the last rule by its position
    restores the configuration: after a successful [AddRule],
    [RemoveRule] with [Index] the number of rules returns the added rule
    in normal form, draws nothing, and leaves the normalised
    configuration [AddRule] started from. *)
Theorem RemoveRule_by_index_undoes_AddRule {rt : GoRuntime}
        (src src' : rules.entropy) (c : config.Config) (r : config.Rule)
        (force : bool) (n m : nat) :
  laws.TrimSpace_idempotent rt ->
  laws.TrimSpace_keeps_star rt ->
  snd (rules.AddRule src c r force n) = None ->
  let c1 := fst (fst (rules.AddRule src c r force n)) in
  exists r',
    store.normalised_from r r'
    /\ rules.RemoveRule src' c1
         (store.by_index (List.length (config.Rules c1))) m
       = (fst (rules.Normalize src c n), m, Some r').
Proof.
  intros Hidem Hstar Hok c1.
  destruct (added_is_normal src c r force n Hidem Hstar Hok)
    as [r' [Hr' [Hv [Hrs [_ Hnorm]]]]].
  fold c1 in Hv, Hrs, Hnorm.
  exists r'. split; [exact Hr'|].
  set (sel := store.by_index (List.length (config.Rules c1))).
  destruct (RemoveRule_spec src' c1 sel m) as [H Hn].
  rewrite Hnorm in H, Hn. cbn [fst snd] in H, Hn.
  assert (Hpos : 0 < rules.selIndex sel
                 <= Z.of_nat (List.length (config.Rules c1))).
  { subst sel. cbn. rewrite Hrs, length_app. cbn. lia. }
  destruct (rules.RemoveRule src' c1 sel m) as [[c' m'] res].
  cbn [fst snd] in H, Hn. subst m'.
  destruct res as [r2|].
  - destruct H as [Hv' [pre [post [Hsplit [Hrs' [Hlen _]]]]]].
    specialize (Hlen Hpos).
    assert (Hpost : post = []).
    { assert (Hl : List.length (config.Rules c1)
                   = (List.length pre + S (List.length post))%nat).
      { rewrite Hsplit at 1. rewrite length_app. reflexivity. }
      subst sel. cbn in Hlen. destruct post; [reflexivity|cbn in Hl; lia]. }
    subst post. rewrite Hrs in Hsplit.
    apply app_inj_tail in Hsplit. destruct Hsplit as [Hpre <-].
    rewrite app_nil_r in Hrs'.
    f_equal. f_equal.
    destruct c' as [v' rs'], (fst (rules.Normalize src c n)) as [v0 rs0].
    cbn in *. congruence.
  - destruct H as [_ [Hno _]]. contradiction.
Qed.

Lemma RemoveRule_by_index_undoes_AddRule_witness :
  laws.TrimSpace_idempotent ref.runtime
  /\ laws.TrimSpace_keeps_star ref.runtime
  /\ snd (@rules.AddRule ref.runtime store.some_entropy store.example_config
            store.example_rule false 0) = None
  /\ let c1 := fst (fst (@rules.AddRule ref.runtime store.some_entropy
                           store.example_config store.example_rule false 0)) in
     exists r',
       @store.normalised_from ref.runtime store.example_rule r'
       /\ @rules.RemoveRule ref.runtime store.some_entropy c1
            (store.by_index (List.length (config.Rules c1))) 2
          = (fst (@rules.Normalize ref.runtime store.some_entropy
                    store.example_config 0), 2%nat, Some r').
Proof.
  split; [exact ref_TrimSpace_idempotent|].
  split; [exact ref_TrimSpace_keeps_star|].
  split; [vm_compute; reflexivity|].
  refine (@RemoveRule_by_index_undoes_AddRule ref.runtime store.some_entropy
            store.some_entropy store.example_config store.example_rule
            false 0 2 ref_TrimSpace_idempotent ref_TrimSpace_keeps_star _).
  vm_compute. reflexivity.
Defined.

(** X18.  A rule added under an identifier of its own is removed by that
    identifier: when the rule to add has a non-empty [ID] that no rule of
    the normalised configuration carries, then after a successful
    [AddRule] the selector with only that [ID] makes [RemoveRule] return
    the added rule and leave the normalised configuration [AddRule]
    started from. *)
Theorem RemoveRule_by_id_undoes_AddRule {rt : GoRuntime}
        (src src' : rules.entropy) (c : config.Config) (r : config.Rule)
        (force : bool) (n m : nat) :
  laws.TrimSpace_idempotent rt ->
  laws.TrimSpace_keeps_star rt ->
  config.ID r <> "" ->
  (forall e, In e (config.Rules (fst (rules.Normalize src c n))) ->
             config.ID e <> config.ID r) ->
  snd (rules.AddRule src c r force n) = None ->
  let c1 := fst (fst (rules.AddRule src c r force n)) in
  exists r',
    store.normalised_from r r' /\ config.ID r' = config.ID r
    /\ rules.RemoveRule src' c1 (store.by_id (config.ID r)) m
       = (fst (rules.Normalize src c n), m, Some r').
Proof.
  intros Hidem Hstar Hid Hfresh Hok c1.
  destruct (added_is_normal src c r force n Hidem Hstar Hok)
    as [r' [Hr' [Hv [Hrs [_ Hnorm]]]]].
  fold c1 in Hv, Hrs, Hnorm.
  assert (Hid' : config.ID r' = config.ID r).
  { destruct Hr' as [_ [_ [_ [_ [_ Hkeep]]]]]. exact (Hkeep Hid). }
  exists r'. split; [exact Hr'|]. split; [exact Hid'|].
  set (sel := store.by_id (config.ID r)).
  destruct (RemoveRule_spec src' c1 sel m) as [H Hn].
  rewrite Hnorm in H, Hn. cbn [fst snd] in H, Hn.
  assert (Hpos : ~ 0 < rules.selIndex sel
                   <= Z.of_nat (List.length (config.Rules c1))).
  { subst sel. cbn. lia. }
  assert (Hsel : rules.selected sel r' = true).
  { subst sel. rewrite by_id_selected, Hid', String.eqb_refl.
    now rewrite (string_eqb_false _ _ Hid). }
  destruct (rules.RemoveRule src' c1 sel m) as [[c' m'] res].
  cbn [fst snd] in H, Hn. subst m'.
  destruct res as [r2|].
  - destruct H as [Hv' [pre [post [Hsplit [Hrs' [_ Hfirst]]]]]].
    destruct (Hfirst Hpos) as [Hr2 _].
    subst sel. rewrite by_id_selected in Hr2.
    apply andb_prop in Hr2. destruct Hr2 as [_ Hr2].
    apply String.eqb_eq in Hr2.
    rewrite Hrs in Hsplit.
    destruct (app_tail_unique _ _ _ _ _ (eq_sym Hsplit)) as [-> [-> ->]].
    { intros Hin. exact (Hfresh r2 Hin Hr2). }
    rewrite app_nil_r in Hrs'.
    f_equal. f_equal.
    destruct c' as [v' rs'], (fst (rules.Normalize src c n)) as [v0 rs0].
    cbn in *. congruence.
  - destruct H as [_ [_ Hall]]. rewrite Hrs in Hall.
    apply Forall_app in Hall. destruct Hall as [_ Hlast].
    inversion Hlast as [|x l Hx _]; subst. congruence.
Qed.

Lemma RemoveRule_by_id_undoes_AddRule_witness :
  laws.TrimSpace_idempotent ref.runtime
  /\ laws.TrimSpace_keeps_star ref.runtime
  /\ config.ID store.named_rule <> ""
  /\ (forall e,
         In e (config.Rules (fst (@rules.Normalize ref.runtime
                                    store.some_entropy
                                    store.example_config 0))) ->
         config.ID e <> config.ID store.named_rule)
  /\ snd (@rules.AddRule ref.runtime store.some_entropy store.example_config
            store.named_rule false 0) = None
  /\ let c1 := fst (fst (@rules.AddRule ref.runtime store.some_entropy
                           store.example_config store.named_rule false 0)) in
     exists r',
       @store.normalised_from ref.runtime store.named_rule r'
       /\ config.ID r' = config.ID store.named_rule
       /\ @rules.RemoveRule ref.runtime store.some_entropy c1
            (store.by_id (config.ID store.named_rule)) 1
          = (fst (@rules.Normalize ref.runtime store.some_entropy
                    store.example_config 0), 1%nat, Some r').
Proof.
  assert (Hid : config.ID store.named_rule <> "") by discriminate.
  assert (Hfresh : forall e,
             In e (config.Rules (fst (@rules.Normalize ref.runtime
                                        store.some_entropy
                                        store.example_config 0))) ->
             config.ID e <> config.ID store.named_rule).
  { intros e Hin. vm_compute in Hin. destruct Hin as [<-|[]].
    vm_compute. discriminate. }
  split; [exact ref_TrimSpace_idempotent|].
  split; [exact ref_TrimSpace_keeps_star|].
  split; [exact Hid|]. split; [exact Hfresh|].
  split; [vm_compute; reflexivity|].
  refine (@RemoveRule_by_id_undoes_AddRule ref.runtime store.some_entropy
            store.some_entropy store.example_config store.named_rule
            false 0 1 ref_TrimSpace_idempotent ref_TrimSpace_keeps_star
            Hid Hfresh _).
  vm_compute. reflexivity.
Defined.

(** ** The global options *)

Definition apply_item (o : cli.globalOptions) (it : options.item)
  : cli.globalOptions :=
  match it with
  | options.ItJSON => cli.set_JSON o
  | options.ItVerbose => cli.set_Verbose o
  | options.ItDryRun => cli.set_DryRun o true
  | options.ItConfig v => cli.set_ConfigPath o v
  | options.ItConfigEq v => cli.set_ConfigPath o v
  end.

Lemma apply_items_spec (its : list options.item) :
  forall o,
    fold_left apply_item its o
    = {| cli.ConfigPath := options.last_config its (cli.ConfigPath o);
         cli.JSON := cli.JSON o || existsb options.is_json its;
         cli.Verbose := cli.Verbose o || existsb options.is_verbose its;
         cli.DryRun := cli.DryRun o || existsb options.is_dry_run its |}.
Proof.
  induction its as [|it its IH]; intros o.
  - cbn. rewrite !orb_false_r. destruct o; reflexivity.
  - cbn [fold_left]. rewrite IH.
    destruct it; cbn; rewrite ?orb_true_r, ?orb_false_r; reflexivity.
Qed.

Lemma TrimPrefix_app (p s : string) :
  strings.HasPrefix s p = true -> s = (p ++ strings.TrimPrefix s p)%string.
Proof.
  unfold strings.TrimPrefix. intros H. rewrite H.
  unfold strings.HasPrefix in H. revert s H.
  induction p as [|c p IH]; intros s H; [reflexivity|].
  destruct s as [|d s]; [discriminate|].
  cbn in H. destruct (ascii_dec c d) as [->|]; [|discriminate].
  cbn. f_equal. exact (IH s H).
Qed.

Lemma parseGlobalOptions_loop_reads (n : nat) :
  forall (args : list string) (o : cli.globalOptions),
    (List.length args <= n)%nat ->
    exists its,
      fst (cli.parseGlobalOptions_loop o args) = fold_left apply_item its o
      /\ options.reads args its (snd (cli.parseGlobalOptions_loop o args)).
Proof.
  induction n as [|n IH]; intros args o Hlen.
  - destruct args; [|cbn in Hlen; lia].
    exists []. split; [reflexivity|]. right. split; [reflexivity|exact I].
  - destruct args as [|a tl].
    { exists []. split; [reflexivity|]. right. split; [reflexivity|exact I]. }
    cbn [List.length] in Hlen. cbn [cli.parseGlobalOptions_loop].
    assert (Hone : forall it o',
               options.tokens_of it = [a] -> apply_item o it = o' ->
               exists its,
                 fst (cli.parseGlobalOptions_loop o' tl)
                 = fold_left apply_item its o
                 /\ options.reads (a :: tl) its
                      (snd (cli.parseGlobalOptions_loop o' tl))).
    { intros it o' Htok <-.
      destruct (IH tl (apply_item o it)) as [its [Ho Hr]]; [lia|].
      exists (it :: its). split; [exact Ho|].
      unfold options.reads in *. cbn [options.tokens flat_map].
      fold (options.tokens its). rewrite Htok. cbn [app].
      destruct (snd (cli.parseGlobalOptions_loop (apply_item o it) tl)).
      - destruct Hr as [->|[-> Hs]]; [now left|right; now split].
      - now rewrite Hr. }
    destruct (String.eqb_spec a "--") as [->|Hdd].
    { exists []. split; [reflexivity|]. now left. }
    destruct (strings.HasPrefix a "-") eqn:Hdash; cbn [negb].
    2:{ exists []. split; [reflexivity|]. right. split; [reflexivity|].
        split; [|exact Hdd]. unfold options.is_global.
        destruct (String.eqb_spec a "--json") as [->|_]; [discriminate|].
        destruct (String.eqb_spec a "--verbose") as [->|_]; [discriminate|].
        destruct (String.eqb_spec a "--dry-run") as [->|_]; [discriminate|].
        destruct (String.eqb_spec a "--config") as [->|_]; [discriminate|].
        cbn [orb].
        destruct (strings.HasPrefix a "--config=") eqn:Hp; [|reflexivity].
        rewrite (TrimPrefix_app _ _ Hp) in Hdash. discriminate. }
    destruct (String.eqb_spec a "--json") as [->|Hj].
    { exact (Hone options.ItJSON _ eq_refl eq_refl). }
    destruct (String.eqb_spec a "--verbose") as [->|Hv].
    { exact (Hone options.ItVerbose _ eq_refl eq_refl). }
    destruct (String.eqb_spec a "--dry-run") as [->|Hd].
    { exact (Hone options.ItDryRun _ eq_refl eq_refl). }
    destruct (String.eqb_spec a "--config") as [->|Hc].
    { destruct tl as [|v tl'].
      - exists []. split; [reflexivity|]. reflexivity.
      - destruct (IH tl' (cli.set_ConfigPath o v)) as [its [Ho Hr]];
          [cbn in Hlen; lia|].
        exists (options.ItConfig v :: its). split; [exact Ho|].
        unfold options.reads in *. cbn [options.tokens flat_map].
        fold (options.tokens its). cbn [options.tokens_of app].
        destruct (snd (cli.parseGlobalOptions_loop
                         (cli.set_ConfigPath o v) tl')).
        + destruct Hr as [->|[-> Hs]]; [now left|right; now split].
        + now rewrite Hr. }
    destruct (strings.HasPrefix a "--config=") eqn:Hp.
    { refine (Hone (options.ItConfigEq (strings.TrimPrefix a "--config="))
                   _ _ eq_refl).
      cbn [options.tokens_of]. now rewrite <- (TrimPrefix_app _ _ Hp). }
    exists []. split; [reflexivity|]. right. split; [reflexivity|].
    split; [|exact Hdd]. unfold options.is_global.
    rewrite (string_eqb_false _ _ Hj), (string_eqb_false _ _ Hv),
      (string_eqb_false _ _ Hd), (string_eqb_false _ _ Hc), Hp. reflexivity.
Qed.

(** X19.  [parseGlobalOptions] reads a longest run of global options
    from the front of the arguments and passes everything after it
    through untouched.  The arguments are that run followed by: a [--],
    which is dropped, and the rest; or a rest that is empty or starts
    with a token that is not a global option; or, for the error
    "--config requires a value", a final [--config].  The options
    returned are those of the run: a flag is on when it occurs in it,
    the path is that of its last [--config] (the token after a
    [--config] is its value even when it looks like an option), and
    nothing after the run is read as an option. *)
Theorem parseGlobalOptions_reads_leading_options (args : list string) :
  exists its,
    fst (cli.parseGlobalOptions args) = options.options_of its
    /\ options.reads args its (snd (cli.parseGlobalOptions args)).
Proof.
  destruct (parseGlobalOptions_loop_reads (List.length args) args
              cli.no_options (le_n _)) as [its [Ho Hr]].
  exists its. split; [|exact Hr].
  unfold cli.parseGlobalOptions. rewrite Ho, apply_items_spec. reflexivity.
Qed.

(** ** The git queries *)

Lemma before_spec (c : ascii) (s : string) :
  strings.IndexByte (gitops.before c s) c = false
  /\ (s = gitops.before c s
      \/ exists rest, s = (gitops.before c s ++ String c rest)%string).
Proof.
  induction s as [|d s [IHn IHs]]; cbn [gitops.before].
  - split; [reflexivity|now left].
  - destruct (Ascii.eqb_spec d c) as [->|Hdc].
    + split; [reflexivity|]. right. exists s. reflexivity.
    + cbn [strings.IndexByte]. rewrite IHn.
      destruct (Ascii.eqb_spec d c) as [|_]; [contradiction|].
      split; [reflexivity|].
      destruct IHs as [Hs|[rest Hs]].
      * left. now rewrite <- Hs.
      * right. exists rest. cbn [String.append]. now rewrite <- Hs.
Qed.

Lemma has_set (k k' v : string) (m : list (string * string)) :
  gitops.has k (gitops.set k' v m) = String.eqb k' k || gitops.has k m.
Proof.
  induction m as [|[k0 v0] m IH]; cbn [gitops.set gitops.has].
  - reflexivity.
  - destruct (String.eqb_spec k0 k') as [->|Hne]; cbn [gitops.has].
    + destruct (String.eqb k' k); reflexivity.
    + rewrite IH. destruct (String.eqb k0 k), (String.eqb k' k); reflexivity.
Qed.

Section GitQueries.
Context {rt : GoRuntime}.
Variable git : gitops.Git.

(** The map that the loop of [Remotes] builds has as keys the keys it
    started from and the non-blank lines, trimmed; the URL of each of
    these has been read. *)
Lemma Remotes_loop_keys (lines : list string) :
  forall result m,
    gitops.Remotes_loop git lines result = gitops.Got m ->
    (forall k, gitops.has k m = true <->
               gitops.has k result = true
               \/ In k (filter (fun n => negb (String.eqb n ""))
                               (map strings_TrimSpace lines)))
    /\ (forall k, In k (filter (fun n => negb (String.eqb n ""))
                               (map strings_TrimSpace lines)) ->
                  exists u, gitops.RemoteURL git k = gitops.Got u).
Proof.
  induction lines as [|line lines IH]; intros result m H.
  - cbn in H. injection H as <-. split.
    + intros k. split; [now left|intros [Hk|[]]; exact Hk].
    + intros k [].
  - cbn [gitops.Remotes_loop] in H. cbn [map filter].
    destruct (String.eqb_spec (strings_TrimSpace line) "") as [He|Hne];
      cbn [negb].
    + exact (IH result m H).
    + destruct (gitops.RemoteURL git (strings_TrimSpace line)) as [u|e] eqn:Hu;
        [|discriminate].
      destruct (IH _ m H) as [Hkeys Hurls]. split.
      * intros k. rewrite Hkeys, has_set. split.
        -- intros [Hk|Hk]; [|right; now right].
           apply orb_prop in Hk. destruct Hk as [Hk|Hk]; [|now left].
           apply String.eqb_eq in Hk. right. now left.
        -- intros [Hk|[Hk|Hk]].
           ++ left. rewrite Hk. apply orb_true_r.
           ++ left. subst k. now rewrite String.eqb_refl.
           ++ now right.
      * intros k [<-|Hk]; [now exists u|exact (Hurls k Hk)].
Qed.

Lemma Remotes_keys (m : list (string * string)) :
  gitops.Remotes git = gitops.Got m ->
  exists listing,
    gitops.GitOutput git ["remote"] = gitops.Got listing
    /\ (forall k, gitops.has k m = true <-> In k (remotes.names listing))
    /\ (forall k, In k (remotes.names listing) ->
                  exists u, gitops.RemoteURL git k = gitops.Got u).
Proof.
  unfold gitops.Remotes.
  destruct (gitops.GitOutput git ["remote"]) as [listing|e]; [|discriminate].
  intros H. exists listing. split; [reflexivity|].
  destruct (Remotes_loop_keys _ _ _ H) as [Hkeys Hurls]. split.
  - intros k. rewrite Hkeys. cbn [gitops.has]. split.
    + intros [Hf|Hk]; [discriminate|exact Hk].
    + intros Hk. now right.
  - exact Hurls.
Qed.

End GitQueries.

(** X20.  The remote that [CurrentUpstreamRemote] returns is the part of
    the upstream ref before its first slash: it is not empty, contains
    no slash, and the trimmed output of
    [git rev-parse --abbrev-ref --symbolic-full-name @{upstream}] is that
    name alone or the name, a slash and the branch (so a remote whose
    name contains a slash is cut at the slash). *)
Theorem CurrentUpstreamRemote_is_the_first_segment {rt : GoRuntime}
        (git : gitops.Git) (r : string) :
  gitops.CurrentUpstreamRemote git = gitops.Got r ->
  r <> ""
  /\ strings.IndexByte r "/"%char = false
  /\ exists out,
      git ["rev-parse"; "--abbrev-ref"; "--symbolic-full-name"; "@{upstream}"]
      = Some out
      /\ (strings_TrimSpace (strings_TrimSpace out) = r
          \/ exists branch,
              strings_TrimSpace (strings_TrimSpace out)
              = (r ++ "/" ++ branch)%string).
Proof.
  unfold gitops.CurrentUpstreamRemote, gitops.GitOutput.
  destruct (git _) as [out|]; [|discriminate].
  set (s := strings_TrimSpace (strings_TrimSpace out)).
  destruct (String.eqb_spec (gitops.before "/" s) "") as [He|Hne];
    [discriminate|].
  intros H. injection H as <-.
  destruct (before_spec "/"%char s) as [Hno Hs].
  split; [exact Hne|]. split; [exact Hno|].
  exists out. split; [reflexivity|].
  destruct Hs as [Hs|[rest Hs]]; [left; now symmetry|].
  right. exists rest. exact Hs.
Qed.

Lemma CurrentUpstreamRemote_is_the_first_segment_witness :
  @gitops.CurrentUpstreamRemote ref.runtime remotes.tracking
  = gitops.Got "mirror"
  /\ "mirror" <> ""
  /\ strings.IndexByte "mirror" "/"%char = false
  /\ exists out,
      remotes.tracking
        ["rev-parse"; "--abbrev-ref"; "--symbolic-full-name"; "@{upstream}"]
      = Some out
      /\ (@strings_TrimSpace ref.runtime (@strings_TrimSpace ref.runtime out)
          = "mirror"
          \/ exists branch,
              @strings_TrimSpace ref.runtime
                (@strings_TrimSpace ref.runtime out)
              = ("mirror" ++ "/" ++ branch)%string).
Proof.
  split; [vm_compute; reflexivity|].
  apply (@CurrentUpstreamRemote_is_the_first_segment ref.runtime
           remotes.tracking "mirror").
  vm_compute. reflexivity.
Defined.

(** X21.  [GuessDefaultRemote] never returns an empty name, and it
    returns either the remote of the current upstream or a remote that
    [git remote] lists and whose URL could be read; in the second case
    the name is [origin] or it is the only remote listed.  So with
    several remotes and no upstream, only [origin] is ever guessed. *)
Theorem GuessDefaultRemote_names_a_remote {rt : GoRuntime}
        (git : gitops.Git) (r : string) :
  gitops.GuessDefaultRemote git = gitops.Got r ->
  r <> ""
  /\ (gitops.CurrentUpstreamRemote git = gitops.Got r
      \/ exists listing,
          gitops.GitOutput git ["remote"] = gitops.Got listing
          /\ In r (remotes.names listing)
          /\ (exists u, gitops.RemoteURL git r = gitops.Got u)
          /\ (r = "origin" \/ forall k, In k (remotes.names listing) -> k = r)).
Proof.
  unfold gitops.GuessDefaultRemote.
  assert (Hnames : forall listing k, In k (remotes.names listing) -> k <> "").
  { intros listing k Hk. unfold remotes.names in Hk.
    apply filter_In in Hk. destruct Hk as [_ Hk].
    intros ->. discriminate. }
  assert (Hfrom :
            match gitops.Remotes git with
            | gitops.Failed e => gitops.Failed e
            | gitops.Got remotes =>
                match remotes with
                | [(name, _)] => gitops.Got name
                | _ => if gitops.has "origin" remotes then gitops.Got "origin"
                       else gitops.Failed gitops.ErrNoDefaultRemote
                end
            end = gitops.Got r ->
            r <> ""
            /\ exists listing,
                gitops.GitOutput git ["remote"] = gitops.Got listing
                /\ In r (remotes.names listing)
                /\ (exists u, gitops.RemoteURL git r = gitops.Got u)
                /\ (r = "origin"
                    \/ forall k, In k (remotes.names listing) -> k = r)).
  { destruct (gitops.Remotes git) as [m|e] eqn:Hm; [|discriminate].
    destruct (Remotes_keys git m Hm) as [listing [Hout [Hkeys Hurls]]].
    assert (Horigin : gitops.has "origin" m = true ->
                      gitops.Got "origin" = gitops.Got r ->
                      r <> ""
                      /\ exists listing,
                          gitops.GitOutput git ["remote"] = gitops.Got listing
                          /\ In r (remotes.names listing)
                          /\ (exists u, gitops.RemoteURL git r = gitops.Got u)
                          /\ (r = "origin"
                              \/ forall k, In k (remotes.names listing) -> k = r)).
    { intros Hhas H. injection H as <-. split; [discriminate|].
      exists listing. apply Hkeys in Hhas.
      split; [exact Hout|]. split; [exact Hhas|].
      split; [exact (Hurls _ Hhas)|now left]. }
    destruct m as [|[name u] [|kv m']].
    - cbn. discriminate.
    - intros H. injection H as <-.
      assert (Hin : In name (remotes.names listing)).
      { apply Hkeys. cbn. now rewrite String.eqb_refl. }
      split; [exact (Hnames _ _ Hin)|]. exists listing.
      split; [exact Hout|]. split; [exact Hin|].
      split; [exact (Hurls _ Hin)|]. right.
      intros k Hk. apply Hkeys in Hk. cbn in Hk.
      rewrite orb_false_r in Hk. apply String.eqb_eq in Hk. now symmetry.
    - destruct (gitops.has "origin" ((name, u) :: kv :: m')) eqn:Hhas;
        [|discriminate].
      exact (Horigin eq_refl). }
  destruct (gitops.CurrentUpstreamRemote git) as [remote|e] eqn:Hup.
  - destruct (String.eqb_spec remote "") as [He|Hne]; cbn [negb].
    + intros H. destruct (Hfrom H) as [Hr Hl]. split; [exact Hr|now right].
    + intros H. injection H as <-. split; [exact Hne|now left].
  - intros H. destruct (Hfrom H) as [Hr Hl]. split; [exact Hr|now right].
Qed.

Lemma GuessDefaultRemote_names_a_remote_witness :
  @gitops.GuessDefaultRemote ref.runtime remotes.two_remotes
  = gitops.Got "origin"
  /\ "origin" <> ""
  /\ (@gitops.CurrentUpstreamRemote ref.runtime remotes.two_remotes
      = gitops.Got "origin"
      \/ exists listing,
          @gitops.GitOutput ref.runtime remotes.two_remotes ["remote"]
          = gitops.Got listing
          /\ In "origin" (@remotes.names ref.runtime listing)
          /\ (exists u, @gitops.RemoteURL ref.runtime remotes.two_remotes
                          "origin" = gitops.Got u)
          /\ ("origin" = "origin"
              \/ forall k, In k (@remotes.names ref.runtime listing) ->
                           k = "origin")).
Proof.
  split; [vm_compute; reflexivity|].
  apply (@GuessDefaultRemote_names_a_remote ref.runtime remotes.two_remotes
           "origin").
  vm_compute. reflexivity.
Defined.

(** ** The git wrapper *)

Lemma mergeEnv_nil (base : list string) : shell.mergeEnv base [] = base.
Proof. reflexivity. Qed.

Lemma mergeEnv_GIT_SSH_COMMAND (base : list string) (v : string) :
  env.entries_of "GIT_SSH_COMMAND"
    (shell.mergeEnv base [("GIT_SSH_COMMAND", v)])
  = ("GIT_SSH_COMMAND=" ++ v)%string
      :: tl (env.entries_of "GIT_SSH_COMMAND" base).
Proof.
  rewrite mergeEnv_is_fold. cbn [fold_left].
  rewrite mergeEnv_step_entries; [|reflexivity|reflexivity].
  reflexivity.
Qed.

Section Wrapper.
Context {rt : GoRuntime}.

Lemma FromURL_applies (cfg : option config.Config) (url : string)
      (res : resolve.Result) :
  resolve.FromURL cfg url = Ok res ->
  resolve.SSHSelectionApplies res = true ->
  exists c parsed rule keyPath,
    cfg = Some c
    /\ giturl.Parse url = Ok parsed
    /\ giturl.IsSSH parsed = true
    /\ In rule (config.Rules c)
    /\ spec.candidate rule parsed = true
    /\ config.ExpandPath (config.Key rule) = Ok keyPath
    /\ resolve.GITSSHCommand res = runner.BuildGITSSHCommand keyPath.
Proof.
  unfold resolve.FromURL.
  destruct (giturl.Parse url) as [parsed|e]; [|discriminate].
  destruct (giturl.IsSSH parsed) eqn:Hssh; cbn [negb].
  2:{ destruct (giturl.IsHTTPS parsed); intros H; injection H as <-;
        discriminate. }
  destruct cfg as [c|]; [|discriminate].
  destruct (matcher.Match (config.Rules c) (Some parsed)) as [m|e] eqn:Hm;
    [|discriminate].
  destruct (config.ExpandPath (config.Key (matcher.Rule m)))
    as [keyPath|e] eqn:Hk; [|discriminate].
  intros H _. injection H as <-.
  destruct (Match_ok_spec _ _ _ Hm) as [Hnth [Hcand _]].
  exists c, parsed, (matcher.Rule m), keyPath.
  split; [reflexivity|]. split; [reflexivity|]. split; [exact Hssh|].
  split; [exact (nth_error_In _ _ Hnth)|].
  split; [exact Hcand|]. split; [exact Hk|reflexivity].
Qed.

Lemma finish_ran (w : cli.World) (opts : cli.globalOptions)
      (args : list string) (t : runner.GitTarget) (url : string)
      (extraEnv : list (string * string)) (ns : list string)
      (res : option resolve.Result) (a : list string)
      (extra : list (string * string)) (penv : list string) (ok : bool) :
  cli.finish w opts args t url extraEnv ns res = cli.Ran a extra penv ok ->
  a = args /\ extra = extraEnv /\ cli.DryRun opts = false
  /\ penv = shell.mergeEnv (cli.environ w) extraEnv
  /\ ok = cli.git_runs w args penv.
Proof.
  unfold cli.finish. destruct (cli.DryRun opts); [discriminate|].
  intros H. injection H as <- <- <- <-. repeat split.
Qed.

Lemma resolve_and_finish_ran (w : cli.World) (opts : cli.globalOptions)
      (args : list string) (t : runner.GitTarget) (url : string)
      (ns : list string) (a : list string)
      (extra : list (string * string)) (penv : list string) (ok : bool) :
  cli.resolve_and_finish w opts args t url ns = cli.Ran a extra penv ok ->
  a = args /\ cli.DryRun opts = false /\ ok = cli.git_runs w args penv
  /\ ((extra = [] /\ penv = cli.environ w)
      \/ wrapper.keyed w opts url extra penv).
Proof.
  unfold cli.resolve_and_finish.
  destruct (negb (String.eqb url "") && negb (runner.SkipSSHSelection t)).
  2:{ intros H. apply finish_ran in H.
      destruct H as [-> [-> [Hd [-> ->]]]].
      split; [reflexivity|]. split; [exact Hd|]. split; [reflexivity|].
      left. split; reflexivity. }
  destruct (match cli.load_config w (cli.ConfigPath opts) with
            | Some _ => Some ns
            | None => _
            end) as [ns'|]; [|discriminate].
  destruct (resolve.FromURL (cli.load_config w (cli.ConfigPath opts)) url)
    as [res|e] eqn:Hres; [|discriminate].
  intros H. apply finish_ran in H.
  destruct H as [-> [-> [Hd [-> ->]]]].
  split; [reflexivity|]. split; [exact Hd|]. split; [reflexivity|].
  destruct (resolve.SSHSelectionApplies res) eqn:Happ.
  - right.
    destruct (FromURL_applies _ _ _ Hres Happ)
      as [c [parsed [rule [keyPath [Hc [Hp [Hssh [Hin [Hcand [Hk Hcmd]]]]]]]]]].
    exists c, parsed, rule, keyPath. rewrite Hcmd.
    split; [exact Hc|]. split; [exact Hp|]. split; [exact Hssh|].
    split; [exact Hin|]. split; [exact Hcand|]. split; [exact Hk|].
    split; [reflexivity|]. apply mergeEnv_GIT_SSH_COMMAND.
  - left. split; reflexivity.
Qed.

End Wrapper.

(** X22.  When [handleExec] runs git, it runs it once, with exactly the
    arguments it was given and not in a dry run, and the extra
    environment is either empty, git then seeing the environment of the
    process unchanged, or the single variable [GIT_SSH_COMMAND]; in the
    second case the configuration was loaded, the URL resolved is an
    argument or the trimmed output of [git remote get-url], it parses as
    an SSH remote, and the command is the ssh command for the expanded
    key of a rule of the configuration that matches the remote; that
    command is the first value git sees for the variable. *)
Theorem handleExec_selects_the_key_of_a_matching_rule {rt : GoRuntime}
        (w : cli.World) (opts : cli.globalOptions)
        (args a : list string) (extra : list (string * string))
        (penv : list string) (ok : bool) :
  cli.handleExec w opts args = cli.Ran a extra penv ok ->
  a = args /\ cli.DryRun opts = false /\ ok = cli.git_runs w args penv
  /\ ((extra = [] /\ penv = cli.environ w)
      \/ exists url,
          wrapper.url_source w args url
          /\ wrapper.keyed w opts url extra penv).
Proof.
  unfold cli.handleExec.
  destruct args as [|cmd rest]; [discriminate|].
  cbn [List.length Nat.eqb].
  pose proof (InferGitTarget_argument cmd rest) as Harg. cbv zeta in Harg.
  destruct (runner.InferGitTarget (cmd :: rest)) as [t [e|]];
    [discriminate|].
  cbn [fst] in Harg. destruct Harg as [_ Hurl].
  set (ns := if negb (String.eqb (runner.Notes t) "")
             then [runner.Notes t] else []).
  clearbody ns.
  assert (Hremote : forall t' name ns',
             match gitops.RemoteURL (cli.git_stdout w) name with
             | gitops.Failed e => cli.Refused 1 (cli.ErrRemoteURL name e)
             | gitops.Got u => cli.resolve_and_finish w opts (cmd :: rest) t' u ns'
             end = cli.Ran a extra penv ok ->
             a = cmd :: rest /\ cli.DryRun opts = false
             /\ ok = cli.git_runs w (cmd :: rest) penv
             /\ ((extra = [] /\ penv = cli.environ w)
                 \/ exists url,
                     wrapper.url_source w (cmd :: rest) url
                     /\ wrapper.keyed w opts url extra penv)).
  { intros t' name ns'. unfold gitops.RemoteURL, gitops.GitOutput.
    destruct (String.eqb (strings_TrimSpace name) ""); [discriminate|].
    destruct (cli.git_stdout w ["remote"; "get-url"; name]) as [out|] eqn:Hout;
      [|discriminate].
    intros H. apply resolve_and_finish_ran in H.
    destruct H as [Ha [Hd [Hok [Hnone|Hkey]]]].
    - split; [exact Ha|]. split; [exact Hd|]. split; [exact Hok|now left].
    - split; [exact Ha|]. split; [exact Hd|]. split; [exact Hok|].
      right. exists (strings_TrimSpace out). split; [|exact Hkey].
      right. exists name, out. split; [exact Hout|reflexivity]. }
  assert (Hplain : forall t' ns',
             cli.resolve_and_finish w opts (cmd :: rest) t' "" ns'
             = cli.Ran a extra penv ok ->
             a = cmd :: rest /\ cli.DryRun opts = false
             /\ ok = cli.git_runs w (cmd :: rest) penv
             /\ ((extra = [] /\ penv = cli.environ w)
                 \/ exists url,
                     wrapper.url_source w (cmd :: rest) url
                     /\ wrapper.keyed w opts url extra penv)).
  { intros t' ns' H. unfold cli.resolve_and_finish in H. cbn in H.
    apply finish_ran in H. destruct H as [-> [-> [Hd [-> ->]]]].
    split; [reflexivity|]. split; [exact Hd|]. split; [reflexivity|].
    left. split; reflexivity. }
  destruct (runner.Kind t) eqn:Hkind.
  - destruct (cli.guesses (runner.Command t)).
    + destruct (gitops.GuessDefaultRemote (cli.git_stdout w)) as [guessed|e].
      * destruct (String.eqb guessed ""); cbn [negb].
        -- apply Hplain.
        -- apply Hremote.
      * cbn. apply Hplain.
    + cbn. apply Hplain.
  - destruct (String.eqb (runner.RemoteName t) ""); cbn [negb].
    + apply Hplain.
    + apply Hremote.
  - cbn. intros H. apply resolve_and_finish_ran in H.
    destruct H as [Ha [Hd [Hok [Hnone|Hkey]]]].
    + split; [exact Ha|]. split; [exact Hd|]. split; [exact Hok|now left].
    + split; [exact Ha|]. split; [exact Hd|]. split; [exact Hok|].
      right. exists (runner.URL t). split; [|exact Hkey].
      left. right. exact (proj1 (Hurl eq_refl)).
Qed.

Lemma handleExec_selects_the_key_of_a_matching_rule_witness :
  let args := ["push"; "origin"; "main"] in
  let extra :=
    [("GIT_SSH_COMMAND",
      runner.BuildGITSSHCommand "/home/user/.ssh/it's")] in
  let penv := shell.mergeEnv (cli.environ wrapper.example_world) extra in
  @cli.handleExec ref.runtime wrapper.example_world cli.no_options args
  = cli.Ran args extra penv true
  /\ (args = args /\ cli.DryRun cli.no_options = false
      /\ true = cli.git_runs wrapper.example_world args penv
      /\ ((extra = [] /\ penv = cli.environ wrapper.example_world)
          \/ exists url,
              @wrapper.url_source ref.runtime wrapper.example_world args url
              /\ @wrapper.keyed ref.runtime wrapper.example_world
                   cli.no_options url extra penv)).
Proof.
  cbv zeta. split; [vm_compute; reflexivity|].
  apply (@handleExec_selects_the_key_of_a_matching_rule ref.runtime
           wrapper.example_world cli.no_options).
  vm_compute. reflexivity.
Defined.

Section DryRun.
Context {rt : GoRuntime}.

Lemma finish_faithful (w : cli.World) (opts : cli.globalOptions)
      (args : list string) (t : runner.GitTarget) (url : string)
      (extraEnv : list (string * string)) (ns : list string)
      (res : option resolve.Result) :
  wrapper.faithful args
    (cli.finish w (cli.set_DryRun opts true) args t url extraEnv ns res)
    (cli.finish w (cli.set_DryRun opts false) args t url extraEnv ns res).
Proof. cbn. repeat split. Qed.

Lemma resolve_and_finish_faithful (w : cli.World) (opts : cli.globalOptions)
      (args : list string) (t : runner.GitTarget) (url : string)
      (ns : list string) :
  wrapper.faithful args
    (cli.resolve_and_finish w (cli.set_DryRun opts true) args t url ns)
    (cli.resolve_and_finish w (cli.set_DryRun opts false) args t url ns).
Proof.
  unfold cli.resolve_and_finish.
  change (cli.ConfigPath (cli.set_DryRun opts true))
    with (cli.ConfigPath opts).
  change (cli.ConfigPath (cli.set_DryRun opts false))
    with (cli.ConfigPath opts).
  destruct (negb (String.eqb url "") && negb (runner.SkipSSHSelection t));
    [|apply finish_faithful].
  destruct (match cli.load_config w (cli.ConfigPath opts) with
            | Some _ => Some ns
            | None => _
            end) as [ns'|]; [|cbn; split; reflexivity].
  destruct (resolve.FromURL (cli.load_config w (cli.ConfigPath opts)) url)
    as [res|e]; [apply finish_faithful|cbn; split; reflexivity].
Qed.

End DryRun.

(** X23.  A dry run is faithful.  With [--dry-run] on, [handleExec]
    fails exactly when it fails with [--dry-run] off, with the same exit
    code and error; otherwise the dry run describes the arguments and the
    extra environment with which the real run starts git, and these
    arguments are the ones given. *)
Theorem dry_run_describes_the_real_run {rt : GoRuntime}
        (w : cli.World) (opts : cli.globalOptions) (args : list string) :
  wrapper.faithful args
    (cli.handleExec w (cli.set_DryRun opts true) args)
    (cli.handleExec w (cli.set_DryRun opts false) args).
Proof.
  unfold cli.handleExec.
  destruct args as [|cmd rest]; [cbn; split; reflexivity|].
  cbn [List.length Nat.eqb].
  destruct (runner.InferGitTarget (cmd :: rest)) as [t [e|]];
    [cbn; split; reflexivity|].
  set (ns := if negb (String.eqb (runner.Notes t) "")
             then [runner.Notes t] else []).
  clearbody ns.
  assert (Hremote : forall t' name ns',
             wrapper.faithful (cmd :: rest)
               match gitops.RemoteURL (cli.git_stdout w) name with
               | gitops.Failed e => cli.Refused 1 (cli.ErrRemoteURL name e)
               | gitops.Got u =>
                   cli.resolve_and_finish w (cli.set_DryRun opts true)
                     (cmd :: rest) t' u ns'
               end
               match gitops.RemoteURL (cli.git_stdout w) name with
               | gitops.Failed e => cli.Refused 1 (cli.ErrRemoteURL name e)
               | gitops.Got u =>
                   cli.resolve_and_finish w (cli.set_DryRun opts false)
                     (cmd :: rest) t' u ns'
               end).
  { intros t' name ns'.
    destruct (gitops.RemoteURL (cli.git_stdout w) name) as [u|e];
      [apply resolve_and_finish_faithful|cbn; split; reflexivity]. }
  destruct (runner.Kind t).
  - destruct (cli.guesses (runner.Command t)).
    + destruct (gitops.GuessDefaultRemote (cli.git_stdout w)) as [guessed|e].
      * destruct (String.eqb guessed ""); cbn [negb].
        -- apply resolve_and_finish_faithful.
        -- apply Hremote.
      * apply resolve_and_finish_faithful.
    + apply resolve_and_finish_faithful.
  - destruct (String.eqb (runner.RemoteName t) ""); cbn [negb].
    + apply resolve_and_finish_faithful.
    + apply Hremote.
  - apply resolve_and_finish_faithful.
Qed.

(** X24.  Only [push], [fetch], [pull], [clone] and [ls-remote] ever
    select a key.  For every other subcommand, the forms of [git remote]
    included, [handleExec] run without [--dry-run] starts git with the
    arguments given and the environment of the process unchanged, and
    its result does not depend on the configuration or on any git
    query: it never fails before git is started. *)
Theorem other_subcommands_pass_through {rt : GoRuntime}
        (w : cli.World) (opts : cli.globalOptions)
        (cmd : string) (rest : list string) :
  ~ In cmd wrapper.selecting ->
  cli.DryRun opts = false ->
  cli.handleExec w opts (cmd :: rest)
  = cli.Ran (cmd :: rest) [] (cli.environ w)
            (cli.git_runs w (cmd :: rest) (cli.environ w)).
Proof.
  intros Hcmd Hdry.
  assert (Hne : forall s, In s wrapper.selecting -> String.eqb cmd s = false).
  { intros s Hs. apply string_eqb_false. intros ->. exact (Hcmd Hs). }
  assert (Hfinish : forall t url ns res,
             cli.finish w opts (cmd :: rest) t url [] ns res
             = cli.Ran (cmd :: rest) [] (cli.environ w)
                       (cli.git_runs w (cmd :: rest) (cli.environ w))).
  { intros t url ns res. unfold cli.finish. rewrite Hdry. reflexivity. }
  assert (Hfall :
            (let '(t, rawURL, remoteName, ns) :=
               (runner.target runner.TargetNone cmd, "", "",
                @nil string) in
             if negb (String.eqb remoteName "")
             then match gitops.RemoteURL (cli.git_stdout w) remoteName with
                  | gitops.Failed e =>
                      cli.Refused 1 (cli.ErrRemoteURL remoteName e)
                  | gitops.Got u =>
                      cli.resolve_and_finish w opts (cmd :: rest) t u ns
                  end
             else cli.resolve_and_finish w opts (cmd :: rest) t rawURL ns)
            = cli.Ran (cmd :: rest) [] (cli.environ w)
                      (cli.git_runs w (cmd :: rest) (cli.environ w))).
  { cbn. unfold cli.resolve_and_finish. cbn. apply Hfinish. }
  unfold cli.handleExec. cbn [List.length Nat.eqb].
  cbn [runner.InferGitTarget].
  rewrite (Hne "push"), (Hne "fetch"), (Hne "pull"), (Hne "clone"),
    (Hne "ls-remote") by (unfold wrapper.selecting; cbn; tauto).
  cbn [orb].
  assert (Hguess : cli.guesses cmd = false).
  { unfold cli.guesses.
    rewrite (Hne "push"), (Hne "fetch"), (Hne "pull")
      by (unfold wrapper.selecting; cbn; tauto).
    reflexivity. }
  assert (Hplain :
            match (runner.target runner.TargetNone cmd, @None error) with
            | (_, Some e) => cli.Refused 2 (cli.ErrInfer e)
            | (t, None) =>
                let ns := if negb (String.eqb (runner.Notes t) "")
                          then [runner.Notes t] else [] in
                let '(t, rawURL, remoteName, ns) :=
                  match runner.Kind t with
                  | runner.TargetURL => (t, runner.URL t, "", ns)
                  | runner.TargetRemote => (t, "", runner.RemoteName t, ns)
                  | runner.TargetNone =>
                      if cli.guesses (runner.Command t) then
                        match gitops.GuessDefaultRemote (cli.git_stdout w) with
                        | gitops.Got guessed =>
                            ({| runner.Kind := runner.TargetRemote;
                                runner.Command := runner.Command t;
                                runner.RemoteName := guessed;
                                runner.URL := runner.URL t;
                                runner.Notes := runner.Notes t;
                                runner.SkipSSHSelection :=
                                  runner.SkipSSHSelection t |},
                             "", guessed, ns ++ [cli.note_inferred guessed])
                        | gitops.Failed _ => (t, "", "", ns)
                        end
                      else (t, "", "", ns)
                  end in
                if negb (String.eqb remoteName "") then
                  match gitops.RemoteURL (cli.git_stdout w) remoteName with
                  | gitops.Failed e =>
                      cli.Refused 1 (cli.ErrRemoteURL remoteName e)
                  | gitops.Got u =>
                      cli.resolve_and_finish w opts (cmd :: rest) t u ns
                  end
                else cli.resolve_and_finish w opts (cmd :: rest) t rawURL ns
            end
            = cli.Ran (cmd :: rest) [] (cli.environ w)
                      (cli.git_runs w (cmd :: rest) (cli.environ w))).
  { cbn [runner.target runner.Kind runner.Command runner.Notes String.eqb
         negb]. rewrite Hguess. exact Hfall. }
  destruct (String.eqb cmd "remote"); [|exact Hplain].
  destruct rest as [|sub rest']; [exact Hplain|].
  destruct (String.eqb sub "set-url"); [|exact Hplain].
  destruct (runner.positionalArgs rest') as [|p0 [|p1 ps]];
    [exact Hplain|exact Hplain|].
  destruct (giturl.IsLikelyRemoteURL p1); [|exact Hplain].
  cbn [runner.Kind runner.URL runner.Notes runner.SkipSSHSelection].
  cbn [String.eqb negb].
  unfold cli.resolve_and_finish.
  cbn [runner.SkipSSHSelection negb]. rewrite andb_false_r. apply Hfinish.
Qed.

Lemma other_subcommands_pass_through_witness :
  ~ In "status" wrapper.selecting
  /\ cli.DryRun cli.no_options = false
  /\ @cli.handleExec ref.runtime wrapper.example_world cli.no_options
       ["status"; "--short"]
     = cli.Ran ["status"; "--short"] [] (cli.environ wrapper.example_world)
         (cli.git_runs wrapper.example_world ["status"; "--short"]
                       (cli.environ wrapper.example_world)).
Proof.
  assert (H : ~ In "status" wrapper.selecting).
  { unfold wrapper.selecting. cbn. intros [H|[H|[H|[H|[H|[]]]]]];
      discriminate. }
  split; [exact H|]. split; [reflexivity|].
  exact (@other_subcommands_pass_through ref.runtime wrapper.example_world
           cli.no_options "status" ["--short"] H eq_refl).
Defined.

(** ** From the hint to a resolvable remote *)

Lemma ref_literal_matches_itself : laws.literal_matches_itself ref.runtime.
Proof.
  intros p Hp.
  change (filepath.Match p p = (true, None)).
  rewrite (filepath_Match_literal p p Hp), String.eqb_refl. reflexivity.
Qed.

Section Hint.
Context {rt : GoRuntime}.

Lemma plain_pattern (v w : string) :
  laws.literal_matches_itself rt ->
  hint.plain v ->
  w = rules.normalizePattern v ->
  matcher.glob_ok (matcher.normalizePattern (strings_ToLower w))
                  (strings_ToLower v) = true.
Proof.
  intros Hlaw [Htrim [Hne [Hltrim [Hlne Hlit]]]] ->.
  unfold rules.normalizePattern. rewrite Htrim, (string_eqb_false _ _ Hne).
  unfold matcher.normalizePattern.
  rewrite Hltrim, (string_eqb_false _ _ Hlne).
  unfold matcher.glob_ok. now rewrite (Hlaw _ Hlit).
Qed.

Lemma suggested_candidate (p : giturl.ParsedRemote) (id key : string)
      (priority : Z) (r' : config.Rule) :
  laws.literal_matches_itself rt ->
  hint.plain (giturl.Host p) -> hint.plain (giturl.Owner p) ->
  store.normalised_from (hint.suggested p id key priority) r' ->
  spec.candidate r' p = true.
Proof.
  intros Hlaw Hh Ho [Hrh [Hro _]].
  unfold spec.candidate, spec.host_pattern, spec.owner_pattern,
    spec.host_value, spec.owner_value.
  rewrite (plain_pattern _ _ Hlaw Hh Hrh), (plain_pattern _ _ Hlaw Ho Hro).
  reflexivity.
Qed.

End Hint.

(** X25.  The rule that the hint of a failed resolution suggests makes
    the remote resolvable.  For a remote whose host and owner are plain
    (trimmed, not empty, without special characters of [filepath.Match],
    also in lower case), once [AddRule] has added a rule with that host
    and owner, [Match] on the new rule list succeeds for the remote; and
    if no rule matched the remote before, the rule it returns is the new
    one, the last of the list, with the trimmed key given (for a
    [filepath.Match] in which a pattern without special characters
    matches itself). *)
Theorem suggested_rule_resolves_the_remote {rt : GoRuntime}
        (src : rules.entropy) (c : config.Config) (p : giturl.ParsedRemote)
        (id key : string) (priority : Z) (force : bool) (n : nat) :
  laws.literal_matches_itself rt ->
  hint.plain (giturl.Host p) ->
  hint.plain (giturl.Owner p) ->
  snd (rules.AddRule src c (hint.suggested p id key priority) force n)
  = None ->
  let c0 := fst (rules.Normalize src c n) in
  let c1 := fst (fst (rules.AddRule src c (hint.suggested p id key priority)
                        force n)) in
  exists m,
    matcher.Match (config.Rules c1) (Some p) = Ok m
    /\ (forall e, matcher.Match (config.Rules c0) (Some p) = Err e ->
                  matcher.Index m = List.length (config.Rules c0)
                  /\ config.Key (matcher.Rule m) = strings_TrimSpace key
                  /\ config.Host (matcher.Rule m) = giturl.Host p
                  /\ config.Owner (matcher.Rule m) = giturl.Owner p).
Proof.
  intros Hlaw Hh Ho Hok c0 c1.
  pose proof (AddRule_spec src c (hint.suggested p id key priority) force n)
    as H.
  rewrite Hok in H. destruct H as [_ [_ [r' [Hr' [_ Hrs]]]]].
  fold c0 c1 in Hrs.
  pose proof (suggested_candidate p id key priority r' Hlaw Hh Ho Hr')
    as Hcand.
  assert (Hhost : giturl.Host p <> "") by (destruct Hh as [_ [Hne _]]; exact Hne).
  unfold matcher.Match. rewrite (string_eqb_false _ _ Hhost), Hrs.
  rewrite Match_loop_app. cbn [matcher.Match_loop].
  rewrite Match_step_spec, Hcand. cbv zeta.
  destruct (matcher.Match_loop p 0 (config.Rules c0) None) as [b|] eqn:Hb.
  - destruct (matcher.Score b <? spec.score r' p);
      eexists; (split; [reflexivity|]); intros e He; discriminate.
  - eexists. split; [reflexivity|]. intros e _. cbn.
    destruct Hr' as [Hrh [Hro [Hrk _]]]. cbn in Hrh, Hro, Hrk.
    split; [reflexivity|]. split; [exact Hrk|].
    destruct Hh as [Hht [Hhne _]]. destruct Ho as [Hot [One _]].
    unfold rules.normalizePattern in Hrh, Hro.
    rewrite Hht, (string_eqb_false _ _ Hhne) in Hrh.
    rewrite Hot, (string_eqb_false _ _ One) in Hro.
    split; assumption.
Qed.

Lemma suggested_rule_resolves_the_remote_witness :
  let r := hint.suggested hint.nested_remote "" "~/.ssh/group_key" 0 in
  laws.literal_matches_itself ref.runtime
  /\ @hint.plain ref.runtime (giturl.Host hint.nested_remote)
  /\ @hint.plain ref.runtime (giturl.Owner hint.nested_remote)
  /\ snd (@rules.AddRule ref.runtime store.some_entropy store.example_config
            r false 0) = None
  /\ let c0 := fst (@rules.Normalize ref.runtime store.some_entropy
                      store.example_config 0) in
     let c1 := fst (fst (@rules.AddRule ref.runtime store.some_entropy
                           store.example_config r false 0)) in
     exists m,
       @matcher.Match ref.runtime (config.Rules c1)
         (Some hint.nested_remote) = Ok m
       /\ (forall e,
              @matcher.Match ref.runtime (config.Rules c0)
                (Some hint.nested_remote) = Err e ->
              matcher.Index m = List.length (config.Rules c0)
              /\ config.Key (matcher.Rule m)
                 = @strings_TrimSpace ref.runtime "~/.ssh/group_key"
              /\ config.Host (matcher.Rule m)
                 = giturl.Host hint.nested_remote
              /\ config.Owner (matcher.Rule m)
                 = giturl.Owner hint.nested_remote).
Proof.
  cbv zeta.
  assert (Hh : @hint.plain ref.runtime (giturl.Host hint.nested_remote)).
  { unfold hint.plain. repeat split; try (vm_compute; reflexivity);
      discriminate. }
  assert (Ho : @hint.plain ref.runtime (giturl.Owner hint.nested_remote)).
  { unfold hint.plain. repeat split; try (vm_compute; reflexivity);
      discriminate. }
  split; [exact ref_literal_matches_itself|].
  split; [exact Hh|]. split; [exact Ho|].
  split; [vm_compute; reflexivity|].
  refine (@suggested_rule_resolves_the_remote ref.runtime store.some_entropy
            store.example_config hint.nested_remote "" "~/.ssh/group_key"
            0 false 0 ref_literal_matches_itself Hh Ho _).
  vm_compute. reflexivity.
Defined.

(** ** Exit codes, and remotes that need no key *)

Section ExitCodes.
Context {rt : GoRuntime}.

Lemma finish_code (w : cli.World) (opts : cli.globalOptions)
      (args : list string) (t : runner.GitTarget) (url : string)
      (extraEnv : list (string * string)) (ns : list string)
      (res : option resolve.Result) :
  cli.exit_code (cli.finish w opts args t url extraEnv ns res) = 0
  \/ cli.exit_code (cli.finish w opts args t url extraEnv ns res) = 1.
Proof.
  unfold cli.finish. destruct (cli.DryRun opts); [now left|].
  cbn. destruct (cli.git_runs w args _); [now left|now right].
Qed.

Lemma resolve_and_finish_code (w : cli.World) (opts : cli.globalOptions)
      (args : list string) (t : runner.GitTarget) (url : string)
      (ns : list string) :
  cli.exit_code (cli.resolve_and_finish w opts args t url ns) = 0
  \/ cli.exit_code (cli.resolve_and_finish w opts args t url ns) = 1.
Proof.
  unfold cli.resolve_and_finish.
  destruct (negb (String.eqb url "") && negb (runner.SkipSSHSelection t));
    [|apply finish_code].
  destruct (match cli.load_config w (cli.ConfigPath opts) with
            | Some _ => Some ns
            | None => _
            end) as [ns'|]; [|now right].
  destruct (resolve.FromURL (cli.load_config w (cli.ConfigPath opts)) url)
    as [res|e]; [apply finish_code|now right].
Qed.

(** A remote that is not reached over SSH is resolved without a
    configuration. *)
Lemma FromURL_no_key (cfg : option config.Config) (url : string)
      (parsed : giturl.ParsedRemote) :
  giturl.Parse url = Ok parsed -> giturl.IsSSH parsed = false ->
  exists res,
    resolve.FromURL cfg url = Ok res
    /\ resolve.SSHSelectionApplies res = false.
Proof.
  intros Hp Hssh. unfold resolve.FromURL. rewrite Hp, Hssh. cbn [negb].
  destruct (giturl.IsHTTPS parsed); eexists; split; reflexivity.
Qed.

End ExitCodes.

(** X26.  The exit code of [handleExec] is 0, 1 or 2, and it is 2
    exactly for a wrong command line: no git argument at all, or a
    [clone] without a repository argument.  Every failure to look up a
    remote, to load the configuration, to resolve the URL or to run git
    gives 1. *)
Theorem handleExec_exits_2_for_usage_errors {rt : GoRuntime}
        (w : cli.World) (opts : cli.globalOptions) (args : list string) :
  let code := cli.exit_code (cli.handleExec w opts args) in
  (code = 0 \/ code = 1 \/ code = 2)
  /\ (code = 2 <-> wrapper.usage_error args).
Proof.
  cbv zeta.
  assert (Hlow : forall o,
             cli.exit_code o = 0 \/ cli.exit_code o = 1 ->
             ~ wrapper.usage_error args ->
             (cli.exit_code o = 0 \/ cli.exit_code o = 1 \/ cli.exit_code o = 2)
             /\ (cli.exit_code o = 2 <-> wrapper.usage_error args)).
  { intros o Ho Hno. split; [tauto|]. split; [lia|contradiction]. }
  unfold cli.handleExec.
  destruct args as [|cmd rest].
  { cbn. split; [tauto|]. split; [intros _; now left|reflexivity]. }
  cbn [List.length Nat.eqb].
  destruct (InferGitTarget_error (cmd :: rest)) as [Hnone|[Herr Hclone]].
  2:{ destruct (runner.InferGitTarget (cmd :: rest)) as [t e].
      cbn [snd] in Herr. subst e. cbn.
      split; [tauto|]. split; [intros _; now right|reflexivity]. }
  assert (Hno : ~ wrapper.usage_error (cmd :: rest)).
  { intros [H|[rest' [H Hpos]]]; [discriminate|].
    injection H as -> ->. cbn in Hnone. rewrite Hpos in Hnone.
    discriminate. }
  destruct (runner.InferGitTarget (cmd :: rest)) as [t e].
  cbn [snd] in Hnone. subst e.
  apply Hlow; [|exact Hno].
  assert (Hremote : forall t' name ns',
             let o := match gitops.RemoteURL (cli.git_stdout w) name with
                      | gitops.Failed e =>
                          cli.Refused 1 (cli.ErrRemoteURL name e)
                      | gitops.Got u =>
                          cli.resolve_and_finish w opts (cmd :: rest) t' u ns'
                      end in
             cli.exit_code o = 0 \/ cli.exit_code o = 1).
  { intros t' name ns'. cbv zeta.
    destruct (gitops.RemoteURL (cli.git_stdout w) name) as [u|e];
      [apply resolve_and_finish_code|now right]. }
  destruct (runner.Kind t).
  - destruct (cli.guesses (runner.Command t)).
    + destruct (gitops.GuessDefaultRemote (cli.git_stdout w)) as [guessed|e].
      * destruct (String.eqb guessed ""); cbn [negb].
        -- apply resolve_and_finish_code.
        -- apply Hremote.
      * apply resolve_and_finish_code.
    + apply resolve_and_finish_code.
  - destruct (String.eqb (runner.RemoteName t) ""); cbn [negb].
    + apply resolve_and_finish_code.
    + apply Hremote.
  - apply resolve_and_finish_code.
Qed.

(** X27.  An HTTPS remote needs no configuration.  When the target of
    the command line is a URL, or a remote whose URL git reports, that
    starts with [https://] in any letter case and parses as a remote
    that is not reached over SSH, [handleExec] without [--dry-run]
    starts git with the arguments given and the environment of the
    process unchanged, whether or not a configuration can be loaded and
    whatever its rules are. *)
Theorem https_remote_needs_no_config {rt : GoRuntime}
        (w : cli.World) (opts : cli.globalOptions) (args : list string)
        (t : runner.GitTarget) (u : string) (parsed : giturl.ParsedRemote) :
  args <> [] ->
  runner.InferGitTarget args = (t, None) ->
  wrapper.target_url w t u ->
  strings.Contains u "://" = true ->
  strings.HasPrefix (strings_ToLower u) "https://" = true ->
  giturl.Parse u = Ok parsed ->
  giturl.IsSSH parsed = false ->
  cli.DryRun opts = false ->
  cli.handleExec w opts args
  = cli.Ran args [] (cli.environ w) (cli.git_runs w args (cli.environ w)).
Proof.
  intros Hargs Hinfer Htarget Hcontains Hprefix Hparse Hssh Hdry.
  assert (Hfinish : forall t' ns res,
             cli.finish w opts args t' u [] ns res
             = cli.Ran args [] (cli.environ w)
                       (cli.git_runs w args (cli.environ w))).
  { intros t' ns res. unfold cli.finish. rewrite Hdry. reflexivity. }
  assert (Hresolve : forall ns,
             cli.resolve_and_finish w opts args t u ns
             = cli.Ran args [] (cli.environ w)
                       (cli.git_runs w args (cli.environ w))).
  { intros ns. unfold cli.resolve_and_finish.
    destruct (negb (String.eqb u "") && negb (runner.SkipSSHSelection t));
      [|apply Hfinish].
    rewrite Hcontains, Hprefix. cbn [andb].
    destruct (FromURL_no_key (cli.load_config w (cli.ConfigPath opts))
                u parsed Hparse Hssh) as [res [Hres Happ]].
    destruct (cli.load_config w (cli.ConfigPath opts)) as [cfg|];
      rewrite Hres, Happ; apply Hfinish. }
  unfold cli.handleExec.
  destruct args as [|cmd rest]; [contradiction|].
  cbn [List.length Nat.eqb]. rewrite Hinfer.
  destruct Htarget as [[Hkind ->]|[Hkind [Hname Hurl]]]; rewrite Hkind.
  - cbn [String.eqb negb]. apply Hresolve.
  - rewrite (string_eqb_false _ _ Hname). cbn [negb]. rewrite Hurl.
    apply Hresolve.
Qed.

Lemma https_remote_needs_no_config_witness :
  let args := ["push"; "mirror"; "main"] in
  let t := fst (runner.InferGitTarget args) in
  let u := examples.https_url in
  args <> []
  /\ runner.InferGitTarget args = (t, None)
  /\ @wrapper.target_url ref.runtime wrapper.world_without_config t u
  /\ strings.Contains u "://" = true
  /\ strings.HasPrefix (@strings_ToLower ref.runtime u) "https://" = true
  /\ @giturl.Parse ref.runtime u = Ok examples.https_remote
  /\ giturl.IsSSH examples.https_remote = false
  /\ cli.DryRun cli.no_options = false
  /\ @cli.handleExec ref.runtime wrapper.world_without_config cli.no_options
       args
     = cli.Ran args [] (cli.environ wrapper.world_without_config)
         (cli.git_runs wrapper.world_without_config args
                       (cli.environ wrapper.world_without_config)).
Proof.
  cbv zeta.
  assert (Hargs : ["push"; "mirror"; "main"] <> []) by discriminate.
  assert (Htarget : @wrapper.target_url ref.runtime
                      wrapper.world_without_config
                      (fst (runner.InferGitTarget ["push"; "mirror"; "main"]))
                      examples.https_url).
  { right. split; [vm_compute; reflexivity|].
    split; [vm_compute; discriminate|vm_compute; reflexivity]. }
  split; [exact Hargs|]. split; [vm_compute; reflexivity|].
  split; [exact Htarget|].
  split; [vm_compute; reflexivity|]. split; [vm_compute; reflexivity|].
  split; [vm_compute; reflexivity|]. split; [vm_compute; reflexivity|].
  split; [reflexivity|].
  refine (@https_remote_needs_no_config ref.runtime
            wrapper.world_without_config cli.no_options
            ["push"; "mirror"; "main"] _ examples.https_url
            examples.https_remote Hargs _ Htarget _ _ _ _ _);
    vm_compute; reflexivity.
Defined.
